(** * Financial-risk dashboards: bucketing, loading, aggregation, flow graph

    A shallow embedding of the data pipeline of the three dashboard
    components (stacked bar chart, hexbin plot, Sankey / parallel
    coordinates plot): the CSV row accessors, the age and income
    bucketers, the two-level [d3.rollup] aggregate with its mean table,
    and the node / link construction that feeds the Sankey layout.

    JavaScript values are modelled as follows.
    - A [number] used only in comparisons is an extended rational or NaN.
      Every IEEE double denotes one such value and the relational
      operators of the language agree with the order on these values, so
      the bucketers and the loaders' range checks are modelled exactly.
    - Addition and division round.  The reducers are therefore written
      over an interface [JsArith] with two instances: IEEE binary64
      (primitive floats, bit-exact) and exact arithmetic on [number].
      The two are related by [denotes], the number a double stands for;
      an addition of doubles is not rounded when its result denotes the
      exact sum.
    - A [Map] or [Set] is an association list or list in insertion
      order, which is the iteration order of the language.
    - A possibly [undefined] string is an [option string].
    - A [string] holds the UTF-8 encoding of a string of the language. *)

From Stdlib Require Import List String Ascii Bool Arith ZArith Lia.
From Stdlib Require Import QArith Qcanon Qpower Lqa Permutation.
From Stdlib Require Import PrimFloat Uint63 Floats.
Import ListNotations.

Local Open Scope string_scope.
Local Open Scope list_scope.

(** ** Numbers *)

Module JsNum.

Inductive number : Type :=
| NaN
| NegInf
| Fin (q : Qc)
| PosInf.

(** An integer literal of the source. *)
Definition int (z : Z) : number := Fin (Q2Qc (inject_Z z)).

Definition isNaN (a : number) : bool :=
  match a with NaN => true | _ => false end.

(** [a <= b]; false as soon as one side is NaN. *)
Definition leb (a b : number) : bool :=
  match a, b with
  | NaN, _ | _, NaN => false
  | NegInf, _ => true
  | _, PosInf => true
  | Fin p, Fin q => Qle_bool p q
  | _, _ => false
  end.

(** [a < b]. *)
Definition ltb (a b : number) : bool :=
  match a, b with
  | NaN, _ | _, NaN => false
  | NegInf, NegInf => false
  | NegInf, _ => true
  | PosInf, _ => false
  | _, PosInf => true
  | Fin p, Fin q => negb (Qle_bool q p)
  | Fin _, NegInf => false
  end.

(** [a >= b] and [a > b] are the mirrored comparisons. *)
Definition geb (a b : number) : bool := leb b a.
Definition gtb (a b : number) : bool := ltb b a.

Definition Qc_is_zero (q : Qc) : bool := Qeq_bool q 0.

(** Exact sum: NaN absorbs, opposite infinities give NaN. *)
Definition add (a b : number) : number :=
  match a, b with
  | NaN, _ | _, NaN => NaN
  | PosInf, NegInf | NegInf, PosInf => NaN
  | PosInf, _ | _, PosInf => PosInf
  | NegInf, _ | _, NegInf => NegInf
  | Fin p, Fin q => Fin (p + q)
  end.

Definition neg (a : number) : number :=
  match a with
  | NaN => NaN
  | NegInf => PosInf
  | PosInf => NegInf
  | Fin q => Fin (- q)
  end.

(** Exact quotient.  The divisor zero is taken as [+0]. *)
Definition div (a b : number) : number :=
  match a, b with
  | NaN, _ | _, NaN => NaN
  | (PosInf | NegInf), (PosInf | NegInf) => NaN
  | Fin _, (PosInf | NegInf) => Fin 0
  | (PosInf | NegInf), Fin q =>
      if Qle_bool 0 q then a else neg a
  | Fin p, Fin q =>
      if Qc_is_zero q then
        if Qc_is_zero p then NaN
        else if Qle_bool 0 p then PosInf else NegInf
      else Fin (p / q)
  end.

(** [ToBoolean]: zero and NaN are falsy. *)
Definition truthy (a : number) : bool :=
  match a with
  | NaN => false
  | Fin q => negb (Qc_is_zero q)
  | _ => true
  end.

(** The arithmetic a reducer needs from the language's numbers. *)
Class JsArith (num : Type) : Type := {
  num_zero : num;
  num_add : num -> num -> num;
  num_div : num -> num -> num;
  num_of_nat : nat -> num;
  num_truthy : num -> bool;
  num_isNaN : num -> bool;
  num_zero_not_NaN : num_isNaN num_zero = false
}.

(** Exact arithmetic. *)
#[export] Instance exact_arith : JsArith number := {
  num_zero := int 0;
  num_add := add;
  num_div := div;
  num_of_nat := fun n => int (Z.of_nat n);
  num_truthy := truthy;
  num_isNaN := isNaN;
  num_zero_not_NaN := eq_refl
}.

Definition float_isNaN (x : float) : bool := negb (PrimFloat.eqb x x).

(** IEEE binary64, the arithmetic the program runs on. *)
#[export] Instance ieee_arith : JsArith float := {
  num_zero := 0%float;
  num_add := PrimFloat.add;
  num_div := PrimFloat.div;
  num_of_nat := fun n => PrimFloat.of_uint63 (Uint63.of_Z (Z.of_nat n));
  num_truthy := fun x => negb (PrimFloat.eqb x 0%float || float_isNaN x);
  num_isNaN := float_isNaN;
  num_zero_not_NaN := eq_refl
}.

(** Equality of two values, decided; NaN is taken as one value. *)
Definition same (a b : number) : bool :=
  match a, b with
  | NaN, NaN | NegInf, NegInf | PosInf, PosInf => true
  | Fin p, Fin q => Qeq_bool p q
  | _, _ => false
  end.

(** The number a double denotes: [(-1)^s * m * 2^e] for a finite one,
    zero for both signed zeros. *)
Definition denotes (x : float) : number :=
  match Prim2SF x with
  | S754_nan => NaN
  | S754_infinity s => if s then NegInf else PosInf
  | S754_zero _ => int 0
  | S754_finite s m e =>
      Fin (Q2Qc (inject_Z (if s then Z.neg m else Z.pos m) * (2 # 1) ^ e))
  end.

(** The sum [x + y] of two doubles is not rounded: it denotes the sum
    of the numbers that [x] and [y] denote. *)
Definition adds_exactly (x y : float) : bool :=
  same (denotes (PrimFloat.add x y)) (add (denotes x) (denotes y)).

End JsNum.

Import JsNum.

Declare Scope js_scope.
Delimit Scope js_scope with js.
Notation "a <= b" := (leb a b) : js_scope.
Notation "a < b" := (ltb a b) : js_scope.
Notation "a >= b" := (geb a b) : js_scope.
Notation "a > b" := (gtb a b) : js_scope.

(** ** Language and library primitives *)

Module Js.

(** A parsed CSV row: the object handed to a row accessor, as its
    property list.  A column that the file does not have reads as
    [None] ([undefined]). *)
Definition DSVRow : Type := list (string * string).

Fixpoint field (d : DSVRow) (name : string) : option string :=
  match d with
  | [] => None
  | (k, v) :: rest => if String.eqb name k then Some v else field rest name
  end.

(** [ToBoolean] of a possibly undefined string. *)
Definition truthy_str (o : option string) : bool :=
  match o with
  | Some s => negb (String.eqb s "")
  | None => false
  end.

Definition ostring_dec (x y : option string) : {x = y} + {x <> y}.
Proof. decide equality. apply string_dec. Defined.

(** The string with the given bytes. *)
Definition encode (bytes : list nat) : string :=
  string_of_list_ascii (map ascii_of_nat bytes).

(** The white space and line terminator code points of the language,
    UTF-8 encoded: TAB, LF, VT, FF, CR, SP, U+00A0, U+1680, U+2000 to
    U+200A, U+2028, U+2029, U+202F, U+205F, U+3000 and U+FEFF. *)
Definition whiteSpace : list string :=
  map encode
    ([[9]; [10]; [11]; [12]; [13]; [32]; [194; 160]; [225; 154; 128]] ++
     map (fun last => [226; 128; last]) (seq 128 11) ++
     [[226; 128; 168]; [226; 128; 169]; [226; 128; 175]; [226; 129; 159];
      [227; 128; 128]; [239; 187; 191]])%nat.

(** [s.startsWith(p)]. *)
Fixpoint startsWith (p s : string) : bool :=
  match p, s with
  | EmptyString, _ => true
  | String a p', String b s' => Ascii.eqb a b && startsWith p' s'
  | String _ _, EmptyString => false
  end.

(** The number of bytes of the character of [spaces] that [s] starts
    with, [0] when it starts with none. *)
Definition width (spaces : list string) (s : string) : nat :=
  match find (fun w => startsWith w s) spaces with
  | Some w => String.length w
  | None => 0
  end.

(** Drops [pending] bytes, then every leading character of [spaces]. *)
Fixpoint dropLeading (spaces : list string) (pending : nat) (s : string) : string :=
  match s with
  | String _ rest =>
      match pending with
      | S n => dropLeading spaces n rest
      | O =>
          match width spaces s with
          | S n => dropLeading spaces n rest
          | O => s
          end
      end
  | EmptyString => EmptyString
  end.

Definition reverse (s : string) : string :=
  string_of_list_ascii (rev (list_ascii_of_string s)).

Definition trimStart (s : string) : string := dropLeading whiteSpace 0 s.

Definition trimEnd (s : string) : string :=
  reverse (dropLeading (map reverse whiteSpace) 0 (reverse s)).

(** [s.trim()]. *)
Definition trim (s : string) : string := trimEnd (trimStart s).

(** Unary plus on a possibly undefined string, given the conversion
    [ToNumber] of the language on strings. *)
Definition plus (ToNumber : string -> number) (o : option string) : number :=
  match o with
  | Some s => ToNumber s
  | None => NaN
  end.

Definition digit (c : ascii) : option Z :=
  let n := nat_of_ascii c in
  if ((48 <=? n) && (n <=? 57))%nat then Some (Z.of_nat (n - 48)) else None.

(** Reads a run of decimal digits: its value on top of [acc], how many
    digits were read, and what follows. *)
Fixpoint digits (s : string) (acc : Z) (read : nat) : Z * nat * string :=
  match s with
  | String c rest =>
      match digit c with
      | Some d => digits rest (10 * acc + d)%Z (S read)
      | None => (acc, read, s)
      end
  | EmptyString => (acc, read, s)
  end.

Definition unsignedDecimal (s : string) : number :=
  if String.eqb s "Infinity" then PosInf
  else
    let '(whole, n1, rest) := digits s 0%Z 0%nat in
    match rest with
    | EmptyString => if (n1 =? 0)%nat then NaN else int whole
    | String "." frac =>
        let '(all, n2, rest') := digits frac whole 0%nat in
        match rest' with
        | EmptyString =>
            if (n1 + n2 =? 0)%nat then NaN
            else Fin (Q2Qc (all # Z.to_pos (10 ^ Z.of_nat n2)))
        | _ => NaN
        end
    | _ => NaN
    end.

(** [ToNumber] on strings, for the decimal literals without exponent:
    white space is trimmed, the empty string is [0], a sign may come
    first, anything else is NaN.  Literals with an exponent or a radix
    prefix are outside this fragment, and the value is not rounded. *)
Definition StringToNumber (s : string) : number :=
  match trim s with
  | EmptyString => int 0
  | String "+" rest => unsignedDecimal rest
  | String "-" rest => neg (unsignedDecimal rest)
  | t => unsignedDecimal t
  end.

End Js.

(** The [Map] of the language as an association list, and the library
    functions the components call: grouping and [rollup], [sum], and
    the row-wise loader. *)
Module D3.

Section Maps.
Context {K V : Type} (K_dec : forall x y : K, {x = y} + {x <> y}).

(** [Map.prototype.get]. *)
Fixpoint get (k : K) (m : list (K * V)) : option V :=
  match m with
  | [] => None
  | (k', v) :: rest => if K_dec k k' then Some v else get k rest
  end.

(** [Map.prototype.has]. *)
Definition has (k : K) (m : list (K * V)) : bool :=
  match get k m with Some _ => true | None => false end.

(** [Map.prototype.set]: an existing key keeps its place. *)
Fixpoint set (k : K) (v : V) (m : list (K * V)) : list (K * V) :=
  match m with
  | [] => [(k, v)]
  | (k', v') :: rest =>
      if K_dec k k' then (k', v) :: rest else (k', v') :: set k v rest
  end.
End Maps.

Section Group.
Context {A K : Type} (K_dec : forall x y : K, {x = y} + {x <> y}).

(** One step of the grouping loop: push the value on the group of
    its key, or open a new group at the end of the map. *)
Fixpoint push (k : K) (v : A) (groups : list (K * list A)) : list (K * list A) :=
  match groups with
  | [] => [(k, [v])]
  | (k', vs) :: rest =>
      if K_dec k k' then (k', vs ++ [v]) :: rest
      else (k', vs) :: push k v rest
  end.

(** The body of the loop over the values. *)
Definition step (keyof : A -> K) (groups : list (K * list A)) (v : A)
    : list (K * list A) :=
  push (keyof v) v groups.

Definition group (keyof : A -> K) (values : list A) : list (K * list A) :=
  fold_left (step keyof) values [].
End Group.

(** The values whose key is [k], in input order. *)
Definition members {A K : Type} (K_dec : forall x y : K, {x = y} + {x <> y})
    (keyof : A -> K) (k : K) (values : list A) : list A :=
  filter (fun v => if K_dec (keyof v) k then true else false) values.

(** [d3.rollup(values, reduce, key1, key2)]: group by the first key,
    regroup every group by the second key, reduce the leaves. *)
Definition rollup {A K1 K2 R : Type}
    (K1_dec : forall x y : K1, {x = y} + {x <> y})
    (K2_dec : forall x y : K2, {x = y} + {x <> y})
    (values : list A) (reduce : list A -> R)
    (key1 : A -> K1) (key2 : A -> K2) : list (K1 * list (K2 * R)) :=
  map (fun '(k1, vs) =>
         (k1, map (fun '(k2, ws) => (k2, reduce ws)) (group K2_dec key2 vs)))
      (group K1_dec key1 values).

(** [d3.sum(values, valueof)]: the running total skips every value
    that is falsy (zero or NaN). *)
Definition sum {num : Type} `{JsArith num} {A : Type}
    (values : list A) (valueof : A -> num) : num :=
  fold_left (fun sum v =>
               let value := valueof v in
               if num_truthy value then num_add sum value else sum)
            values num_zero.

(** [d3.csv(url, row)] on the parsed rows of the file: a row for which
    the accessor returns [null] is skipped. *)
Fixpoint csv {T : Type} (row : Js.DSVRow -> option T) (rows : list Js.DSVRow) : list T :=
  match rows with
  | [] => []
  | d :: rest =>
      match row d with
      | Some r => r :: csv row rest
      | None => csv row rest
      end
  end.

End D3.

(** ** Grouping aggregator *)

Module Aggregator.

Record Cell (num : Type) : Type := { totalIncome : num; count : nat }.
Arguments totalIncome {num} _.
Arguments count {num} _.

Section Aggregate.
Context {num : Type} `{JsArith num} {A K1 K2 : Type}.
Context (K1_dec : forall x y : K1, {x = y} + {x <> y}).
Context (K2_dec : forall x y : K2, {x = y} + {x <> y}).

(** The reducer of both bar charts, for a measure [valueof]. *)
Definition sumCount (valueof : A -> num) (v : list A) : Cell num :=
  {| totalIncome := D3.sum v valueof; count := List.length v |}.

Definition aggregate (rows : list A) (valueof : A -> num)
    (key1 : A -> K1) (key2 : A -> K2) : list (K1 * list (K2 * Cell num)) :=
  D3.rollup K1_dec K2_dec rows (sumCount valueof) key1 key2.

(** The cell of a pair of keys, if the mapping has one. *)
Definition cell (agg : list (K1 * list (K2 * Cell num))) (k1 : K1) (k2 : K2)
    : option (Cell num) :=
  match D3.get K1_dec k1 agg with
  | Some inner => D3.get K2_dec k2 inner
  | None => None
  end.

(** All cells of the mapping, in iteration order. *)
Definition cells (agg : list (K1 * list (K2 * Cell num))) : list (Cell num) :=
  flat_map (fun entry => map snd (snd entry)) agg.

Definition totalCount (agg : list (K1 * list (K2 * Cell num))) : nat :=
  fold_left Nat.add (map count (cells agg)) 0%nat.

Definition totalSum (agg : list (K1 * list (K2 * Cell num))) : num :=
  fold_left num_add (map totalIncome (cells agg)) num_zero.

(** The leaf groups of the rollup, in iteration order: the row lists
    that the reducer is called with. *)
Definition leaves (rows : list A) (key1 : A -> K1) (key2 : A -> K2) : list (list A) :=
  flat_map (fun e => map snd (D3.group K2_dec key2 (snd e)))
           (D3.group K1_dec key1 rows).
End Aggregate.

(** Addition behaves as on the rationals: it is associative and
    commutative and [0] is neutral.  Exact arithmetic has this
    property, rounding arithmetic does not. *)
Definition AddIsExact (num : Type) `{JsArith num} : Prop :=
  (forall a b c : num, num_add a (num_add b c) = num_add (num_add a b) c) /\
  (forall a b : num, num_add a b = num_add b a) /\
  (forall a : num, num_add num_zero a = a).

(** On doubles: no addition of the running total of [d3.sum] over
    [values], started at [total], is rounded. *)
Fixpoint sum_unrounded {A : Type} (valueof : A -> float) (values : list A)
    (total : float) : bool :=
  match values with
  | [] => true
  | v :: rest =>
      let value := valueof v in
      if num_truthy value
      then adds_exactly total value && sum_unrounded valueof rest (num_add total value)
      else sum_unrounded valueof rest total
  end.

(** No addition of the total of the cell sums is rounded. *)
Fixpoint total_unrounded (sums : list float) (total : float) : bool :=
  match sums with
  | [] => true
  | s :: rest => adds_exactly total s && total_unrounded rest (num_add total s)
  end.

(** No addition is rounded in the sum of any cell, in the total of the
    cell sums and in the sum over all rows. *)
Definition unrounded {A K1 K2 : Type}
    (K1_dec : forall x y : K1, {x = y} + {x <> y})
    (K2_dec : forall x y : K2, {x = y} + {x <> y})
    (rows : list A) (valueof : A -> float) (key1 : A -> K1) (key2 : A -> K2) : bool :=
  forallb (fun ws => sum_unrounded valueof ws num_zero)
          (leaves K1_dec K2_dec rows key1 key2) &&
  total_unrounded
    (map totalIncome (cells (aggregate K1_dec K2_dec rows valueof key1 key2)))
    num_zero &&
  sum_unrounded valueof rows num_zero.

End Aggregator.

(** ** Categorical bucketer *)

Module Bucketer.

(** An interval of a bucket table.  [upper_closed] tells whether the
    upper bound belongs to the interval. *)
Record Interval : Type := {
  min : number;
  max : number;
  upper_closed : bool;
  label : string
}.

Definition contains (i : Interval) (v : number) : bool :=
  (v >= min i)%js && (if upper_closed i then (v <= max i)%js else (v < max i)%js).

(** Membership when both ends are taken as closed. *)
Definition within (i : Interval) (v : number) : bool :=
  (v >= min i)%js && (v <= max i)%js.

(** [f] gives the label of an interval of the table exactly on the
    values that are [inside] it. *)
Definition labels_exactly (inside : Interval -> number -> bool)
    (table : list Interval) (f : number -> string) : Prop :=
  forall i, In i table -> forall v, f v = label i <-> inside i v = true.

(** The bucketer of the specification: the label of the first interval
    of the table that contains the value, else the fallback label. *)
Definition bucket (table : list Interval) (fallback : string) (v : number) : string :=
  match find (fun i => contains i v) table with
  | Some i => label i
  | None => fallback
  end.

Definition closed (lo hi : Z) (l : string) : Interval :=
  {| min := int lo; max := int hi; upper_closed := true; label := l |}.

Definition half_open (lo hi : Z) (l : string) : Interval :=
  {| min := int lo; max := int hi; upper_closed := false; label := l |}.

Definition below (hi : Z) (l : string) : Interval :=
  {| min := NegInf; max := int hi; upper_closed := false; label := l |}.

End Bucketer.

(** ** Bar chart with the cut-offs 18-27, 28-37, ... *)

Module BarChartOverview.

Definition categorizeAge (age : number) : string :=
  if (age >= int 18)%js && (age <= int 27)%js then "18-27"
  else if (age >= int 28)%js && (age <= int 37)%js then "28-37"
  else if (age >= int 38)%js && (age <= int 47)%js then "38-47"
  else if (age >= int 48)%js && (age <= int 57)%js then "48-57"
  else if (age >= int 58)%js && (age <= int 69)%js then "58-69"
  else "Unknown".

(** The intervals tested by [categorizeAge], in order. *)
Definition ageTable : list Bucketer.Interval :=
  [ Bucketer.closed 18 27 "18-27"; Bucketer.closed 28 37 "28-37";
    Bucketer.closed 38 47 "38-47"; Bucketer.closed 48 57 "48-57";
    Bucketer.closed 58 69 "58-69" ].

Definition riskCategories : list string := ["Low"; "Medium"; "High"].

Definition ageCategories : list string :=
  ["18-27"; "28-37"; "38-47"; "48-57"; "58-69"; "Unknown"].

Record DataType (num : Type) : Type := {
  Age : string;
  Income : num;
  RiskRating : option string
}.
Arguments Age {num} _.
Arguments Income {num} _.
Arguments RiskRating {num} _.

(** The row accessor given to [d3.csv]: it returns an object for every
    row. *)
Definition row (ToNumber : string -> number) (d : Js.DSVRow)
    : option (DataType number) :=
  let age := Js.plus ToNumber (Js.field d "Age") in
  let ageGroup := categorizeAge age in
  Some {| Age := ageGroup;
          Income := Js.plus ToNumber (Js.field d "Income");
          RiskRating := Js.field d "Risk Rating" |}.

Definition load (ToNumber : string -> number) (file : list Js.DSVRow)
    : list (DataType number) :=
  D3.csv (row ToNumber) file.

Definition risk_dec := Js.ostring_dec.

Section Chart.
Context {num : Type} `{JsArith num}.

Definition aggregatedData (data : list (DataType num))
    : list (string * list (option string * Aggregator.Cell num)) :=
  Aggregator.aggregate string_dec risk_dec data Income Age RiskRating.

(** One object of [stackedData]: the age group and, for every risk
    category, the mean income, or [0] when the group has no such
    cell. *)
Definition stackedRow
    (entry : string * list (option string * Aggregator.Cell num))
    : string * list (string * num) :=
  let '(age, riskData) := entry in
  (age,
   map (fun risk =>
          (risk,
           match D3.get risk_dec (Some risk) riskData with
           | Some groupData =>
               num_div (Aggregator.totalIncome groupData)
                       (num_of_nat (Aggregator.count groupData))
           | None => num_zero
           end))
       riskCategories).

Definition stackedData (data : list (DataType num))
    : list (string * list (string * num)) :=
  map stackedRow (aggregatedData data).

Definition ageCategoriesInData (data : list (DataType num)) : list string :=
  filter (fun age => D3.has string_dec age (aggregatedData data)) ageCategories.
End Chart.

End BarChartOverview.

(** ** Bar chart with the cut-offs 18-25, 26-35, ... *)

Module BarChartOverview2.

Definition categorizeAge (age : number) : string :=
  if (age >= int 18)%js && (age <= int 25)%js then "18-25"
  else if (age >= int 26)%js && (age <= int 35)%js then "26-35"
  else if (age >= int 36)%js && (age <= int 45)%js then "36-45"
  else if (age >= int 46)%js && (age <= int 55)%js then "46-55"
  else if (age >= int 56)%js && (age <= int 69)%js then "56-69"
  else "Unknown".

Definition ageTable : list Bucketer.Interval :=
  [ Bucketer.closed 18 25 "18-25"; Bucketer.closed 26 35 "26-35";
    Bucketer.closed 36 45 "36-45"; Bucketer.closed 46 55 "46-55";
    Bucketer.closed 56 69 "56-69" ].

Definition riskCategories : list string := ["Low"; "Medium"; "High"].

Record DataType (num : Type) : Type := {
  Age : string;
  Income : num;
  RiskRating : option string
}.
Arguments Age {num} _.
Arguments Income {num} _.
Arguments RiskRating {num} _.

(** The row accessor given to [d3.csv]: it returns an object for every
    row. *)
Definition row (ToNumber : string -> number) (d : Js.DSVRow)
    : option (DataType number) :=
  let age := Js.plus ToNumber (Js.field d "Age") in
  let ageGroup := categorizeAge age in
  Some {| Age := ageGroup;
          Income := Js.plus ToNumber (Js.field d "Income");
          RiskRating := Js.field d "Risk Rating" |}.

Definition load (ToNumber : string -> number) (file : list Js.DSVRow)
    : list (DataType number) :=
  D3.csv (row ToNumber) file.

Definition risk_dec := Js.ostring_dec.

Section Chart.
Context {num : Type} `{JsArith num}.

Definition aggregatedData (data : list (DataType num))
    : list (string * list (option string * Aggregator.Cell num)) :=
  Aggregator.aggregate string_dec risk_dec data Income Age RiskRating.

(** One object of [stackedData]: the age group and, for every risk
    category, the mean income, or [0] when the group has no such
    cell. *)
Definition stackedRow
    (entry : string * list (option string * Aggregator.Cell num))
    : string * list (string * num) :=
  let '(age, riskData) := entry in
  (age,
   map (fun risk =>
          (risk,
           match D3.get risk_dec (Some risk) riskData with
           | Some groupData =>
               num_div (Aggregator.totalIncome groupData)
                       (num_of_nat (Aggregator.count groupData))
           | None => num_zero
           end))
       riskCategories).

Definition stackedData (data : list (DataType num))
    : list (string * list (string * num)) :=
  map stackedRow (aggregatedData data).
(** The domain given to the band scale of the x axis. *)
Definition xDomain (data : list (DataType num)) : list string :=
  map fst (stackedData data).
End Chart.

End BarChartOverview2.

(** ** Hexbin plot: row accessor, age-group table and window filter *)

Module HexbinPlot.

Record DataType : Type := {
  CreditScore : number;
  Income : number;
  RiskRating : string;
  DebtToIncomeRatio : number;
  Age : number
}.

(** The row accessor given to [d3.csv]; [None] is its [null]. *)
Definition row (ToNumber : string -> number) (d : Js.DSVRow) : option DataType :=
  let creditScore := Js.plus ToNumber (Js.field d "Credit Score") in
  let income := Js.plus ToNumber (Js.field d "Income") in
  let riskRating := Js.field d "Risk Rating" in
  let debtToIncomeRatio := Js.plus ToNumber (Js.field d "Debt-to-Income Ratio") in
  let age := Js.plus ToNumber (Js.field d "Age") in
  if negb (isNaN creditScore) &&
     negb (isNaN income) &&
     negb (isNaN debtToIncomeRatio) &&
     negb (isNaN age) &&
     (creditScore >= int 600)%js &&
     (creditScore <= int 800)%js &&
     (income > int 0)%js &&
     Js.truthy_str riskRating
  then
    match riskRating with
    | Some risk =>
        Some {| CreditScore := creditScore;
                Income := income;
                RiskRating := risk;
                DebtToIncomeRatio := debtToIncomeRatio;
                Age := age |}
    | None => None
    end
  else None.

(** The loaded rows; the later [filter (d !== null)] keeps them all. *)
Definition load (ToNumber : string -> number) (file : list Js.DSVRow) : list DataType :=
  D3.csv (row ToNumber) file.

Record AgeGroup : Type := { min : number; max : number; label : string }.

Definition ageGroups : list AgeGroup :=
  [ {| min := int 18; max := int 27; label := "18-27" |};
    {| min := int 28; max := int 37; label := "28-37" |};
    {| min := int 38; max := int 47; label := "38-47" |};
    {| min := int 48; max := int 57; label := "48-57" |};
    {| min := int 58; max := int 69; label := "58-69" |} ].

(** The predicate of [data.filter] in [updateChart]. *)
Definition inAgeGroup (g : AgeGroup) (age : number) : bool :=
  (age >= min g)%js && (age <= max g)%js.

(** The updater that the interval timer gives to [setAgeGroupIndex]. *)
Definition nextAgeGroupIndex (prevIndex : nat) : nat :=
  Nat.modulo (prevIndex + 1) (List.length ageGroups).

(** [ageGroups[ageGroupIndex]]; [None] is [undefined]. *)
Definition currentAgeGroup (ageGroupIndex : nat) : option AgeGroup :=
  nth_error ageGroups ageGroupIndex.

(** [filteredData] of [updateChart]: the rows of the current age
    window.  Reading [min] of an undefined group throws, which is
    [None] here. *)
Definition filteredData (ageGroupIndex : nat) (data : list DataType)
    : option (list DataType) :=
  match currentAgeGroup ageGroupIndex with
  | Some g => Some (filter (fun d => inAgeGroup g (Age d)) data)
  | None => None
  end.

End HexbinPlot.

(** ** Flow plots: parallel coordinates and Sankey

    Both plots share the income ranges, the row accessor and the graph
    construction; the Sankey plot adds a risk filter and keeps the risk
    rating of the row that created a link. *)

Module Sankey.

Definition incomeRanges : list string :=
  ["< 20K"; "20K - 50K"; "50K - 100K"; "100K - 200K"; "> 200K"].

Definition assignIncomeToRange (income : number) : string :=
  if (income < int 20000)%js then "< 20K"
  else if (income >= int 20000)%js && (income < int 50000)%js then "20K - 50K"
  else if (income >= int 50000)%js && (income < int 100000)%js then "50K - 100K"
  else if (income >= int 100000)%js && (income < int 200000)%js then "100K - 200K"
  else "> 200K".

(** The intervals tested by [assignIncomeToRange], in order; the last
    label of [incomeRanges] is the fallback. *)
Definition incomeTable : list Bucketer.Interval :=
  [ Bucketer.below 20000 "< 20K";
    Bucketer.half_open 20000 50000 "20K - 50K";
    Bucketer.half_open 50000 100000 "50K - 100K";
    Bucketer.half_open 100000 200000 "100K - 200K" ].

Record DataType : Type := {
  EducationLevel : string;
  PaymentHistory : string;
  Income : string;
  RiskRating : string
}.

(** The row accessor given to [d3.csv], the same in both plots;
    [None] is its [null]. *)
Definition row (ToNumber : string -> number) (d : Js.DSVRow) : option DataType :=
  let educationLevel := Js.field d "Education Level" in
  let paymentHistory := Js.field d "Payment History" in
  let income :=
    match Js.field d "Income" with
    | Some s =>
        if negb (String.eqb s "") && negb (String.eqb (Js.trim s) "")
        then ToNumber s else NaN
    | None => NaN
    end in
  let riskRating := Js.field d "Risk Rating" in
  if Js.truthy_str educationLevel && Js.truthy_str paymentHistory &&
     negb (isNaN income) && Js.truthy_str riskRating
  then
    match educationLevel, paymentHistory, riskRating with
    | Some education, Some payment, Some risk =>
        Some {| EducationLevel := education;
                PaymentHistory := payment;
                Income := assignIncomeToRange income;
                RiskRating := risk |}
    | _, _, _ => None
    end
  else None.

Definition load (ToNumber : string -> number) (file : list Js.DSVRow) : list DataType :=
  D3.csv (row ToNumber) file.

Definition dimensions : list string :=
  ["EducationLevel"; "PaymentHistory"; "Income"; "RiskRating"].

(** [d[key]] for a property name. *)
Definition prop (d : DataType) (key : string) : option string :=
  if String.eqb key "EducationLevel" then Some (EducationLevel d)
  else if String.eqb key "PaymentHistory" then Some (PaymentHistory d)
  else if String.eqb key "Income" then Some (Income d)
  else if String.eqb key "RiskRating" then Some (RiskRating d)
  else None.

(** A value spliced into a template literal. *)
Definition spliced (o : option string) : string :=
  match o with Some s => s | None => "undefined" end.

(** The node key [`${dimension}_${d[dimension]}`]. *)
Definition nodeName (dimension : string) (d : DataType) : string :=
  dimension ++ "_" ++ spliced (prop d dimension).

(** The link key [`${sourceNode}->${targetNode}`]. *)
Definition linkKey (sourceNode targetNode : string) : string :=
  sourceNode ++ "->" ++ targetNode.

(** [Set.prototype.add], in insertion order. *)
Definition setAdd (x : string) (s : list string) : list string :=
  if existsb (String.eqb x) s then s else s ++ [x].

(** [name.split('_')]. *)
Fixpoint split (sep : ascii) (s : string) : list string :=
  match s with
  | EmptyString => [EmptyString]
  | String c rest =>
      if Ascii.eqb c sep then EmptyString :: split sep rest
      else
        match split sep rest with
        | piece :: pieces => String c piece :: pieces
        | [] => [String c EmptyString]
        end
  end.

Record Node : Type := {
  name : string;
  dimension : option string;
  category : option string
}.

Section Builder.
(** What a link carries besides its ends and its weight: nothing in
    the parallel-coordinates plot, the risk rating of the row that
    created it in the Sankey plot. *)
Context {extra : Type} (passthrough : DataType -> extra).

Record LinkEntry : Type := {
  source : string;
  target : string;
  value : nat;
  riskRating : extra
}.

Record State : Type := {
  nodesSet : list string;
  linksMap : list (string * LinkEntry)
}.

Definition empty : State := {| nodesSet := []; linksMap := [] |}.

(** [linksMap.get(key).value += 1]. *)
Fixpoint increment (key : string) (m : list (string * LinkEntry))
    : list (string * LinkEntry) :=
  match m with
  | [] => []
  | (k, link) :: rest =>
      if string_dec key k
      then (k, {| source := source link; target := target link;
                  value := value link + 1;
                  riskRating := riskRating link |}) :: rest
      else (k, link) :: increment key rest
  end.

(** The body of the [if (prevDimension)] branch. *)
Definition addLink (d : DataType) (st : State) (sourceNode targetNode : string)
    : State :=
  let nodes := setAdd targetNode (setAdd sourceNode (nodesSet st)) in
  let key := linkKey sourceNode targetNode in
  {| nodesSet := nodes;
     linksMap :=
       if D3.has string_dec key (linksMap st)
       then increment key (linksMap st)
       else linksMap st ++
              [(key, {| source := sourceNode; target := targetNode;
                        value := 1; riskRating := passthrough d |})] |}.

(** The callback of [dimensions.reduce]: the accumulator is the
    previous dimension, the sets are updated on the side. *)
Definition reducer (d : DataType) (acc : State * option string)
    (currDimension : string) : State * option string :=
  let '(st, prevDimension) := acc in
  (if Js.truthy_str prevDimension
   then addLink d st (nodeName (spliced prevDimension) d) (nodeName currDimension d)
   else st,
   Some currDimension).

Definition visit (st : State) (d : DataType) : State :=
  fst (fold_left (reducer d) dimensions (st, None)).

(** [data.forEach(...)] from empty sets. *)
Definition build (data : list DataType) : State :=
  fold_left visit data empty.

Definition nodes (st : State) : list Node :=
  map (fun name =>
         let pieces := split "_" name in
         {| name := name;
            dimension := nth_error pieces 0;
            category := nth_error pieces 1 |})
      (nodesSet st).

Definition nodeMap (nodes : list Node) : list (string * nat) :=
  fold_left (fun m entry => D3.set string_dec (name (fst entry)) (snd entry) m)
            (combine nodes (seq 0 (List.length nodes))) [].

(** A link of the graph handed to the layout: its ends are node
    indices ([None] would be [undefined]). *)
Record Link : Type := {
  sourceIndex : option nat;
  targetIndex : option nat;
  weight : nat;
  carried : extra
}.

Definition links (st : State) : list Link :=
  let nodeMap := nodeMap (nodes st) in
  map (fun entry =>
         let link := snd entry in
         {| sourceIndex := D3.get string_dec (source link) nodeMap;
            targetIndex := D3.get string_dec (target link) nodeMap;
            weight := value link;
            carried := riskRating link |})
      (linksMap st).

Definition graph (data : list DataType) : list Node * list Link :=
  let st := build data in (nodes st, links st).
End Builder.

(** *** What the graph is compared with *)

(** The adjacent pairs of dimensions, in order. *)
Definition adjacent : list (string * string) :=
  combine dimensions (tl dimensions).

(** The pairs (source node key, target node key) of a row. *)
Definition pairs (d : DataType) : list (string * string) :=
  map (fun pc => (nodeName (fst pc) d, nodeName (snd pc) d)) adjacent.

(** All occurrences of adjacent-dimension pairs, row after row. *)
Definition occurrences (data : list DataType) : list (string * string) :=
  flat_map pairs data.

Definition pair_count (s t : string) (occs : list (string * string)) : nat :=
  List.length (filter (fun o => String.eqb (fst o) s && String.eqb (snd o) t) occs).

(** The rows whose value in dimension [dim] is [v]. *)
Definition rowsThrough (dim v : string) (data : list DataType) : nat :=
  List.length
    (filter (fun d => match prop d dim with
                      | Some x => String.eqb x v
                      | None => false
                      end) data).

Definition begins_with (c : ascii) (s : string) : bool :=
  match s with
  | String c' _ => Ascii.eqb c' c
  | EmptyString => false
  end.

(** The string contains ["->"]. *)
Fixpoint has_arrow (s : string) : bool :=
  match s with
  | EmptyString => false
  | String c rest => (Ascii.eqb c "-" && begins_with ">" rest) || has_arrow rest
  end.

(** No value that names a source node contains ["->"]. *)
Definition arrow_free (d : DataType) : bool :=
  negb (has_arrow (EducationLevel d)) &&
  negb (has_arrow (PaymentHistory d)) &&
  negb (has_arrow (Income d)).

(** The position of a label in [incomeRanges]. *)
Fixpoint position (x : string) (l : list string) : nat :=
  match l with
  | [] => 0
  | y :: rest => if String.eqb x y then 0 else S (position x rest)
  end.

Definition rangeRank (label : string) : nat := position label incomeRanges.

(** The string contains the character. *)
Fixpoint has_char (c : ascii) (s : string) : bool :=
  match s with
  | EmptyString => false
  | String c' rest => Ascii.eqb c' c || has_char c rest
  end.

(** How often a link key, and how often a source node, occurs. *)
Definition key_count (k : string) (occs : list (string * string)) : nat :=
  List.length (filter (fun o => String.eqb (linkKey (fst o) (snd o)) k) occs).

Definition source_count (n : string) (occs : list (string * string)) : nat :=
  List.length (filter (fun o => String.eqb (fst o) n) occs).

Section Conformance.
Context {extra : Type} (passthrough : DataType -> extra).

(** The total weight of the entries whose source is the node [n]. *)
Definition weightFrom (n : string) (m : list (string * @LinkEntry extra)) : nat :=
  list_sum (map (fun e => value (snd e))
                (filter (fun e => String.eqb (source (snd e)) n) m)).

(** What the sets hold once the occurrences [occs] have been visited. *)
Definition Invariant (st : @State extra) (occs : list (string * string)) : Prop :=
  NoDup (nodesSet st) /\
  (forall n, In n (nodesSet st) <-> exists o, In o occs /\ (n = fst o \/ n = snd o)) /\
  NoDup (map fst (linksMap st)) /\
  (forall k e, In (k, e) (linksMap st) ->
     k = linkKey (source e) (target e) /\
     In (source e, target e) occs /\
     value e = key_count k occs) /\
  (forall o, In o occs -> In (linkKey (fst o) (snd o)) (map fst (linksMap st))).

(** Edges are identified by their pair of node keys: no two entries
    have the same pair, every entry is a pair that occurs, and every
    pair that occurs has an entry whose weight is its number of
    occurrences. *)
Definition edges_by_pair (data : list DataType) : Prop :=
  let entries := map snd (linksMap (build passthrough data)) in
  NoDup (map (fun e => (source e, target e)) entries) /\
  (forall e, In e entries -> In (source e, target e) (occurrences data)) /\
  (forall s t, In (s, t) (occurrences data) ->
     exists e, In e entries /\ source e = s /\ target e = t /\
               value e = pair_count s t (occurrences data)).

(** The total weight of the links that leave the node of index [i]. *)
Definition outWeight (i : nat) (ls : list (@Link extra)) : nat :=
  list_sum (map weight
              (filter (fun l => match sourceIndex l with
                                | Some j => Nat.eqb j i
                                | None => false
                                end) ls)).

(** The total weight of the links of the graph. *)
Definition totalWeight (ls : list (@Link extra)) : nat :=
  list_sum (map weight ls).

(** Per source node, the weights add up to the rows through the node. *)
Definition source_weights_conserved (data : list DataType) : Prop :=
  forall i node dim v,
    nth_error (fst (graph passthrough data)) i = Some node ->
    In dim (removelast dimensions) ->
    name node = (dim ++ "_" ++ v)%string ->
    outWeight i (snd (graph passthrough data)) = rowsThrough dim v data.
End Conformance.

(** The parallel-coordinates plot builds the graph of all rows. *)
Definition parallelGraph (data : list DataType) : list Node * list (@Link unit) :=
  graph (fun _ => tt) data.

(** The Sankey plot first applies the risk filter of the select box. *)
Definition filteredData (filter : string) (data : list DataType) : list DataType :=
  if String.eqb filter "All" then data
  else List.filter (fun d => String.eqb (RiskRating d) filter) data.

Definition sankeyGraph (filter : string) (data : list DataType)
    : list Node * list (@Link string) :=
  graph RiskRating (filteredData filter data).

End Sankey.


(** ** Vocabulary for the row accessors *)

Module Loader.

(** The field is there and is not the empty string. *)
Definition present (d : Js.DSVRow) (name : string) : bool :=
  Js.truthy_str (Js.field d name).

(** The field is there and holds something besides white space. *)
Definition nonblank (d : Js.DSVRow) (name : string) : bool :=
  match Js.field d name with
  | Some s => negb (String.eqb (Js.trim s) "")
  | None => false
  end.

(** Unary plus turns the field into a number other than NaN. *)
Definition numeric (ToNumber : string -> number) (d : Js.DSVRow) (name : string) : bool :=
  negb (isNaN (Js.plus ToNumber (Js.field d name))).

(** A row in which one of the [required] fields is missing or empty, or
    one of the [numbers] fails to parse. *)
Definition malformed (ToNumber : string -> number) (required numbers : list string)
    (d : Js.DSVRow) : bool :=
  existsb (fun name => negb (present d name)) required ||
  existsb (fun name => negb (numeric ToNumber d name)) numbers.

(** The accessor drops every such row. *)
Definition drops {T : Type} (row : Js.DSVRow -> option T)
    (ToNumber : string -> number) (required numbers : list string) : Prop :=
  forall d, malformed ToNumber required numbers d = true -> row d = None.

End Loader.

(** ** Sample inputs *)

Module Examples.

Definition person {num : Type} (age : string) (income : num) (risk : string)
    : BarChartOverview.DataType num :=
  {| BarChartOverview.Age := age;
     BarChartOverview.Income := income;
     BarChartOverview.RiskRating := Some risk |}.

(** Three rows of one cell; the first income is [10^16], where the
    doubles are two apart. *)
Definition big_first : list (BarChartOverview.DataType float) :=
  [ person "18-27" 10000000000000000%float "Low";
    person "18-27" 1%float "Low";
    person "18-27" 1%float "Low" ].

(** The same rows in another order. *)
Definition big_last : list (BarChartOverview.DataType float) :=
  [ person "18-27" 1%float "Low";
    person "18-27" 1%float "Low";
    person "18-27" 10000000000000000%float "Low" ].

(** Rows of two cells. *)
Definition two_cells : list (BarChartOverview.DataType float) :=
  big_first ++ [ person "28-37" 1%float "Low"; person "28-37" 1%float "Low" ].

(** The scenario of the specification, in exact arithmetic. *)
Definition scenario : list (BarChartOverview.DataType number) :=
  [ person "28-37" (int 100) "Low";
    person "28-37" (int 300) "Low";
    person "38-47" (int 200) "High" ].

Definition scenario_shuffled : list (BarChartOverview.DataType number) :=
  [ person "38-47" (int 200) "High";
    person "28-37" (int 300) "Low";
    person "28-37" (int 100) "Low" ].

(** The same scenario in doubles, as the program has it. *)
Definition scenario_doubles : list (BarChartOverview.DataType float) :=
  [ person "28-37" 100%float "Low";
    person "28-37" 300%float "Low";
    person "38-47" 200%float "High" ].

Definition scenario_doubles_shuffled : list (BarChartOverview.DataType float) :=
  [ person "38-47" 200%float "High";
    person "28-37" 300%float "Low";
    person "28-37" 100%float "Low" ].

(** Two people of one cell; the income of the second is NaN. *)
Definition unparsed : list (BarChartOverview.DataType float) :=
  [ person "28-37" 100%float "Low";
    person "28-37" PrimFloat.nan "Low" ].

(** Two rows whose first link keys coincide although their node pairs
    differ: both keys read
    ["EducationLevel_x->PaymentHistory_y->PaymentHistory_z"]. *)
Definition colliding : list Sankey.DataType :=
  [ {| Sankey.EducationLevel := "x";
       Sankey.PaymentHistory := "y->PaymentHistory_z";
       Sankey.Income := "< 20K";
       Sankey.RiskRating := "Low" |};
    {| Sankey.EducationLevel := "x->PaymentHistory_y";
       Sankey.PaymentHistory := "z";
       Sankey.Income := "< 20K";
       Sankey.RiskRating := "Low" |} ].

(** Three ordinary rows. *)
Definition applicants : list Sankey.DataType :=
  [ {| Sankey.EducationLevel := "PhD";
       Sankey.PaymentHistory := "Good";
       Sankey.Income := "50K - 100K";
       Sankey.RiskRating := "Low" |};
    {| Sankey.EducationLevel := "PhD";
       Sankey.PaymentHistory := "Good";
       Sankey.Income := "20K - 50K";
       Sankey.RiskRating := "Medium" |};
    {| Sankey.EducationLevel := "Master's";
       Sankey.PaymentHistory := "Poor";
       Sankey.Income := "20K - 50K";
       Sankey.RiskRating := "Medium" |} ].

(** A row of the file whose age is not a number and whose other fields
    are empty. *)
Definition garbled : Js.DSVRow :=
  [ ("Age", "abc"); ("Income", ""); ("Risk Rating", "") ].

(** A row of the file with empty age and debt-to-income ratio. *)
Definition gaps : Js.DSVRow :=
  [ ("Age", ""); ("Income", "52000"); ("Credit Score", "710");
    ("Debt-to-Income Ratio", ""); ("Risk Rating", "Low") ].

(** A complete row of the file. *)
Definition complete : Js.DSVRow :=
  [ ("Age", "31"); ("Income", "52000"); ("Credit Score", "710");
    ("Debt-to-Income Ratio", "0.25"); ("Risk Rating", "Low");
    ("Education Level", "PhD"); ("Payment History", "Good") ].

(** A row of the file whose income is a no-break space (U+00A0) between
    two spaces. *)
Definition blank_income : Js.DSVRow :=
  [ ("Age", "31"); ("Income", (" " ++ Js.encode [194; 160]%nat ++ " ")%string);
    ("Credit Score", "710");
    ("Debt-to-Income Ratio", "0.25"); ("Risk Rating", "Low");
    ("Education Level", "PhD"); ("Payment History", "Good") ].

End Examples.

(** * Properties *)

(** ** Order on numbers *)

Lemma this_int (z : Z) : this (Q2Qc (inject_Z z)) = inject_Z z.
Proof.
  apply Qred_identity. simpl. apply Z.gcd_1_r.
Qed.

Lemma leb_int_Fin (z : Z) (q : Qc) : leb (int z) (Fin q) = Qle_bool (inject_Z z) q.
Proof. unfold leb, int. now rewrite this_int. Qed.

Lemma leb_Fin_int (q : Qc) (z : Z) : leb (Fin q) (int z) = Qle_bool q (inject_Z z).
Proof. unfold leb, int. now rewrite this_int. Qed.

Lemma ltb_Fin_int (q : Qc) (z : Z) : ltb (Fin q) (int z) = negb (Qle_bool (inject_Z z) q).
Proof. unfold ltb, int. now rewrite this_int. Qed.

Lemma Qle_bool_false (a b : Q) : Qle_bool a b = false -> (b < a)%Q.
Proof.
  intros E. apply Qnot_le_lt. intros L.
  apply Qle_bool_iff in L. congruence.
Qed.

(** Turns every comparison of a finite value with a literal into a
    hypothesis on rationals and closes the goal by linear arithmetic. *)
Ltac order_cases :=
  unfold geb; rewrite ?leb_int_Fin, ?leb_Fin_int, ?ltb_Fin_int;
  repeat match goal with
         | |- context [Qle_bool ?a ?b] =>
             let E := fresh "E" in
             destruct (Qle_bool a b) eqn:E;
             [apply Qle_bool_iff in E | apply Qle_bool_false in E]
         end;
  unfold inject_Z in *; simpl;
  try (split; intros; try discriminate; try reflexivity);
  try (exfalso; lra).

(** NaN and the infinities: everything computes. *)
Ltac special_case :=
  simpl; split; intro; first [discriminate | reflexivity].

Ltac by_table H :=
  simpl in H;
  repeat (destruct H as [<- | H]; [ | ]); try contradiction.

Lemma overview_age_closed :
  Bucketer.labels_exactly Bucketer.within
    BarChartOverview.ageTable BarChartOverview.categorizeAge.
Proof.
  intros i Hin v.
  unfold BarChartOverview.categorizeAge, BarChartOverview.ageTable, Bucketer.within in *.
  by_table Hin; cbn [Bucketer.min Bucketer.max Bucketer.label Bucketer.closed];
    (destruct v as [| | q |]; [special_case .. | | special_case ]);
    order_cases.
Qed.

Lemma overview2_age_closed :
  Bucketer.labels_exactly Bucketer.within
    BarChartOverview2.ageTable BarChartOverview2.categorizeAge.
Proof.
  intros i Hin v.
  unfold BarChartOverview2.categorizeAge, BarChartOverview2.ageTable, Bucketer.within in *.
  by_table Hin; cbn [Bucketer.min Bucketer.max Bucketer.label Bucketer.closed];
    (destruct v as [| | q |]; [special_case .. | | special_case ]);
    order_cases.
Qed.

Lemma hexbin_window_is_bucket (g : HexbinPlot.AgeGroup) (v : number) :
  In g HexbinPlot.ageGroups ->
  HexbinPlot.inAgeGroup g v = true <-> BarChartOverview.categorizeAge v = HexbinPlot.label g.
Proof.
  intros Hin.
  unfold BarChartOverview.categorizeAge, HexbinPlot.ageGroups, HexbinPlot.inAgeGroup in *.
  by_table Hin; cbn [HexbinPlot.min HexbinPlot.max HexbinPlot.label];
    (destruct v as [| | q |]; [special_case .. | | special_case ]);
    order_cases.
Qed.

Lemma income_half_open :
  Bucketer.labels_exactly Bucketer.contains
    Sankey.incomeTable Sankey.assignIncomeToRange.
Proof.
  intros i Hin v.
  unfold Sankey.assignIncomeToRange, Sankey.incomeTable, Bucketer.contains in *.
  by_table Hin;
    cbn [Bucketer.min Bucketer.max Bucketer.label Bucketer.upper_closed
         Bucketer.half_open Bucketer.below];
    (destruct v as [| | q |]; [special_case .. | | special_case ]);
    order_cases.
Qed.

(** The table-driven bucketer returns the label of the first interval
    that contains the value, and the fallback when there is none. *)
Lemma bucket_first (table : list Bucketer.Interval) (fallback : string) (v : number) :
  (exists before i after,
      table = before ++ i :: after /\
      Bucketer.contains i v = true /\
      (forall j, In j before -> Bucketer.contains j v = false) /\
      Bucketer.bucket table fallback v = Bucketer.label i)
  \/ ((forall j, In j table -> Bucketer.contains j v = false) /\
      Bucketer.bucket table fallback v = fallback).
Proof.
  unfold Bucketer.bucket.
  induction table as [| i rest IH]; simpl.
  - right. split; [intros j [] | reflexivity].
  - destruct (Bucketer.contains i v) eqn:E.
    + left. exists [], i, rest. repeat split; auto. intros j [].
    + destruct IH as [(before & i' & after & -> & Hc & Hb & Hl) | [Hn Hl]].
      * left. exists (i :: before), i', after. repeat split; auto.
        intros j [<- | Hj]; auto.
      * right. split; auto. intros j [<- | Hj]; auto.
Qed.

Lemma overview_age_bucket (v : number) :
  BarChartOverview.categorizeAge v =
  Bucketer.bucket BarChartOverview.ageTable "Unknown" v.
Proof.
  unfold BarChartOverview.categorizeAge, Bucketer.bucket, BarChartOverview.ageTable.
  cbv [find Bucketer.contains Bucketer.min Bucketer.max Bucketer.label
       Bucketer.upper_closed Bucketer.closed].
  repeat match goal with
         | |- context [if ?c then Some _ else _] => destruct c; try reflexivity
         end.
Qed.

Lemma overview2_age_bucket (v : number) :
  BarChartOverview2.categorizeAge v =
  Bucketer.bucket BarChartOverview2.ageTable "Unknown" v.
Proof.
  unfold BarChartOverview2.categorizeAge, Bucketer.bucket, BarChartOverview2.ageTable.
  cbv [find Bucketer.contains Bucketer.min Bucketer.max Bucketer.label
       Bucketer.upper_closed Bucketer.closed].
  repeat match goal with
         | |- context [if ?c then Some _ else _] => destruct c; try reflexivity
         end.
Qed.

Lemma ltb_not_NaN (a b : number) : ltb a b = true -> geb a NegInf = true.
Proof. destruct a, b; simpl; intros; congruence. Qed.

Lemma income_bucket (v : number) :
  Sankey.assignIncomeToRange v =
  Bucketer.bucket Sankey.incomeTable "> 200K" v.
Proof.
  unfold Sankey.assignIncomeToRange, Bucketer.bucket, Sankey.incomeTable.
  cbv [find Bucketer.contains Bucketer.min Bucketer.max Bucketer.label
       Bucketer.upper_closed Bucketer.half_open Bucketer.below].
  destruct (ltb v (int 20000)) eqn:E.
  - now rewrite (ltb_not_NaN _ _ E).
  - rewrite andb_false_r.
    repeat match goal with
           | |- context [if ?c then Some _ else _] => destruct c; try reflexivity
           end.
Qed.

(** ** Bucket boundaries *)

(** C1, as stated, fails on the income table: with both ends closed the
    value 20000 would belong to ["< 20K"] and 50000 to ["20K - 50K"],
    but the code puts an upper bound into the next range. *)
Lemma income_upper_bound_not_closed :
  ~ Bucketer.labels_exactly Bucketer.within
      Sankey.incomeTable Sankey.assignIncomeToRange.
Proof.
  intros H.
  assert (Hin : In (Bucketer.half_open 20000 50000 "20K - 50K") Sankey.incomeTable)
    by (simpl; auto).
  destruct (H _ Hin (int 50000)) as [_ Hback].
  specialize (Hback eq_refl).
  vm_compute in Hback. discriminate Hback.
Qed.

(** C1 (amended): every age interval is closed on both ends, in both
    bar charts and in the window filter of the hexbin plot, so 27 is in
    ["18-27"] and 28 in ["28-37"] for the 18-27 table (both are in
    ["26-35"] for the 18-25 table); every income range contains its lower
    bound and excludes its upper bound, which belongs to the next range. *)
Theorem bucket_boundaries :
  Bucketer.labels_exactly Bucketer.within
    BarChartOverview.ageTable BarChartOverview.categorizeAge /\
  Bucketer.labels_exactly Bucketer.within
    BarChartOverview2.ageTable BarChartOverview2.categorizeAge /\
  (forall g v, In g HexbinPlot.ageGroups ->
     (HexbinPlot.inAgeGroup g v = true <->
      BarChartOverview.categorizeAge v = HexbinPlot.label g)) /\
  Bucketer.labels_exactly Bucketer.contains
    Sankey.incomeTable Sankey.assignIncomeToRange /\
  (BarChartOverview.categorizeAge (int 27) = "18-27" /\
   BarChartOverview.categorizeAge (int 28) = "28-37") /\
  (BarChartOverview2.categorizeAge (int 27) = "26-35" /\
   BarChartOverview2.categorizeAge (int 28) = "26-35") /\
  (Sankey.assignIncomeToRange (int 20000) = "20K - 50K" /\
   Sankey.assignIncomeToRange (int 50000) = "50K - 100K" /\
   Sankey.assignIncomeToRange (int 100000) = "100K - 200K" /\
   Sankey.assignIncomeToRange (int 200000) = "> 200K").
Proof.
  split; [exact overview_age_closed |].
  split; [exact overview2_age_closed |].
  split; [intros g v Hin; now apply hexbin_window_is_bucket |].
  split; [exact income_half_open |].
  repeat split; reflexivity.
Qed.

(** C6: each bucketer returns the label of the first interval of its
    table that contains the value, and its fallback label when no
    interval does: ["Unknown"] for ages, the last range ["> 200K"] for
    incomes. *)
Theorem bucket_first_match_or_fallback :
  (forall v, BarChartOverview.categorizeAge v =
             Bucketer.bucket BarChartOverview.ageTable "Unknown" v) /\
  (forall v, BarChartOverview2.categorizeAge v =
             Bucketer.bucket BarChartOverview2.ageTable "Unknown" v) /\
  (forall v, Sankey.assignIncomeToRange v =
             Bucketer.bucket Sankey.incomeTable (last Sankey.incomeRanges "") v) /\
  last Sankey.incomeRanges "" = "> 200K" /\
  (forall table fallback v,
     (exists before i after,
         table = before ++ i :: after /\
         Bucketer.contains i v = true /\
         (forall j, In j before -> Bucketer.contains j v = false) /\
         Bucketer.bucket table fallback v = Bucketer.label i)
     \/ ((forall j, In j table -> Bucketer.contains j v = false) /\
         Bucketer.bucket table fallback v = fallback)) /\
  (forall v, (forall i, In i BarChartOverview.ageTable -> Bucketer.contains i v = false) ->
             BarChartOverview.categorizeAge v = "Unknown") /\
  (forall v, (forall i, In i BarChartOverview2.ageTable -> Bucketer.contains i v = false) ->
             BarChartOverview2.categorizeAge v = "Unknown") /\
  (forall v, (forall i, In i Sankey.incomeTable -> Bucketer.contains i v = false) ->
             Sankey.assignIncomeToRange v = "> 200K").
Proof.
  assert (fallback_of : forall table fallback v,
             (forall i, In i table -> Bucketer.contains i v = false) ->
             Bucketer.bucket table fallback v = fallback).
  { intros table fallback v Hn.
    destruct (bucket_first table fallback v)
      as [(before & i & after & -> & Hc & _ & _) | [_ Hf]]; [| exact Hf].
    rewrite Hn in Hc; [discriminate | apply in_elt]. }
  split; [exact overview_age_bucket |].
  split; [exact overview2_age_bucket |].
  split; [exact income_bucket |].
  split; [reflexivity |].
  split; [exact bucket_first |].
  split; [| split].
  - intros v Hn. rewrite overview_age_bucket. now apply fallback_of.
  - intros v Hn. rewrite overview2_age_bucket. now apply fallback_of.
  - intros v Hn. rewrite income_bucket. now apply fallback_of.
Qed.

(** ** Maps and grouping *)

Section MapFacts.
Context {K V : Type} (K_dec : forall x y : K, {x = y} + {x <> y}).

Lemma get_In (k : K) (v : V) (m : list (K * V)) :
  D3.get K_dec k m = Some v -> In (k, v) m.
Proof.
  induction m as [| [k' v'] rest IH]; simpl; [discriminate |].
  destruct (K_dec k k') as [-> | _].
  - intros [= ->]. now left.
  - intros Hg. right. now apply IH.
Qed.

Lemma get_None (k : K) (m : list (K * V)) :
  D3.get K_dec k m = None <-> ~ In k (map fst m).
Proof.
  induction m as [| [k' v'] rest IH]; simpl.
  - tauto.
  - destruct (K_dec k k') as [-> | Hne].
    + split; [discriminate | intros Hn; exfalso; apply Hn; now left].
    + rewrite IH. split; [intros Hn [He | Hin]; congruence || auto | tauto].
Qed.

Lemma In_get (k : K) (v : V) (m : list (K * V)) :
  NoDup (map fst m) -> In (k, v) m -> D3.get K_dec k m = Some v.
Proof.
  induction m as [| [k' v'] rest IH]; simpl; [tauto |].
  intros Hnd [He | Hin].
  - injection He as -> ->. destruct (K_dec k k); congruence.
  - inversion Hnd as [| ? ? Hnotin Hnd']; subst.
    destruct (K_dec k k') as [-> | _]; [| now apply IH].
    exfalso. apply Hnotin. change k' with (fst (k', v)). now apply in_map.
Qed.

Lemma get_map {W : Type} (f : V -> W) (k : K) (m : list (K * V)) :
  D3.get K_dec k (map (fun e => (fst e, f (snd e))) m) = option_map f (D3.get K_dec k m).
Proof.
  induction m as [| [k' v'] rest IH]; simpl; [reflexivity |].
  destruct (K_dec k k'); [reflexivity | exact IH].
Qed.

Lemma keys_map {W : Type} (f : V -> W) (m : list (K * V)) :
  map fst (map (fun e => (fst e, f (snd e))) m) = map fst m.
Proof. rewrite map_map. reflexivity. Qed.
End MapFacts.

Section GroupFacts.
Context {A K : Type} (K_dec : forall x y : K, {x = y} + {x <> y}).
Variable keyof : A -> K.

Local Abbreviation step := (D3.step K_dec keyof).

Lemma step_push (g : list (K * list A)) (v : A) :
  step g v = D3.push K_dec (keyof v) v g.
Proof. reflexivity. Qed.

Lemma push_keys (k : K) (v : A) (g : list (K * list A)) (k' : K) :
  In k' (map fst (D3.push K_dec k v g)) <-> k' = k \/ In k' (map fst g).
Proof.
  induction g as [| [k0 vs] rest IH]; simpl.
  - intuition congruence.
  - destruct (K_dec k k0) as [-> | Hne]; simpl.
    + intuition congruence.
    + rewrite IH. intuition congruence.
Qed.

Lemma push_NoDup (k : K) (v : A) (g : list (K * list A)) :
  NoDup (map fst g) -> NoDup (map fst (D3.push K_dec k v g)).
Proof.
  induction g as [| [k0 vs] rest IH]; simpl; intros Hnd.
  - constructor; [intros [] | constructor].
  - inversion Hnd as [| ? ? Hnotin Hnd']; subst.
    destruct (K_dec k k0) as [-> | Hne]; simpl.
    + now constructor.
    + constructor; [| now apply IH].
      rewrite push_keys. intros [-> | Hin]; congruence || auto.
Qed.

Lemma push_get_same (k : K) (v : A) (g : list (K * list A)) :
  D3.get K_dec k (D3.push K_dec k v g) =
  Some (match D3.get K_dec k g with Some l => l ++ [v] | None => [v] end).
Proof.
  induction g as [| [k0 vs] rest IH]; simpl.
  - destruct (K_dec k k); congruence.
  - destruct (K_dec k k0) as [-> | Hne]; simpl.
    + destruct (K_dec k0 k0); congruence.
    + destruct (K_dec k k0); [congruence | exact IH].
Qed.

Lemma push_get_other (k k' : K) (v : A) (g : list (K * list A)) :
  k <> k' -> D3.get K_dec k' (D3.push K_dec k v g) = D3.get K_dec k' g.
Proof.
  intros Hne.
  induction g as [| [k0 vs] rest IH]; simpl.
  - destruct (K_dec k' k); congruence.
  - destruct (K_dec k k0) as [-> | Hne0]; simpl.
    + destruct (K_dec k' k0); congruence.
    + destruct (K_dec k' k0); [reflexivity | exact IH].
Qed.

Lemma push_nonempty (k : K) (v : A) (g : list (K * list A)) :
  Forall (fun e => snd e <> []) g ->
  Forall (fun e => snd e <> []) (D3.push K_dec k v g).
Proof.
  induction g as [| [k0 vs] rest IH]; simpl; intros Hf.
  - constructor; [discriminate | constructor].
  - inversion Hf as [| ? ? H0 Hrest]; subst.
    destruct (K_dec k k0); constructor; auto.
    simpl. intros E. now apply app_eq_nil in E as [_ E].
Qed.

Lemma push_concat (k : K) (v : A) (g : list (K * list A)) :
  Permutation (List.concat (map snd (D3.push K_dec k v g))) (v :: List.concat (map snd g)).
Proof.
  induction g as [| [k0 vs] rest IH]; simpl.
  - reflexivity.
  - destruct (K_dec k k0); simpl.
    + rewrite <- app_assoc. simpl.
      symmetry. apply Permutation_middle.
    + rewrite IH. symmetry. apply Permutation_middle.
Qed.

Lemma fold_keys (values : list A) (g : list (K * list A)) (k : K) :
  In k (map fst (fold_left step values g)) <->
  In k (map fst g) \/ exists v, In v values /\ keyof v = k.
Proof.
  revert g. induction values as [| v vs IH]; intros g; simpl.
  - split; [auto | intros [H | (v & [] & _)]; exact H].
  - rewrite IH, step_push, push_keys. split.
    + intros [[-> | Hin] | (w & Hw & Hk)]; eauto.
    + intros [Hin | (w & [<- | Hw] & Hk)]; eauto.
Qed.

Lemma fold_NoDup (values : list A) (g : list (K * list A)) :
  NoDup (map fst g) -> NoDup (map fst (fold_left step values g)).
Proof.
  revert g. induction values as [| v vs IH]; intros g Hnd; simpl; [exact Hnd |].
  apply IH. rewrite step_push. now apply push_NoDup.
Qed.

Lemma fold_nonempty (values : list A) (g : list (K * list A)) :
  Forall (fun e => snd e <> []) g ->
  Forall (fun e => snd e <> []) (fold_left step values g).
Proof.
  revert g. induction values as [| v vs IH]; intros g Hf; simpl; [exact Hf |].
  apply IH. rewrite step_push. now apply push_nonempty.
Qed.

Lemma fold_concat (values : list A) (g : list (K * list A)) :
  Permutation (List.concat (map snd (fold_left step values g)))
              (List.concat (map snd g) ++ values).
Proof.
  revert g. induction values as [| v vs IH]; intros g; simpl.
  - now rewrite app_nil_r.
  - rewrite IH, step_push, push_concat.
    simpl. apply Permutation_middle.
Qed.

Lemma fold_get (values : list A) (g : list (K * list A)) (k : K) :
  D3.get K_dec k (fold_left step values g) =
  match D3.get K_dec k g, D3.members K_dec keyof k values with
  | Some l, m => Some (l ++ m)
  | None, [] => None
  | None, m => Some m
  end.
Proof.
  revert g. induction values as [| v vs IH]; intros g; simpl.
  - destruct (D3.get K_dec k g); [now rewrite app_nil_r | reflexivity].
  - rewrite IH, step_push.
    destruct (K_dec (keyof v) k) as [<- | Hne].
    + rewrite push_get_same.
      destruct (D3.get K_dec (keyof v) g); [now rewrite <- app_assoc | reflexivity].
    + rewrite (push_get_other _ _ _ _ Hne). reflexivity.
Qed.

(** The group of a key holds the values with that key, in input order;
    a key without values has no group. *)
Lemma group_get (values : list A) (k : K) :
  D3.get K_dec k (D3.group K_dec keyof values) =
  match D3.members K_dec keyof k values with
  | [] => None
  | m => Some m
  end.
Proof. unfold D3.group. apply (fold_get values [] k). Qed.

Lemma group_NoDup (values : list A) :
  NoDup (map fst (D3.group K_dec keyof values)).
Proof. apply (fold_NoDup values []). constructor. Qed.

Lemma group_nonempty (values : list A) :
  Forall (fun e => snd e <> []) (D3.group K_dec keyof values).
Proof. apply (fold_nonempty values []). constructor. Qed.

Lemma group_concat (values : list A) :
  Permutation (List.concat (map snd (D3.group K_dec keyof values))) values.
Proof. apply (fold_concat values []). Qed.

Lemma group_keys (values : list A) (k : K) :
  In k (map fst (D3.group K_dec keyof values)) <-> exists v, In v values /\ keyof v = k.
Proof.
  unfold D3.group. rewrite (fold_keys values [] k). simpl. tauto.
Qed.

Lemma members_perm (k : K) (l l' : list A) :
  Permutation l l' ->
  Permutation (D3.members K_dec keyof k l) (D3.members K_dec keyof k l').
Proof.
  unfold D3.members.
  induction 1 as [| x l l' _ IH | x y l | l l' l'' _ IH1 _ IH2]; simpl.
  - constructor.
  - destruct (K_dec (keyof x) k); [now constructor | exact IH].
  - destruct (K_dec (keyof x) k), (K_dec (keyof y) k);
      try reflexivity. apply perm_swap.
  - now transitivity (filter (fun v => if K_dec (keyof v) k then true else false) l').
Qed.
End GroupFacts.

(** ** The two-level aggregate *)

Section AggregateFacts.
Context {num : Type} `{JsArith num} {A K1 K2 : Type}.
Context (K1_dec : forall x y : K1, {x = y} + {x <> y}).
Context (K2_dec : forall x y : K2, {x = y} + {x <> y}).
Variable valueof : A -> num.
Variable key1 : A -> K1.
Variable key2 : A -> K2.

Local Abbreviation aggregate := (Aggregator.aggregate K1_dec K2_dec).
Local Abbreviation cell := (Aggregator.cell K1_dec K2_dec).
Local Abbreviation sumCount := (Aggregator.sumCount valueof).

(** The leaf groups of the rollup, in iteration order. *)
Local Abbreviation leaves rows :=
  (flat_map (fun e : K1 * list A => map snd (D3.group K2_dec key2 (snd e)))
            (D3.group K1_dec key1 rows)).

Lemma rollup_unfold (rows : list A) :
  aggregate rows valueof key1 key2 =
  map (fun e => (fst e,
                 map (fun e2 => (fst e2, sumCount (snd e2)))
                     (D3.group K2_dec key2 (snd e))))
      (D3.group K1_dec key1 rows).
Proof.
  unfold Aggregator.aggregate, D3.rollup.
  apply map_ext. intros [k1 vs]. simpl. f_equal.
  apply map_ext. now intros [k2 ws].
Qed.

(** The cell of a pair of keys reduces the rows that have both keys;
    there is no cell when no row has them. *)
Lemma cell_rows (rows : list A) (k1 : K1) (k2 : K2) :
  cell (aggregate rows valueof key1 key2) k1 k2 =
  match D3.members K2_dec key2 k2 (D3.members K1_dec key1 k1 rows) with
  | [] => None
  | m => Some (sumCount m)
  end.
Proof.
  unfold Aggregator.cell. rewrite rollup_unfold.
  rewrite (get_map K1_dec
             (fun vs => map (fun e2 => (fst e2, sumCount (snd e2)))
                            (D3.group K2_dec key2 vs))), group_get.
  destruct (D3.members K1_dec key1 k1 rows) as [| r m1] eqn:E1.
  - reflexivity.
  - cbn [option_map]. rewrite (get_map K2_dec sumCount), group_get.
    now destruct (D3.members K2_dec key2 k2 (r :: m1)).
Qed.

Lemma cells_leaves (rows : list A) :
  Aggregator.cells (aggregate rows valueof key1 key2) = map sumCount (leaves rows).
Proof.
  unfold Aggregator.cells. rewrite rollup_unfold.
  induction (D3.group K1_dec key1 rows) as [| [k1 vs] rest IH]; simpl; [reflexivity |].
  rewrite IH, map_app, !map_map. reflexivity.
Qed.

Lemma leaves_concat (rows : list A) :
  Permutation (List.concat (leaves rows)) rows.
Proof.
  transitivity (List.concat (map snd (D3.group K1_dec key1 rows)));
    [| apply group_concat].
  induction (D3.group K1_dec key1 rows) as [| [k1 vs] rest IH]; simpl; [reflexivity |].
  rewrite concat_app, IH. apply Permutation_app_tail, group_concat.
Qed.

Lemma leaves_nonempty (rows : list A) :
  Forall (fun ws => ws <> []) (leaves rows).
Proof.
  induction (D3.group K1_dec key1 rows) as [| [k1 vs] rest IH]; simpl; [constructor |].
  apply Forall_app. split; [| exact IH].
  apply Forall_map. exact (group_nonempty K2_dec key2 vs).
Qed.

Lemma fold_add_lengths (L : list (list A)) (n : nat) :
  fold_left Nat.add (map (fun ws : list A => List.length ws) L) n =
  (n + List.length (List.concat L))%nat.
Proof.
  revert n. induction L as [| ws L IH]; intros n; simpl; [lia |].
  rewrite IH, length_app. lia.
Qed.

Lemma total_count (rows : list A) :
  Aggregator.totalCount (aggregate rows valueof key1 key2) = List.length rows.
Proof.
  unfold Aggregator.totalCount. rewrite cells_leaves, map_map. simpl.
  rewrite (fold_add_lengths (leaves rows) 0). simpl.
  apply Permutation_length, leaves_concat.
Qed.

(** *** Sums in exact arithmetic *)

Hypothesis exact : Aggregator.AddIsExact num.

Lemma add_zero_r (a : num) : num_add a num_zero = a.
Proof. destruct exact as (_ & comm & zero_l). now rewrite comm. Qed.

Lemma sum_from (l : list A) (s : num) :
  fold_left (fun sum v =>
               let value := valueof v in
               if num_truthy value then num_add sum value else sum) l s =
  num_add s (D3.sum l valueof).
Proof.
  destruct exact as (assoc & comm & zero_l).
  unfold D3.sum. revert s. induction l as [| v l IH]; intros s; simpl.
  - now rewrite add_zero_r.
  - destruct (num_truthy (valueof v)).
    + rewrite IH, (IH (num_add num_zero (valueof v))), zero_l. apply eq_sym, assoc.
    + apply IH.
Qed.

Lemma sum_app (l1 l2 : list A) :
  D3.sum (l1 ++ l2) valueof = num_add (D3.sum l1 valueof) (D3.sum l2 valueof).
Proof.
  unfold D3.sum at 1. rewrite fold_left_app. apply sum_from.
Qed.

Lemma sum_perm (l l' : list A) :
  Permutation l l' -> D3.sum l valueof = D3.sum l' valueof.
Proof.
  destruct exact as (assoc & comm & zero_l).
  induction 1 as [| x l l' _ IH | x y l | l l' l'' _ IH1 _ IH2].
  - reflexivity.
  - change (x :: l) with ([x] ++ l). change (x :: l') with ([x] ++ l').
    now rewrite !sum_app, IH.
  - change (y :: x :: l) with ([y] ++ [x] ++ l).
    change (x :: y :: l) with ([x] ++ [y] ++ l).
    rewrite !sum_app, !assoc. f_equal. apply comm.
  - congruence.
Qed.

Lemma sum_concat (L : list (list A)) (s : num) :
  fold_left num_add (map (fun ws => D3.sum ws valueof) L) s =
  num_add s (D3.sum (List.concat L) valueof).
Proof.
  destruct exact as (assoc & comm & zero_l).
  revert s. induction L as [| ws L IH]; intros s; simpl.
  - symmetry. apply add_zero_r.
  - rewrite IH, sum_app. apply eq_sym, assoc.
Qed.

Lemma total_sum (rows : list A) :
  Aggregator.totalSum (aggregate rows valueof key1 key2) = D3.sum rows valueof.
Proof.
  destruct exact as (assoc & comm & zero_l).
  unfold Aggregator.totalSum. rewrite cells_leaves, map_map. simpl.
  rewrite (sum_concat (leaves rows) num_zero), zero_l.
  apply sum_perm, leaves_concat.
Qed.
End AggregateFacts.

(** ** Exact and rounding addition *)

Lemma exact_add_is_exact : Aggregator.AddIsExact number.
Proof.
  repeat split.
  - intros [| | p |] [| | q |] [| | r |]; simpl; try reflexivity.
    f_equal. apply Qcplus_assoc.
  - intros [| | p |] [| | q |]; simpl; try reflexivity.
    f_equal. apply Qcplus_comm.
  - intros [| | p |]; simpl; try reflexivity.
    f_equal. apply Qcplus_0_l.
Qed.

Lemma float_neq (x y : float) : PrimFloat.eqb x y = false -> x <> y \/ float_isNaN x = true.
Proof.
  intros E. destruct (float_isNaN x) eqn:N; [now right | left].
  intros ->. unfold float_isNaN in N. rewrite E in N. discriminate.
Qed.

Lemma float_differ (x y : float) :
  PrimFloat.eqb x y = false -> float_isNaN x = false -> x <> y.
Proof.
  intros E N. destruct (float_neq x y E) as [Hne | Hn]; [exact Hne | congruence].
Qed.

(** ** Doubles whose additions do not round *)

Lemma same_eq (a b : number) : same a b = true -> a = b.
Proof.
  destruct a as [| | p |], b as [| | q |]; simpl; try discriminate; try reflexivity.
  intros E. f_equal. apply Qc_is_canon. now apply Qeq_bool_eq.
Qed.

Lemma adds_exactly_spec (x y : float) :
  adds_exactly x y = true ->
  denotes (PrimFloat.add x y) = add (denotes x) (denotes y).
Proof. apply same_eq. Qed.

Lemma Qc_is_zero_false (q : Q) : ~ q == 0 -> Qc_is_zero (Q2Qc q) = false.
Proof.
  intros Hq. unfold Qc_is_zero.
  destruct (Qeq_bool (Q2Qc q) 0) eqn:E; [| reflexivity].
  apply Qeq_bool_eq in E. simpl in E. rewrite Qred_correct in E. contradiction.
Qed.

Lemma scaled_nonzero (z e : Z) : z <> 0%Z -> ~ inject_Z z * (2 # 1) ^ e == 0.
Proof.
  intros Hz E. apply Qmult_integral in E as [E | E].
  - apply Hz. unfold Qeq in E. simpl in E. lia.
  - apply (Qpower_not_0 (2 # 1) e); [discriminate | exact E].
Qed.

(** A double is falsy exactly when the number it denotes is. *)
Lemma truthy_denotes (x : float) : num_truthy x = truthy (denotes x).
Proof.
  cbn [num_truthy ieee_arith]. unfold float_isNaN, denotes. rewrite !eqb_spec.
  change (Prim2SF 0) with (S754_zero false).
  destruct (Prim2SF x) as [s | s | | s m e]; try reflexivity.
  - destruct s; reflexivity.
  - unfold SFeqb, SFcompare.
    rewrite Z.compare_refl, Pos.compare_cont_refl.
    cbn [truthy]. rewrite Qc_is_zero_false by (apply scaled_nonzero; now destruct s).
    now destruct s.
Qed.

Lemma isNaN_denotes (x : float) : num_isNaN x = isNaN (denotes x).
Proof.
  cbn [num_isNaN ieee_arith]. unfold float_isNaN, denotes. rewrite eqb_spec.
  destruct (Prim2SF x) as [s | s | | s m e]; try reflexivity.
  - now destruct s.
  - unfold SFeqb, SFcompare.
    rewrite Z.compare_refl, Pos.compare_cont_refl. now destruct s.
Qed.

(** *** Two doubles that denote the same number *)

Lemma digits_size (m : positive) : digits2_pos m = Pos.size m.
Proof. induction m; simpl; congruence. Qed.

Lemma size_bounds (m : positive) :
  (2 ^ (Z.pos (Pos.size m) - 1) <= Z.pos m < 2 ^ Z.pos (Pos.size m))%Z.
Proof.
  split.
  - pose proof (Pos.size_le m) as Hle.
    apply Pos2Z.pos_le_pos in Hle. rewrite Pos2Z.inj_pow in Hle.
    replace (Z.pos (Pos.size m)) with (Z.succ (Z.pos (Pos.size m) - 1)) in Hle by lia.
    rewrite Z.pow_succ_r in Hle by lia. lia.
  - pose proof (Pos.size_gt m) as Hgt.
    apply Pos2Z.pos_lt_pos in Hgt. now rewrite Pos2Z.inj_pow in Hgt.
Qed.

(** The mantissa of a double has at most 53 bits, and exactly 53 unless
    the exponent is the least one. *)
Lemma bounded_spec (m : positive) (e : Z) :
  bounded prec emax m e = true ->
  (Z.pos (Pos.size m) <= 53 /\ -1074 <= e /\
   (-1074 < e -> Z.pos (Pos.size m) = 53))%Z.
Proof.
  unfold bounded, canonical_mantissa, fexp, SpecFloat.emin, prec, emax.
  rewrite digits_size, andb_true_iff, Z.eqb_eq.
  change IntDef.Z.max with Z.max. change IntDef.Z.sub with Z.sub.
  change IntDef.Z.add with Z.add. lia.
Qed.

Lemma scaled_le (m1 m2 : positive) (e1 e2 : Z) :
  bounded prec emax m1 e1 = true -> bounded prec emax m2 e2 = true ->
  (e1 <= e2)%Z ->
  (inject_Z (Z.pos m1) * (2 # 1) ^ e1 == inject_Z (Z.pos m2) * (2 # 1) ^ e2)%Q ->
  m1 = m2 /\ e1 = e2.
Proof.
  intros H1 H2 Hle E.
  apply bounded_spec in H1 as (Hd1 & Hmin1 & _).
  apply bounded_spec in H2 as (Hd2 & _ & Hnormal).
  assert (Hk : exists k, (0 <= k)%Z /\ e2 = (e1 + k)%Z) by (exists (e2 - e1)%Z; lia).
  destruct Hk as (k & Hk & ->).
  rewrite Qpower_plus in E by discriminate.
  rewrite (Qmult_comm ((2 # 1) ^ e1)), Qmult_assoc in E.
  apply Qmult_inj_r in E; [| apply Qpower_not_0; discriminate].
  change (2 # 1) with (inject_Z 2) in E.
  rewrite <- Zpower_Qpower, <- inject_Z_mult in E by exact Hk.
  apply (proj1 (inject_Z_injective _ _)) in E.
  destruct (Z.eq_dec k 0) as [-> | Hpos].
  - split; [| lia]. rewrite Z.pow_0_r, Z.mul_1_r in E. now injection E.
  - exfalso.
    assert (Hd : Z.pos (Pos.size m2) = 53%Z) by (apply Hnormal; lia).
    pose proof (size_bounds m1) as [_ Hup].
    pose proof (size_bounds m2) as [Hlow _].
    rewrite Hd in Hlow. simpl in Hlow.
    assert (Hpow : (2 ^ Z.pos (Pos.size m1) <= 2 ^ 53)%Z)
      by (apply Z.pow_le_mono_r; lia).
    assert (Hk2 : (2 ^ 1 <= 2 ^ k)%Z) by (apply Z.pow_le_mono_r; lia).
    simpl in Hpow, Hk2. nia.
Qed.

(** A finite double other than zero has one mantissa and exponent. *)
Lemma scaled_unique (m1 m2 : positive) (e1 e2 : Z) :
  bounded prec emax m1 e1 = true -> bounded prec emax m2 e2 = true ->
  (inject_Z (Z.pos m1) * (2 # 1) ^ e1 == inject_Z (Z.pos m2) * (2 # 1) ^ e2)%Q ->
  m1 = m2 /\ e1 = e2.
Proof.
  intros H1 H2 E. destruct (Z.le_ge_cases e1 e2) as [Hle | Hge].
  - now apply scaled_le.
  - symmetry in E. destruct (scaled_le m2 m1 e2 e1 H2 H1 Hge E). now split.
Qed.

Lemma Q2Qc_inj (p q : Q) : Q2Qc p = Q2Qc q -> p == q.
Proof.
  intros E. apply (f_equal this) in E. simpl in E.
  rewrite <- (Qred_correct p), <- (Qred_correct q). now rewrite E.
Qed.

Lemma Fin_inj (p q : Q) : Fin (Q2Qc p) = Fin (Q2Qc q) -> p == q.
Proof.
  intros E. apply Q2Qc_inj.
  exact (f_equal (fun a => match a with Fin c => c | _ => Q2Qc p end) E).
Qed.

Lemma scaled_sign (m : positive) (e : Z) :
  (0 < inject_Z (Z.pos m) * (2 # 1) ^ e)%Q /\
  (inject_Z (Z.neg m) * (2 # 1) ^ e < 0)%Q.
Proof.
  assert (Hp : (0 < (2 # 1) ^ e)%Q) by now apply Qpower_0_lt.
  split.
  - apply Qmult_lt_0_compat; [reflexivity | exact Hp].
  - setoid_replace (inject_Z (Z.neg m)) with (- inject_Z (Z.pos m))%Q by reflexivity.
    assert (0 < inject_Z (Z.pos m) * (2 # 1) ^ e)%Q
      by (apply Qmult_lt_0_compat; [reflexivity | exact Hp]).
    lra.
Qed.

(** Two doubles that denote the same number, other than NaN, are equal
    for the comparison [===] of the language. *)
Lemma denotes_eqb (x y : float) :
  denotes x = denotes y -> num_isNaN y = false -> PrimFloat.eqb x y = true.
Proof.
  rewrite isNaN_denotes. unfold denotes. rewrite eqb_spec.
  pose proof (Prim2SF_valid x) as Vx. pose proof (Prim2SF_valid y) as Vy.
  destruct (Prim2SF x) as [s1 | s1 | | s1 m1 e1], (Prim2SF y) as [s2 | s2 | | s2 m2 e2];
    intros E Hn; try reflexivity; try (now destruct s1); try (now destruct s2);
    try discriminate Hn;
    try (now destruct s1, s2).
  - exfalso. apply Fin_inj in E.
    symmetry in E. revert E. apply scaled_nonzero. now destruct s2.
  - exfalso. apply Fin_inj in E.
    revert E. apply scaled_nonzero. now destruct s1.
  - apply Fin_inj in E. simpl in Vx, Vy.
    pose proof (scaled_sign m1 e1) as [P1 N1]. pose proof (scaled_sign m2 e2) as [P2 N2].
    destruct s1, s2; try (exfalso; lra).
    + assert (E' : (inject_Z (Z.pos m1) * (2 # 1) ^ e1 ==
                    inject_Z (Z.pos m2) * (2 # 1) ^ e2)%Q).
      { setoid_replace (inject_Z (Z.neg m1)) with (- inject_Z (Z.pos m1))%Q in E by reflexivity.
        setoid_replace (inject_Z (Z.neg m2)) with (- inject_Z (Z.pos m2))%Q in E by reflexivity.
        lra. }
      destruct (scaled_unique m1 m2 e1 e2 Vx Vy E') as [-> ->].
      unfold SFeqb, SFcompare. now rewrite Z.compare_refl, Pos.compare_cont_refl.
    + destruct (scaled_unique m1 m2 e1 e2 Vx Vy E) as [-> ->].
      unfold SFeqb, SFcompare. now rewrite Z.compare_refl, Pos.compare_cont_refl.
Qed.

Section Unrounded.
Context {A : Type}.
Variable valueof : A -> float.

Local Abbreviation exactly := (fun v : A => denotes (valueof v)).

Lemma sum_unrounded_from (values : list A) (total : float) :
  Aggregator.sum_unrounded valueof values total = true ->
  denotes (fold_left (fun sum v =>
                        if num_truthy (valueof v)
                        then num_add sum (valueof v) else sum)
                     values total) =
  fold_left (fun sum v =>
               if num_truthy (exactly v) then num_add sum (exactly v) else sum)
            values (denotes total).
Proof.
  revert total. induction values as [| v values IH]; intros total Hex; [reflexivity |].
  cbn [Aggregator.sum_unrounded] in Hex. cbv zeta in Hex.
  cbn [fold_left]. cbn beta.
  change (num_truthy (denotes (valueof v))) with (truthy (denotes (valueof v))).
  rewrite <- truthy_denotes.
  destruct (num_truthy (valueof v)).
  - apply andb_true_iff in Hex as [Hadd Hrest].
    rewrite (IH _ Hrest). f_equal. now apply adds_exactly_spec.
  - now apply IH.
Qed.

(** The sum of doubles denotes the exact sum of what they denote. *)
Lemma sum_unrounded_denotes (values : list A) :
  Aggregator.sum_unrounded valueof values num_zero = true ->
  denotes (D3.sum values valueof) = D3.sum values exactly.
Proof. apply sum_unrounded_from. Qed.

Lemma total_unrounded_denotes (sums : list float) (total : float) :
  Aggregator.total_unrounded sums total = true ->
  denotes (fold_left num_add sums total) =
  fold_left num_add (map denotes sums) (denotes total).
Proof.
  revert total. induction sums as [| x sums IH]; intros total Hex; [reflexivity |].
  cbn [Aggregator.total_unrounded] in Hex.
  apply andb_true_iff in Hex as [Hadd Hrest].
  cbn [fold_left map]. rewrite (IH _ Hrest). f_equal. now apply adds_exactly_spec.
Qed.

Context {K1 K2 : Type}.
Context (K1_dec : forall x y : K1, {x = y} + {x <> y}).
Context (K2_dec : forall x y : K2, {x = y} + {x <> y}).

(** Without rounding the total of the cell sums and the sum over all
    rows both denote the exact sum of the measure. *)
Lemma unrounded_totals (rows : list A) (key1 : A -> K1) (key2 : A -> K2) :
  Aggregator.unrounded K1_dec K2_dec rows valueof key1 key2 = true ->
  denotes (Aggregator.totalSum
             (Aggregator.aggregate K1_dec K2_dec rows valueof key1 key2)) =
    D3.sum rows exactly /\
  denotes (D3.sum rows valueof) = D3.sum rows exactly.
Proof.
  unfold Aggregator.unrounded. rewrite !andb_true_iff, forallb_forall.
  intros [[Hcells Htotal] Hrows].
  split; [| now apply sum_unrounded_denotes].
  unfold Aggregator.totalSum.
  rewrite (total_unrounded_denotes _ _ Htotal).
  rewrite cells_leaves, !map_map.
  rewrite (map_ext_in _ (fun ws => D3.sum ws exactly)).
  - rewrite (sum_concat exactly exact_add_is_exact).
    destruct exact_add_is_exact as (_ & _ & zero_l).
    change (denotes num_zero) with (@num_zero number _).
    rewrite zero_l.
    apply (sum_perm exactly exact_add_is_exact), leaves_concat.
  - intros ws Hws. apply sum_unrounded_denotes, Hcells, Hws.
Qed.

(** Without rounding the sum of a list of rows and the sum of a
    permutation of it denote the same number. *)
Lemma unrounded_sum_perm (l l' : list A) :
  Permutation l l' ->
  Aggregator.sum_unrounded valueof l num_zero = true ->
  Aggregator.sum_unrounded valueof l' num_zero = true ->
  denotes (D3.sum l valueof) = denotes (D3.sum l' valueof).
Proof.
  intros Hperm Hl Hl'.
  rewrite (sum_unrounded_denotes l Hl), (sum_unrounded_denotes l' Hl').
  now apply (sum_perm exactly exact_add_is_exact).
Qed.
End Unrounded.

(** ** Conservation *)

(** C4, as stated, fails on IEEE doubles.  For the incomes [10^16, 1, 1]
    of one cell and [1, 1] of another, the cell sums are [10^16] (each
    [+ 1] is rounded away) and [2], which add up to [10^16 + 2]; the
    incomes of the five rows add up to [10^16] in the running total of
    [d3.sum], and to [10^16 + 4] on paper. *)
Lemma ieee_sums_not_conserved :
  Aggregator.totalSum (BarChartOverview.aggregatedData Examples.two_cells) <>
  D3.sum Examples.two_cells BarChartOverview.Income.
Proof.
  apply float_differ; vm_compute; reflexivity.
Qed.

(** C4 (amended): the counts of all cells add up to the number of rows.
    The sums of all cells add up to [d3.sum] of the measure over all
    rows (zero and NaN skipped) whenever the additions are exact: in
    every arithmetic whose addition is associative and commutative with
    neutral [0], and, on the doubles the program computes with, whenever
    no addition is rounded in the sum of any cell, in the total of the
    cell sums and in the sum over all rows; the two totals are then the
    same number, the exact sum of the measure, and unless that is NaN
    they are equal for the comparison [===]. *)
Theorem aggregate_conservation {A K1 K2 : Type}
    (K1_dec : forall x y : K1, {x = y} + {x <> y})
    (K2_dec : forall x y : K2, {x = y} + {x <> y})
    (rows : list A) (key1 : A -> K1) (key2 : A -> K2) :
  (forall (num : Type) (arith : JsArith num) (valueof : A -> num),
     Aggregator.totalCount (Aggregator.aggregate K1_dec K2_dec rows valueof key1 key2)
       = List.length rows /\
     (Aggregator.AddIsExact num ->
      Aggregator.totalSum (Aggregator.aggregate K1_dec K2_dec rows valueof key1 key2)
        = D3.sum rows valueof)) /\
  (forall valueof : A -> float,
     Aggregator.unrounded K1_dec K2_dec rows valueof key1 key2 = true ->
     denotes (Aggregator.totalSum
                (Aggregator.aggregate K1_dec K2_dec rows valueof key1 key2))
       = denotes (D3.sum rows valueof) /\
     denotes (D3.sum rows valueof) = D3.sum rows (fun v => denotes (valueof v)) /\
     (num_isNaN (D3.sum rows valueof) = false ->
      PrimFloat.eqb
        (Aggregator.totalSum
           (Aggregator.aggregate K1_dec K2_dec rows valueof key1 key2))
        (D3.sum rows valueof) = true)).
Proof.
  split.
  - intros num arith valueof. split.
    + apply total_count.
    + intros exact. now apply total_sum.
  - intros valueof Hex.
    destruct (unrounded_totals valueof K1_dec K2_dec rows key1 key2 Hex) as [Hcells Hrows].
    assert (Hsame : denotes (Aggregator.totalSum
                               (Aggregator.aggregate K1_dec K2_dec rows valueof key1 key2))
                    = denotes (D3.sum rows valueof)) by congruence.
    split; [exact Hsame | split; [exact Hrows |]].
    now apply denotes_eqb.
Qed.

(** The scenario of the specification.  In doubles, as the program
    computes: three rows are counted, no addition is rounded, and the
    cell sums [400] and [200] add up to the sum [600] of the incomes.
    The same holds in exact arithmetic. *)
Lemma aggregate_conservation_scenario :
  Aggregator.totalCount (BarChartOverview.aggregatedData Examples.scenario_doubles)
    = 3%nat /\
  Aggregator.unrounded string_dec BarChartOverview.risk_dec
    Examples.scenario_doubles BarChartOverview.Income
    BarChartOverview.Age BarChartOverview.RiskRating = true /\
  PrimFloat.eqb
    (Aggregator.totalSum (BarChartOverview.aggregatedData Examples.scenario_doubles))
    (D3.sum Examples.scenario_doubles BarChartOverview.Income) = true /\
  Aggregator.totalSum (BarChartOverview.aggregatedData Examples.scenario)
    = D3.sum Examples.scenario BarChartOverview.Income.
Proof.
  destruct (aggregate_conservation string_dec BarChartOverview.risk_dec
              Examples.scenario_doubles
              BarChartOverview.Age BarChartOverview.RiskRating) as [Hany Hdoubles].
  destruct (aggregate_conservation string_dec BarChartOverview.risk_dec
              Examples.scenario
              BarChartOverview.Age BarChartOverview.RiskRating) as [Hexact _].
  split; [exact (proj1 (Hany float _ BarChartOverview.Income)) |].
  split; [vm_compute; reflexivity |].
  split.
  - apply (Hdoubles BarChartOverview.Income); vm_compute; reflexivity.
  - exact (proj2 (Hexact number _ BarChartOverview.Income) exact_add_is_exact).
Defined.

(** ** Row order *)

(** C8, as stated, fails on IEEE doubles: the same three rows give the
    cell sum [10^16] in one order and [10^16 + 2] in another. *)
Lemma ieee_sum_depends_on_order :
  Permutation Examples.big_first Examples.big_last /\
  Aggregator.cell string_dec BarChartOverview.risk_dec
    (BarChartOverview.aggregatedData Examples.big_first) "18-27" (Some "Low") <>
  Aggregator.cell string_dec BarChartOverview.risk_dec
    (BarChartOverview.aggregatedData Examples.big_last) "18-27" (Some "Low").
Proof.
  split.
  - unfold Examples.big_first, Examples.big_last.
    eapply perm_trans; [apply perm_swap |].
    apply perm_skip, perm_swap.
  - intros E.
    apply (f_equal (fun o => match o with
                             | Some c => Aggregator.totalIncome c
                             | None => 0%float
                             end)) in E.
    revert E. apply float_differ; vm_compute; reflexivity.
Qed.

(** C8 (amended): after a permutation of the rows every pair of keys has
    a cell exactly when it had one before, with the same count and built
    from the same rows up to their order.  The sum of the cell is the
    same whenever the additions are exact: in every arithmetic whose
    addition is associative and commutative with neutral [0], and, on
    the doubles the program computes with, whenever no addition of the
    cell's sum is rounded before and after the permutation; the two
    sums are then the same number, and unless that is NaN they are
    equal for the comparison [===]. *)
Theorem aggregate_permutation {A K1 K2 : Type}
    (K1_dec : forall x y : K1, {x = y} + {x <> y})
    (K2_dec : forall x y : K2, {x = y} + {x <> y})
    (rows rows' : list A) (key1 : A -> K1) (key2 : A -> K2) :
  Permutation rows rows' ->
  forall (k1 : K1) (k2 : K2),
    let m := D3.members K2_dec key2 k2 (D3.members K1_dec key1 k1 rows) in
    let m' := D3.members K2_dec key2 k2 (D3.members K1_dec key1 k1 rows') in
    Permutation m m' /\
    (forall (num : Type) (arith : JsArith num) (valueof : A -> num),
       let before := Aggregator.cell K1_dec K2_dec
                       (Aggregator.aggregate K1_dec K2_dec rows valueof key1 key2) k1 k2 in
       let after := Aggregator.cell K1_dec K2_dec
                      (Aggregator.aggregate K1_dec K2_dec rows' valueof key1 key2) k1 k2 in
       option_map Aggregator.count before = option_map Aggregator.count after /\
       (Aggregator.AddIsExact num -> before = after)) /\
    (forall valueof : A -> float,
       Aggregator.sum_unrounded valueof m num_zero = true ->
       Aggregator.sum_unrounded valueof m' num_zero = true ->
       let before := Aggregator.cell K1_dec K2_dec
                       (Aggregator.aggregate K1_dec K2_dec rows valueof key1 key2) k1 k2 in
       let after := Aggregator.cell K1_dec K2_dec
                      (Aggregator.aggregate K1_dec K2_dec rows' valueof key1 key2) k1 k2 in
       option_map (fun c => denotes (Aggregator.totalIncome c)) before =
       option_map (fun c => denotes (Aggregator.totalIncome c)) after /\
       (forall c c', before = Some c -> after = Some c' ->
          num_isNaN (Aggregator.totalIncome c') = false ->
          PrimFloat.eqb (Aggregator.totalIncome c) (Aggregator.totalIncome c') = true)).
Proof.
  intros Hperm k1 k2 m m'.
  assert (Hm : Permutation m m') by now apply members_perm, members_perm.
  assert (Hnil : m = [] <-> m' = []).
  { split; intros E; rewrite E in Hm;
      [| symmetry in Hm]; now apply Permutation_nil in Hm. }
  split; [exact Hm | split].
  - intros num arith valueof before after. subst before after.
    rewrite !cell_rows. fold m m'.
    destruct m as [| a l], m' as [| a' l'];
      try (now destruct Hnil as [H1 H2]; first [discriminate H1 | discriminate H2]).
    + split; reflexivity.
    + split.
      * simpl. f_equal. apply (Permutation_length Hm).
      * intros exact. unfold Aggregator.sumCount. f_equal. f_equal.
        -- now apply sum_perm.
        -- apply (Permutation_length Hm).
  - intros valueof Hex Hex' before after. subst before after.
    rewrite !cell_rows. fold m m'.
    destruct m as [| a l], m' as [| a' l'];
      try (now destruct Hnil as [H1 H2]; first [discriminate H1 | discriminate H2]).
    + split; [reflexivity | discriminate].
    + assert (Hsame : denotes (D3.sum (a :: l) valueof) = denotes (D3.sum (a' :: l') valueof))
        by now apply unrounded_sum_perm.
      split.
      * cbn [option_map Aggregator.sumCount Aggregator.totalIncome]. now f_equal.
      * intros c c' Hc Hc' Hn.
        apply (f_equal (option_map Aggregator.totalIncome)) in Hc, Hc'.
        cbn [option_map Aggregator.sumCount Aggregator.totalIncome] in Hc, Hc'.
        assert (Ec : Aggregator.totalIncome c = D3.sum (a :: l) valueof).
        { exact (f_equal (fun o => match o with
                                   | Some x => x
                                   | None => Aggregator.totalIncome c
                                   end) (eq_sym Hc)). }
        assert (Ec' : Aggregator.totalIncome c' = D3.sum (a' :: l') valueof).
        { exact (f_equal (fun o => match o with
                                   | Some x => x
                                   | None => Aggregator.totalIncome c'
                                   end) (eq_sym Hc')). }
        rewrite Ec, Ec' in *. now apply denotes_eqb.
Qed.

(** The scenario of the specification and a shuffle of it have the same
    sum [400] in the cell for ["28-37"] and ["Low"]: in doubles, where
    no addition of [100 + 300] and of [300 + 100] is rounded, and in
    exact arithmetic. *)
Lemma aggregate_permutation_scenario :
  Permutation Examples.scenario_doubles Examples.scenario_doubles_shuffled /\
  (exists c c',
     Aggregator.cell string_dec BarChartOverview.risk_dec
       (BarChartOverview.aggregatedData Examples.scenario_doubles)
       "28-37" (Some "Low") = Some c /\
     Aggregator.cell string_dec BarChartOverview.risk_dec
       (BarChartOverview.aggregatedData Examples.scenario_doubles_shuffled)
       "28-37" (Some "Low") = Some c' /\
     Aggregator.totalIncome c' = 400%float /\
     PrimFloat.eqb (Aggregator.totalIncome c) (Aggregator.totalIncome c') = true) /\
  Aggregator.cell string_dec BarChartOverview.risk_dec
    (BarChartOverview.aggregatedData Examples.scenario) "28-37" (Some "Low") =
  Aggregator.cell string_dec BarChartOverview.risk_dec
    (BarChartOverview.aggregatedData Examples.scenario_shuffled) "28-37" (Some "Low").
Proof.
  assert (Hshuffle : forall (X : Type) (a b c : X), Permutation [a; b; c] [c; b; a]).
  { intros X a b c.
    eapply perm_trans; [apply perm_skip, perm_swap |].
    eapply perm_trans; [apply perm_swap |].
    apply perm_skip, perm_swap. }
  split; [apply Hshuffle |]. split.
  - exists {| Aggregator.totalIncome := 400%float; Aggregator.count := 2 |},
           {| Aggregator.totalIncome := 400%float; Aggregator.count := 2 |}.
    split; [vm_compute; reflexivity |].
    split; [vm_compute; reflexivity |].
    split; [reflexivity |].
    apply (proj2 (proj2 (proj2 (aggregate_permutation
                                  string_dec BarChartOverview.risk_dec
                                  Examples.scenario_doubles
                                  Examples.scenario_doubles_shuffled
                                  BarChartOverview.Age BarChartOverview.RiskRating
                                  (Hshuffle _ _ _ _) "28-37" (Some "Low")))
                    BarChartOverview.Income eq_refl eq_refl));
      vm_compute; reflexivity.
  - exact (proj2 (proj1 (proj2 (aggregate_permutation string_dec BarChartOverview.risk_dec
                                  Examples.scenario Examples.scenario_shuffled
                                  BarChartOverview.Age BarChartOverview.RiskRating
                                  (Hshuffle _ _ _ _) "28-37" (Some "Low")))
                     number _ BarChartOverview.Income)
                 exact_add_is_exact).
Defined.

(** ** Cells that exist and cells that do not *)

Section CellFacts.
Context {num : Type} `{JsArith num} {A K1 K2 : Type}.
Context (K1_dec : forall x y : K1, {x = y} + {x <> y}).
Context (K2_dec : forall x y : K2, {x = y} + {x <> y}).
Variable valueof : A -> num.
Variable key1 : A -> K1.
Variable key2 : A -> K2.

Lemma members_nil {K : Type} (K_dec : forall x y : K, {x = y} + {x <> y})
    (keyof : A -> K) (k : K) (rows : list A) :
  (forall r, In r rows -> keyof r <> k) -> D3.members K_dec keyof k rows = [].
Proof.
  intros Hno. unfold D3.members.
  induction rows as [| r rows IH]; simpl; [reflexivity |].
  destruct (K_dec (keyof r) k) as [E | _].
  - exfalso. apply (Hno r); [now left | exact E].
  - apply IH. intros r' Hr'. apply Hno. now right.
Qed.

Lemma members_In {K : Type} (K_dec : forall x y : K, {x = y} + {x <> y})
    (keyof : A -> K) (k : K) (rows : list A) (r : A) :
  In r (D3.members K_dec keyof k rows) <-> In r rows /\ keyof r = k.
Proof.
  unfold D3.members. rewrite filter_In.
  destruct (K_dec (keyof r) k); intuition congruence.
Qed.

Lemma aggregate_keys (rows : list A) (k1 : K1) :
  In k1 (map fst (Aggregator.aggregate K1_dec K2_dec rows valueof key1 key2)) <->
  exists r, In r rows /\ key1 r = k1.
Proof.
  rewrite rollup_unfold.
  rewrite (keys_map (fun vs => map (fun e2 => (fst e2, Aggregator.sumCount valueof (snd e2)))
                                   (D3.group K2_dec key2 vs))).
  apply group_keys.
Qed.

Lemma aggregate_NoDup (rows : list A) :
  NoDup (map fst (Aggregator.aggregate K1_dec K2_dec rows valueof key1 key2)).
Proof.
  rewrite rollup_unfold.
  rewrite (keys_map (fun vs => map (fun e2 => (fst e2, Aggregator.sumCount valueof (snd e2)))
                                   (D3.group K2_dec key2 vs))).
  apply group_NoDup.
Qed.

Lemma cell_absent (rows : list A) (k1 : K1) (k2 : K2) :
  (forall r, In r rows -> key1 r = k1 -> key2 r <> k2) ->
  Aggregator.cell K1_dec K2_dec
    (Aggregator.aggregate K1_dec K2_dec rows valueof key1 key2) k1 k2 = None.
Proof.
  intros Hno. rewrite cell_rows, members_nil; [reflexivity |].
  intros r Hr. apply members_In in Hr as [Hr Hk]. now apply Hno.
Qed.

Lemma cell_count_positive (rows : list A) (k1 : K1) (k2 : K2) (c : Aggregator.Cell num) :
  Aggregator.cell K1_dec K2_dec
    (Aggregator.aggregate K1_dec K2_dec rows valueof key1 key2) k1 k2 = Some c ->
  (1 <= Aggregator.count c)%nat.
Proof.
  rewrite cell_rows.
  destruct (D3.members K2_dec key2 k2 (D3.members K1_dec key1 k1 rows)); [discriminate |].
  intros [= <-]. simpl. lia.
Qed.

Lemma cells_count_positive (rows : list A) :
  Forall (fun c => (1 <= Aggregator.count c)%nat)
         (Aggregator.cells (Aggregator.aggregate K1_dec K2_dec rows valueof key1 key2)).
Proof.
  rewrite cells_leaves. apply Forall_map.
  eapply Forall_impl; [| apply leaves_nonempty].
  intros [| r ws] Hne; [congruence | simpl; lia].
Qed.
End CellFacts.

(** C10: every cell of the aggregate counts at least one row, whether it
    is reached by iterating the mapping or by looking up a pair of keys;
    so the mean [totalIncome / count] that the bar charts compute for a
    cell they find divides by a count of at least one. *)
Theorem present_cells_count_rows {num : Type} `{JsArith num} {A K1 K2 : Type}
    (K1_dec : forall x y : K1, {x = y} + {x <> y})
    (K2_dec : forall x y : K2, {x = y} + {x <> y})
    (rows : list A) (valueof : A -> num) (key1 : A -> K1) (key2 : A -> K2) :
  let agg := Aggregator.aggregate K1_dec K2_dec rows valueof key1 key2 in
  Forall (fun c => (1 <= Aggregator.count c)%nat) (Aggregator.cells agg) /\
  (forall k1 k2 c, Aggregator.cell K1_dec K2_dec agg k1 k2 = Some c ->
                   (1 <= Aggregator.count c)%nat) /\
  (forall k1 inner k2 c, In (k1, inner) agg -> D3.get K2_dec k2 inner = Some c ->
                         (1 <= Aggregator.count c)%nat).
Proof.
  intros agg. split; [apply cells_count_positive |].
  split; [intros k1 k2 c; apply cell_count_positive |].
  intros k1 inner k2 c Hin Hget.
  apply (cell_count_positive K1_dec K2_dec valueof key1 key2 rows k1 k2 c).
  unfold Aggregator.cell. fold agg.
  rewrite (In_get K1_dec k1 inner agg); [exact Hget | apply aggregate_NoDup | exact Hin].
Qed.

Section DenseGrid.
Context {num : Type} `{JsArith num}.
Variable data : list (BarChartOverview.DataType num).

Local Abbreviation agg := (BarChartOverview.aggregatedData data).

Lemma age_key_absent (age : string) :
  (forall d, In d data -> BarChartOverview.Age d <> age) ->
  ~ In age (map fst agg).
Proof.
  intros Hno Hin.
  apply (aggregate_keys string_dec BarChartOverview.risk_dec) in Hin
    as (d & Hd & Hage).
  exact (Hno d Hd Hage).
Qed.

Lemma stacked_keys :
  map fst (BarChartOverview.stackedData data) = map fst agg.
Proof.
  unfold BarChartOverview.stackedData. rewrite map_map.
  apply map_ext. now intros [age riskData].
Qed.

Lemma stacked_missing (age : string) (means : list (string * num)) (risk : string) :
  In (age, means) (BarChartOverview.stackedData data) ->
  Aggregator.cell string_dec BarChartOverview.risk_dec agg age (Some risk) = None ->
  forall x, In (risk, x) means -> x = num_zero.
Proof.
  intros Hin Hcell x Hx.
  unfold BarChartOverview.stackedData in Hin.
  apply in_map_iff in Hin as ([age' riskData] & Hrow & Hentry).
  simpl in Hrow. injection Hrow as -> <-.
  unfold Aggregator.cell in Hcell.
  rewrite (In_get string_dec age riskData agg) in Hcell;
    [| apply aggregate_NoDup | exact Hentry].
  destruct Hx as [E | [E | [E | []]]];
    injection E as <- <-; now rewrite Hcell.
Qed.

Lemma stacked_dense (age : string) (means : list (string * num)) :
  In (age, means) (BarChartOverview.stackedData data) ->
  map fst means = BarChartOverview.riskCategories.
Proof.
  intros Hin. unfold BarChartOverview.stackedData in Hin.
  apply in_map_iff in Hin as ([age' riskData] & Hrow & _).
  simpl in Hrow. injection Hrow as _ <-. reflexivity.
Qed.
End DenseGrid.

(** C7: an age category that no row has is not a key of the aggregate,
    hence neither an axis category nor a row of the mean table, and a
    pair of categories that no row has is not a cell.  The mean table
    is a dense grid: it has one row per age group of the aggregate, in
    the same order, and the row of an age group lists every risk
    category, with the mean of the cell where the aggregate has one
    and with the number [0], which is not NaN, where it has none. *)
Theorem missing_categories {num : Type} `{JsArith num}
    (data : list (BarChartOverview.DataType num)) :
  let agg := BarChartOverview.aggregatedData data in
  (forall age, (forall d, In d data -> BarChartOverview.Age d <> age) ->
     ~ In age (map fst agg) /\
     D3.has string_dec age agg = false /\
     ~ In age (BarChartOverview.ageCategoriesInData data) /\
     ~ In age (map fst (BarChartOverview.stackedData data))) /\
  (forall age risk,
     (forall d, In d data -> BarChartOverview.Age d = age ->
                BarChartOverview.RiskRating d <> risk) ->
     Aggregator.cell string_dec BarChartOverview.risk_dec agg age risk = None) /\
  (forall age means, In (age, means) (BarChartOverview.stackedData data) ->
     map fst means = BarChartOverview.riskCategories /\
     forall risk x,
       Aggregator.cell string_dec BarChartOverview.risk_dec agg age (Some risk) = None ->
       In (risk, x) means -> x = num_zero /\ num_isNaN x = false) /\
  map fst (BarChartOverview.stackedData data) = map fst agg /\
  (forall age, In age (map fst agg) ->
     exists means,
       In (age, means) (BarChartOverview.stackedData data) /\
       map fst means = BarChartOverview.riskCategories /\
       forall risk, In risk BarChartOverview.riskCategories ->
         match Aggregator.cell string_dec BarChartOverview.risk_dec
                 agg age (Some risk) with
         | Some groupData =>
             In (risk, num_div (Aggregator.totalIncome groupData)
                               (num_of_nat (Aggregator.count groupData))) means
         | None =>
             In (risk, num_zero) means /\ num_isNaN (@num_zero num _) = false
         end).
Proof.
  intros agg. split; [| split; [| split; [| split]]].
  - intros age Hno.
    assert (Hkey : ~ In age (map fst agg)) by now apply age_key_absent.
    assert (Hhas : D3.has string_dec age agg = false).
    { unfold D3.has. now apply (get_None string_dec) in Hkey as ->. }
    repeat split; auto.
    + unfold BarChartOverview.ageCategoriesInData. rewrite filter_In.
      fold agg. rewrite Hhas. intros [_ Hf]. discriminate.
    + now rewrite stacked_keys.
  - intros age risk Hno. now apply cell_absent.
  - intros age means Hin. split; [now apply (stacked_dense data age) |].
    intros risk x Hcell Hx.
    assert (x = num_zero) as -> by now apply (stacked_missing data age means risk).
    split; [reflexivity | apply num_zero_not_NaN].
  - apply stacked_keys.
  - intros age Hage. apply in_map_iff in Hage as ([age' riskData] & E & Hentry).
    simpl in E. subst age'.
    exists (snd (BarChartOverview.stackedRow (age, riskData))).
    split; [| split].
    + unfold BarChartOverview.stackedData. apply in_map_iff.
      exists (age, riskData). split; [reflexivity | exact Hentry].
    + reflexivity.
    + intros risk Hrisk. unfold Aggregator.cell.
      rewrite (In_get string_dec age riskData agg);
        [| apply aggregate_NoDup | exact Hentry].
      cbn [BarChartOverview.stackedRow snd].
      destruct (D3.get BarChartOverview.risk_dec (Some risk) riskData) as [g |] eqn:E.
      * apply in_map_iff. exists risk. now rewrite E.
      * split; [| apply num_zero_not_NaN].
        apply in_map_iff. exists risk. now rewrite E.
Qed.

(** In the scenario of the specification no row is aged 18 to 27 and no
    row aged 28 to 37 has a high risk rating: the aggregate has no key
    ["18-27"] and no cell for (["28-37"], ["High"]), and the mean table
    has a row for ["28-37"] in which ["High"] is [0]. *)
Lemma missing_categories_scenario :
  ~ In "18-27" (map fst (BarChartOverview.aggregatedData Examples.scenario)) /\
  Aggregator.cell string_dec BarChartOverview.risk_dec
    (BarChartOverview.aggregatedData Examples.scenario) "28-37" (Some "High") = None /\
  map fst (BarChartOverview.stackedData Examples.scenario) = ["28-37"; "38-47"] /\
  exists means,
    In ("28-37", means) (BarChartOverview.stackedData Examples.scenario) /\
    map fst means = ["Low"; "Medium"; "High"] /\
    In ("High", int 0) means.
Proof.
  destruct (missing_categories Examples.scenario) as (Hage & Hcell & _ & Hkeys & Hgrid).
  assert (Hnone : Aggregator.cell string_dec BarChartOverview.risk_dec
                    (BarChartOverview.aggregatedData Examples.scenario)
                    "28-37" (Some "High") = None).
  { apply Hcell.
    intros d Hd; simpl in Hd;
      repeat (destruct Hd as [<- | Hd]; [simpl; intros; discriminate |]); contradiction. }
  split; [| split; [exact Hnone | split]].
  - apply (Hage "18-27").
    intros d Hd; simpl in Hd;
      repeat (destruct Hd as [<- | Hd]; [discriminate |]); contradiction.
  - rewrite Hkeys. reflexivity.
  - destruct (Hgrid "28-37") as (means & Hrow & Hcats & Hvalues);
      [vm_compute; now left |].
    exists means. split; [exact Hrow | split; [exact Hcats |]].
    specialize (Hvalues "High"). rewrite Hnone in Hvalues.
    apply Hvalues. vm_compute. now right; right; left.
Defined.

(** ** Row accessors *)

Lemma csv_In {T : Type} (row : Js.DSVRow -> option T) (file : list Js.DSVRow) (r : T) :
  In r (D3.csv row file) <-> exists d, In d file /\ row d = Some r.
Proof.
  induction file as [| d file IH]; simpl.
  - split; [intros [] | intros (d & [] & _)].
  - destruct (row d) as [r' |] eqn:E; simpl; rewrite IH; split.
    + intros [<- | (d' & Hd & Hr)]; eauto.
    + intros (d' & [<- | Hd] & Hr); [left; congruence | eauto].
    + intros (d' & Hd & Hr); eauto.
    + intros (d' & [<- | Hd] & Hr); [congruence | eauto].
Qed.

Lemma csv_all {T : Type} (row : Js.DSVRow -> option T) (file : list Js.DSVRow) :
  (forall d, row d <> None) -> List.length (D3.csv row file) = List.length file.
Proof.
  intros Hall. induction file as [| d file IH]; simpl; [reflexivity |].
  destruct (row d) eqn:E; [simpl; now rewrite IH | now apply Hall in E].
Qed.

Lemma csv_map {T : Type} (row : Js.DSVRow -> option T) (f : Js.DSVRow -> T)
    (file : list Js.DSVRow) :
  (forall d, row d = Some (f d)) -> D3.csv row file = map f file.
Proof.
  intros Hrow. induction file as [| d file IH]; simpl; [reflexivity |].
  now rewrite Hrow, IH.
Qed.

Section Accessors.
Variable ToNumber : string -> number.

Local Abbreviation present := Loader.present.
Local Abbreviation numeric := (Loader.numeric ToNumber).

(** Closes an equivalence between "the accessor returns a row" and a
    conjunction of checks once every check has been decided. *)
Ltac decide_row :=
  simpl; split;
  [ intros Hn; first [ now contradiction Hn | repeat split; reflexivity ]
  | first [ intros _; discriminate
          | intros Hc; decompose [and] Hc; discriminate ] ].

Lemma sankey_row_accepts (d : Js.DSVRow) :
  Sankey.row ToNumber d <> None <->
  present d "Education Level" = true /\ present d "Payment History" = true /\
  present d "Risk Rating" = true /\ present d "Income" = true /\
  Loader.nonblank d "Income" = true /\ numeric d "Income" = true.
Proof.
  unfold Sankey.row, Loader.present, Loader.nonblank, Loader.numeric, Js.plus.
  destruct (Js.field d "Education Level") as [e |];
    destruct (Js.field d "Payment History") as [p |];
    destruct (Js.field d "Risk Rating") as [r |];
    destruct (Js.field d "Income") as [i |]; simpl;
    repeat match goal with
           | |- context [String.eqb ?a ?b] => destruct (String.eqb a b); simpl
           end;
    try match goal with
        | |- context [isNaN (ToNumber ?x)] => destruct (isNaN (ToNumber x))
        end;
    decide_row.
Qed.

Lemma sankey_row_drops :
  Loader.drops (Sankey.row ToNumber) ToNumber
    ["Education Level"; "Payment History"; "Income"; "Risk Rating"] ["Income"].
Proof.
  intros d Hbad.
  destruct (Sankey.row ToNumber d) eqn:E; [| reflexivity].
  assert (Hsome : Sankey.row ToNumber d <> None) by congruence.
  apply sankey_row_accepts in Hsome as (He & Hp & Hr & Hi & _ & Hn).
  unfold Loader.malformed in Hbad. simpl in Hbad.
  rewrite He, Hp, Hr, Hi, Hn in Hbad. discriminate.
Qed.

Lemma hexbin_row_accepts (d : Js.DSVRow) :
  HexbinPlot.row ToNumber d <> None <->
  numeric d "Credit Score" = true /\ numeric d "Income" = true /\
  numeric d "Debt-to-Income Ratio" = true /\ numeric d "Age" = true /\
  (Js.plus ToNumber (Js.field d "Credit Score") >= int 600)%js = true /\
  (Js.plus ToNumber (Js.field d "Credit Score") <= int 800)%js = true /\
  (Js.plus ToNumber (Js.field d "Income") > int 0)%js = true /\
  present d "Risk Rating" = true.
Proof.
  unfold HexbinPlot.row, Loader.present, Loader.numeric.
  destruct (isNaN (Js.plus ToNumber (Js.field d "Credit Score")));
    destruct (isNaN (Js.plus ToNumber (Js.field d "Income")));
    destruct (isNaN (Js.plus ToNumber (Js.field d "Debt-to-Income Ratio")));
    destruct (isNaN (Js.plus ToNumber (Js.field d "Age")));
    destruct (geb (Js.plus ToNumber (Js.field d "Credit Score")) (int 600));
    destruct (leb (Js.plus ToNumber (Js.field d "Credit Score")) (int 800));
    destruct (gtb (Js.plus ToNumber (Js.field d "Income")) (int 0));
    destruct (Js.field d "Risk Rating") as [r |]; simpl;
    try destruct (String.eqb r ""); decide_row.
Qed.

Lemma hexbin_row_drops :
  Loader.drops (HexbinPlot.row ToNumber) ToNumber
    ["Risk Rating"] ["Credit Score"; "Income"; "Debt-to-Income Ratio"; "Age"].
Proof.
  intros d Hbad.
  destruct (HexbinPlot.row ToNumber d) eqn:E; [| reflexivity].
  assert (Hsome : HexbinPlot.row ToNumber d <> None) by congruence.
  apply hexbin_row_accepts in Hsome as (Hc & Hi & Hd & Ha & _ & _ & _ & Hr).
  unfold Loader.malformed in Hbad. simpl in Hbad.
  rewrite Hc, Hi, Hd, Ha, Hr in Hbad. discriminate.
Qed.
End Accessors.

(** C2, as stated, fails for the bar charts: their accessor returns an
    object for every row.  A row whose age is not a number and whose
    income and risk rating are empty is loaded as a person of age group
    ["Unknown"] with income [0] and an empty risk rating. *)
Lemma bar_chart_keeps_garbled_row :
  Loader.malformed Js.StringToNumber
    ["Age"; "Income"; "Risk Rating"] ["Age"; "Income"] Examples.garbled = true /\
  BarChartOverview.load Js.StringToNumber [Examples.garbled] =
    [ {| BarChartOverview.Age := "Unknown";
         BarChartOverview.Income := int 0;
         BarChartOverview.RiskRating := Some "" |} ] /\
  ~ Loader.drops (BarChartOverview.row Js.StringToNumber) Js.StringToNumber
      ["Age"; "Income"; "Risk Rating"] ["Age"; "Income"].
Proof.
  split; [reflexivity |]. split; [reflexivity |].
  intros Hdrops. specialize (Hdrops Examples.garbled eq_refl). discriminate Hdrops.
Qed.

(** C2 (amended): the rows that reach a component are exactly those for
    which its accessor returns an object.  The Sankey and parallel
    coordinates accessor returns one exactly when education level,
    payment history, risk rating and income are present and not empty
    and the income is not blank and converts to a number; it drops every
    row with a missing required field or an unparseable income.  The
    hexbin accessor drops every row in which one of the four numeric
    fields converts to NaN, the credit score is outside [600, 800], the
    income is not positive or the risk rating is missing or empty, and
    keeps every row that passes these checks and whose numeric fields
    are not empty.  The bar chart accessors drop no row: each row is
    returned with the age group of [+d.Age], the income [+d.Income] and
    the risk rating as read. *)
Theorem loaders_validation (ToNumber : string -> number) :
  (forall (T : Type) (row : Js.DSVRow -> option T) file r,
     In r (D3.csv row file) <-> exists d, In d file /\ row d = Some r) /\
  Loader.drops (Sankey.row ToNumber) ToNumber
    ["Education Level"; "Payment History"; "Income"; "Risk Rating"] ["Income"] /\
  (forall d, Sankey.row ToNumber d <> None <->
     Loader.present d "Education Level" = true /\
     Loader.present d "Payment History" = true /\
     Loader.present d "Risk Rating" = true /\
     Loader.present d "Income" = true /\
     Loader.nonblank d "Income" = true /\
     Loader.numeric ToNumber d "Income" = true) /\
  Loader.drops (HexbinPlot.row ToNumber) ToNumber
    ["Risk Rating"] ["Credit Score"; "Income"; "Debt-to-Income Ratio"; "Age"] /\
  (forall d, HexbinPlot.row ToNumber d <> None ->
     Loader.numeric ToNumber d "Credit Score" = true /\
     Loader.numeric ToNumber d "Income" = true /\
     Loader.numeric ToNumber d "Debt-to-Income Ratio" = true /\
     Loader.numeric ToNumber d "Age" = true /\
     (Js.plus ToNumber (Js.field d "Credit Score") >= int 600)%js = true /\
     (Js.plus ToNumber (Js.field d "Credit Score") <= int 800)%js = true /\
     (Js.plus ToNumber (Js.field d "Income") > int 0)%js = true /\
     Loader.present d "Risk Rating" = true) /\
  (forall d,
     Loader.malformed ToNumber
       ["Credit Score"; "Income"; "Debt-to-Income Ratio"; "Age"; "Risk Rating"]
       ["Credit Score"; "Income"; "Debt-to-Income Ratio"; "Age"] d = false ->
     (Js.plus ToNumber (Js.field d "Credit Score") >= int 600)%js = true ->
     (Js.plus ToNumber (Js.field d "Credit Score") <= int 800)%js = true ->
     (Js.plus ToNumber (Js.field d "Income") > int 0)%js = true ->
     HexbinPlot.row ToNumber d <> None) /\
  (forall d,
     BarChartOverview.row ToNumber d =
     Some {| BarChartOverview.Age :=
               BarChartOverview.categorizeAge (Js.plus ToNumber (Js.field d "Age"));
             BarChartOverview.Income := Js.plus ToNumber (Js.field d "Income");
             BarChartOverview.RiskRating := Js.field d "Risk Rating" |}) /\
  (forall d,
     BarChartOverview2.row ToNumber d =
     Some {| BarChartOverview2.Age :=
               BarChartOverview2.categorizeAge (Js.plus ToNumber (Js.field d "Age"));
             BarChartOverview2.Income := Js.plus ToNumber (Js.field d "Income");
             BarChartOverview2.RiskRating := Js.field d "Risk Rating" |}) /\
  (forall file,
     BarChartOverview.load ToNumber file =
       map (fun d =>
              {| BarChartOverview.Age :=
                   BarChartOverview.categorizeAge (Js.plus ToNumber (Js.field d "Age"));
                 BarChartOverview.Income := Js.plus ToNumber (Js.field d "Income");
                 BarChartOverview.RiskRating := Js.field d "Risk Rating" |}) file /\
     BarChartOverview2.load ToNumber file =
       map (fun d =>
              {| BarChartOverview2.Age :=
                   BarChartOverview2.categorizeAge (Js.plus ToNumber (Js.field d "Age"));
                 BarChartOverview2.Income := Js.plus ToNumber (Js.field d "Income");
                 BarChartOverview2.RiskRating := Js.field d "Risk Rating" |}) file /\
     List.length (BarChartOverview.load ToNumber file) = List.length file /\
     List.length (BarChartOverview2.load ToNumber file) = List.length file).
Proof.
  split; [intros T row file r; apply csv_In |].
  split; [apply sankey_row_drops |].
  split; [apply sankey_row_accepts |].
  split; [apply hexbin_row_drops |].
  split; [intros d; apply hexbin_row_accepts |].
  split.
  { intros d Hgood Hlow Hhigh Hpos. apply hexbin_row_accepts.
    unfold Loader.malformed in Hgood. cbn [existsb] in Hgood.
    rewrite !orb_false_r in Hgood.
    repeat match type of Hgood with
           | (_ || _)%bool = false => apply orb_false_iff in Hgood as [? Hgood]
           end.
    repeat match goal with
           | E : negb _ = false |- _ => apply negb_false_iff in E
           | E : (_ || _)%bool = false |- _ => apply orb_false_iff in E as [? ?]
           end.
    repeat split; assumption. }
  split; [reflexivity |].
  split; [reflexivity |].
  intros file.
  split; [now apply csv_map |].
  split; [now apply csv_map |].
  split; apply csv_all; discriminate.
Qed.

(** With the conversion of the language on decimal literals: the Sankey
    accessor drops a row whose income is a no-break space between two
    spaces, which is not empty but blank, and a row without education
    level; the Sankey and the hexbin accessor keep a complete row. *)
Lemma loaders_on_samples :
  Loader.present Examples.blank_income "Income" = true /\
  Sankey.row Js.StringToNumber Examples.blank_income = None /\
  Sankey.row Js.StringToNumber Examples.gaps = None /\
  Sankey.row Js.StringToNumber Examples.complete <> None /\
  HexbinPlot.row Js.StringToNumber Examples.complete <> None.
Proof.
  destruct (loaders_validation Js.StringToNumber)
    as (_ & Hdrops & Hsankey & _ & _ & Hkeeps & _).
  split; [reflexivity |].
  split; [| split; [| split]].
  - destruct (Sankey.row Js.StringToNumber Examples.blank_income) eqn:E; [| reflexivity].
    assert (Hsome : Sankey.row Js.StringToNumber Examples.blank_income <> None)
      by (rewrite E; discriminate).
    apply Hsankey in Hsome as (_ & _ & _ & _ & Hblank & _).
    vm_compute in Hblank. discriminate Hblank.
  - apply Hdrops. reflexivity.
  - apply Hsankey. vm_compute. repeat split; reflexivity.
  - apply Hkeeps; vm_compute; reflexivity.
Defined.

(** ** Keys of nodes and links *)

Lemma has_arrow_tail (c : ascii) (s : string) :
  Sankey.has_arrow (String c s) = false -> Sankey.has_arrow s = false.
Proof. simpl. intros E. now apply orb_false_iff in E as [_ E]. Qed.

(** The first ["->"] of a link key separates the two node keys as soon
    as the source key contains none. *)
Lemma arrow_split (s s' t t' : string) :
  Sankey.has_arrow s = false -> Sankey.has_arrow s' = false ->
  (s ++ "->" ++ t)%string = (s' ++ "->" ++ t')%string ->
  s = s' /\ t = t'.
Proof.
  revert s'. induction s as [| c s IH]; intros [| c' s'] Hs Hs' E; simpl in E.
  - now injection E.
  - injection E as <- E. destruct s' as [| c'' s'']; simpl in E.
    + discriminate.
    + injection E as <- _. simpl in Hs'. discriminate.
  - injection E as -> E. destruct s as [| c'' s'']; simpl in E.
    + discriminate.
    + injection E as -> _. simpl in Hs. discriminate.
  - injection E as -> E.
    destruct (IH s' (has_arrow_tail _ _ Hs) (has_arrow_tail _ _ Hs') E) as [-> ->].
    now split.
Qed.

Lemma linkKey_inj (s s' t t' : string) :
  Sankey.has_arrow s = false -> Sankey.has_arrow s' = false ->
  Sankey.linkKey s t = Sankey.linkKey s' t' -> s = s' /\ t = t'.
Proof. apply arrow_split. Qed.

Lemma linkKey_eqb (s s' t t' : string) :
  Sankey.has_arrow s = false -> Sankey.has_arrow s' = false ->
  String.eqb (Sankey.linkKey s t) (Sankey.linkKey s' t') =
  String.eqb s s' && String.eqb t t'.
Proof.
  intros Hs Hs'.
  destruct (String.eqb_spec (Sankey.linkKey s t) (Sankey.linkKey s' t')) as [E | N].
  - destruct (linkKey_inj _ _ _ _ Hs Hs' E) as [-> ->].
    now rewrite !String.eqb_refl.
  - destruct (String.eqb_spec s s') as [-> |]; [| reflexivity].
    destruct (String.eqb_spec t t') as [-> |]; [| reflexivity].
    now contradiction N.
Qed.

(** A node key determines its dimension and its value. *)
Lemma nodeKey_inj (dim dim' v v' : string) :
  In dim Sankey.dimensions -> In dim' Sankey.dimensions ->
  (dim ++ "_" ++ v)%string = (dim' ++ "_" ++ v')%string ->
  dim = dim' /\ v = v'.
Proof.
  intros Hd Hd' E. simpl in Hd, Hd'.
  repeat (destruct Hd as [<- | Hd]; [| ]); try contradiction;
    repeat (destruct Hd' as [<- | Hd']; [| ]); try contradiction;
    simpl in E; try discriminate E; injection E as ->; now split.
Qed.

Lemma source_arrow_free (d : Sankey.DataType) (o : string * string) :
  Sankey.arrow_free d = true -> In o (Sankey.pairs d) -> Sankey.has_arrow (fst o) = false.
Proof.
  unfold Sankey.arrow_free. intros Hfree Hin.
  apply andb_true_iff in Hfree as [Hfree Hi].
  apply andb_true_iff in Hfree as [He Hp].
  apply negb_true_iff in He, Hp, Hi.
  simpl in Hin. destruct Hin as [<- | [<- | [<- | []]]]; simpl; assumption.
Qed.

Lemma sources_arrow_free (data : list Sankey.DataType) :
  forallb Sankey.arrow_free data = true ->
  Forall (fun o => Sankey.has_arrow (fst o) = false) (Sankey.occurrences data).
Proof.
  intros Hall. apply Forall_forall. intros o Hin.
  unfold Sankey.occurrences in Hin. apply in_flat_map in Hin as (d & Hd & Ho).
  rewrite forallb_forall in Hall. eapply source_arrow_free; eauto.
Qed.

(** ** The sets of the graph builder *)

Lemma existsb_eqb_In (x : string) (s : list string) :
  existsb (String.eqb x) s = true <-> In x s.
Proof.
  rewrite existsb_exists. split.
  - intros (y & Hy & E). apply String.eqb_eq in E. now subst.
  - intros Hin. exists x. split; [exact Hin | apply String.eqb_refl].
Qed.

Lemma setAdd_In (x y : string) (s : list string) :
  In x (Sankey.setAdd y s) <-> x = y \/ In x s.
Proof.
  unfold Sankey.setAdd. destruct (existsb (String.eqb y) s) eqn:E.
  - apply existsb_eqb_In in E. intuition congruence.
  - rewrite in_app_iff. simpl. intuition congruence.
Qed.

Lemma setAdd_NoDup (y : string) (s : list string) :
  NoDup s -> NoDup (Sankey.setAdd y s).
Proof.
  intros Hnd. unfold Sankey.setAdd. destruct (existsb (String.eqb y) s) eqn:E; [exact Hnd |].
  apply NoDup_app; [exact Hnd | constructor; [intros [] | constructor] |].
  intros x Hx [<- | []].
  apply existsb_eqb_In in Hx. congruence.
Qed.

Lemma key_count_app (k : string) (occs : list (string * string)) (o : string * string) :
  Sankey.key_count k (occs ++ [o]) =
  (Sankey.key_count k occs +
   if String.eqb (Sankey.linkKey (fst o) (snd o)) k then 1 else 0)%nat.
Proof.
  unfold Sankey.key_count. rewrite filter_app, length_app. simpl.
  now destruct (String.eqb (Sankey.linkKey (fst o) (snd o)) k).
Qed.

Lemma source_count_app (n : string) (occs occs' : list (string * string)) :
  Sankey.source_count n (occs ++ occs') =
  (Sankey.source_count n occs + Sankey.source_count n occs')%nat.
Proof. unfold Sankey.source_count. now rewrite filter_app, length_app. Qed.

Section BuilderFacts.
Context {extra : Type} (passthrough : Sankey.DataType -> extra).

Local Abbreviation Entry := (@Sankey.LinkEntry extra).
Local Abbreviation bump e :=
  {| Sankey.source := Sankey.source e; Sankey.target := Sankey.target e;
     Sankey.value := Sankey.value e + 1; Sankey.riskRating := Sankey.riskRating e |}.

Lemma has_In (k : string) (m : list (string * Entry)) :
  D3.has string_dec k m = true <-> In k (map fst m).
Proof.
  unfold D3.has. destruct (D3.get string_dec k m) eqn:E.
  - split; [intros _ | reflexivity].
    apply get_In in E. change k with (fst (k, l)). now apply in_map.
  - apply (get_None string_dec) in E. split; [discriminate | contradiction].
Qed.

Lemma increment_keys (k : string) (m : list (string * Entry)) :
  map fst (Sankey.increment k m) = map fst m.
Proof.
  induction m as [| [k' e] rest IH]; simpl; [reflexivity |].
  destruct (string_dec k k'); simpl; [reflexivity | now rewrite IH].
Qed.

Lemma increment_In (k k' : string) (e' : Entry) (m : list (string * Entry)) :
  NoDup (map fst m) ->
  In (k', e') (Sankey.increment k m) ->
  (k' <> k /\ In (k', e') m) \/
  (k' = k /\ exists e0, In (k, e0) m /\ e' = bump e0).
Proof.
  induction m as [| [k0 e0] rest IH]; simpl; [tauto |].
  intros Hnd Hin. inversion Hnd as [| ? ? Hnotin Hnd']; subst.
  destruct (string_dec k k0) as [<- | Hne].
  - destruct Hin as [E | Hin].
    + injection E as <- <-. right. split; [reflexivity |]. exists e0. auto.
    + left. split; [| now right].
      intros ->. apply Hnotin. change k with (fst (k, e')). now apply in_map.
  - destruct Hin as [E | Hin].
    + injection E as <- <-. left. split; [congruence | now left].
    + destruct (IH Hnd' Hin) as [[Hk Hi] | (Hk & e1 & Hi & He)].
      * left. auto.
      * right. split; [exact Hk |]. exists e1. auto.
  Qed.

Lemma increment_weight (k n : string) (e0 : Entry) (m : list (string * Entry)) :
  D3.get string_dec k m = Some e0 ->
  Sankey.weightFrom n (Sankey.increment k m) =
  (Sankey.weightFrom n m + if String.eqb (Sankey.source e0) n then 1 else 0)%nat.
Proof.
  unfold Sankey.weightFrom.
  induction m as [| [k' e] rest IH]; simpl; [discriminate |].
  destruct (string_dec k k') as [<- | Hne].
  - intros [= ->]. simpl.
    destruct (String.eqb (Sankey.source e0) n); simpl; lia.
  - intros Hget. simpl.
    destruct (String.eqb (Sankey.source e) n); simpl; rewrite (IH Hget); lia.
Qed.

Lemma append_weight (n k : string) (e : Entry) (m : list (string * Entry)) :
  Sankey.weightFrom n (m ++ [(k, e)]) =
  (Sankey.weightFrom n m +
   if String.eqb (Sankey.source e) n then Sankey.value e else 0)%nat.
Proof.
  unfold Sankey.weightFrom. rewrite filter_app, map_app, list_sum_app. simpl.
  destruct (String.eqb (Sankey.source e) n); simpl; lia.
Qed.
End BuilderFacts.

Section BuilderInvariant.
Context {extra : Type} (passthrough : Sankey.DataType -> extra).

Local Abbreviation State := (@Sankey.State extra).
Local Abbreviation addLink := (Sankey.addLink passthrough).
Local Abbreviation visit := (Sankey.visit passthrough).
Local Abbreviation build := (Sankey.build passthrough).

Lemma empty_invariant : Sankey.Invariant (@Sankey.empty extra) [].
Proof.
  unfold Sankey.Invariant. simpl.
  split; [constructor |].
  split; [intros n; split; [intros [] | intros (o & [] & _)] |].
  split; [constructor |].
  split; [intros k e [] | intros o []].
Qed.

Lemma addLink_invariant (d : Sankey.DataType) (st : State)
    (occs : list (string * string)) (s t : string) :
  Sankey.Invariant st occs ->
  Sankey.Invariant (addLink d st s t) (occs ++ [(s, t)]).
Proof.
  intros (Hnd & Hnodes & Hkeys & Hentries & Hcover).
  unfold Sankey.addLink, Sankey.Invariant. cbn [Sankey.nodesSet Sankey.linksMap].
  split; [now apply setAdd_NoDup, setAdd_NoDup |].
  split.
  { intros n. rewrite !setAdd_In, Hnodes. split.
    - intros [-> | [-> | (o & Ho & Hn)]].
      + exists (s, t). split; [apply in_elt | now right].
      + exists (s, t). split; [apply in_elt | now left].
      + exists o. split; [apply in_or_app; now left | exact Hn].
    - intros (o & Ho & Hn). apply in_app_or in Ho as [Ho | [<- | []]].
      + right. right. now exists o.
      + simpl in Hn. tauto. }
  destruct (D3.has string_dec (Sankey.linkKey s t) (Sankey.linksMap st)) eqn:Hhas.
  - (* the key is there: its entry is incremented *)
    split; [now rewrite increment_keys |].
    split.
    + intros k e Hin.
      apply increment_In in Hin as [[Hk Hin] | (-> & e0 & Hin & ->)]; [| | exact Hkeys].
      * destruct (Hentries k e Hin) as (Hkey & Hocc & Hval).
        split; [exact Hkey |]. split; [apply in_or_app; now left |].
        rewrite key_count_app. simpl.
        destruct (String.eqb_spec (Sankey.linkKey s t) k); [congruence | lia].
      * destruct (Hentries _ e0 Hin) as (Hkey & Hocc & Hval). simpl.
        split; [exact Hkey |]. split; [apply in_or_app; now left |].
        rewrite key_count_app. simpl. rewrite String.eqb_refl. lia.
    + intros o Ho. rewrite increment_keys.
      apply in_app_or in Ho as [Ho | [<- | []]]; [now apply Hcover |].
      now apply has_In.
  - (* a new key: an entry of weight one is appended *)
    assert (Hnew : ~ In (Sankey.linkKey s t) (map fst (Sankey.linksMap st))).
    { intros Hin. apply has_In in Hin. congruence. }
    assert (Hzero : Sankey.key_count (Sankey.linkKey s t) occs = 0%nat).
    { unfold Sankey.key_count.
      destruct (filter _ occs) as [| o rest] eqn:E; [reflexivity |].
      exfalso. apply Hnew.
      assert (Ho : In o (filter (fun o => String.eqb (Sankey.linkKey (fst o) (snd o))
                                                     (Sankey.linkKey s t)) occs))
        by (rewrite E; now left).
      apply filter_In in Ho as [Ho Hk]. apply String.eqb_eq in Hk. rewrite <- Hk.
      now apply Hcover. }
    split.
    { rewrite map_app. simpl. apply NoDup_app; [exact Hkeys | constructor; [intros [] | constructor] |].
      intros k Hk [<- | []]. contradiction. }
    split.
    + intros k e Hin. apply in_app_or in Hin as [Hin | [E | []]].
      * destruct (Hentries k e Hin) as (Hkey & Hocc & Hval).
        split; [exact Hkey |]. split; [apply in_or_app; now left |].
        rewrite key_count_app. simpl.
        destruct (String.eqb_spec (Sankey.linkKey s t) k) as [<- |]; [| lia].
        exfalso. apply Hnew. change (Sankey.linkKey s t) with (fst (Sankey.linkKey s t, e)).
        now apply in_map.
      * injection E as <- <-. simpl.
        split; [reflexivity |]. split; [apply in_elt |].
        rewrite key_count_app, Hzero. simpl. now rewrite String.eqb_refl.
    + intros o Ho. rewrite map_app, in_app_iff.
      apply in_app_or in Ho as [Ho | [<- | []]]; [left; now apply Hcover |].
      right. now left.
Qed.

Lemma visit_links (st : State) (d : Sankey.DataType) :
  visit st d =
  addLink d
    (addLink d
       (addLink d st (Sankey.nodeName "EducationLevel" d) (Sankey.nodeName "PaymentHistory" d))
       (Sankey.nodeName "PaymentHistory" d) (Sankey.nodeName "Income" d))
    (Sankey.nodeName "Income" d) (Sankey.nodeName "RiskRating" d).
Proof. reflexivity. Qed.

Lemma pairs_unfold (d : Sankey.DataType) :
  Sankey.pairs d =
  [ (Sankey.nodeName "EducationLevel" d, Sankey.nodeName "PaymentHistory" d);
    (Sankey.nodeName "PaymentHistory" d, Sankey.nodeName "Income" d);
    (Sankey.nodeName "Income" d, Sankey.nodeName "RiskRating" d) ].
Proof. reflexivity. Qed.

Lemma snoc3 {X : Type} (l : list X) (a b c : X) :
  l ++ [a; b; c] = ((l ++ [a]) ++ [b]) ++ [c].
Proof. now rewrite <- !app_assoc. Qed.

Lemma visit_invariant (st : State) (occs : list (string * string)) (d : Sankey.DataType) :
  Sankey.Invariant st occs -> Sankey.Invariant (visit st d) (occs ++ Sankey.pairs d).
Proof.
  intros Hinv. rewrite visit_links, pairs_unfold, snoc3.
  now apply addLink_invariant, addLink_invariant, addLink_invariant.
Qed.

Lemma fold_invariant (data : list Sankey.DataType) (st : State)
    (occs : list (string * string)) :
  Sankey.Invariant st occs ->
  Sankey.Invariant (fold_left visit data st) (occs ++ Sankey.occurrences data).
Proof.
  revert st occs. induction data as [| d data IH]; intros st occs Hinv.
  - simpl. now rewrite app_nil_r.
  - change (Sankey.occurrences (d :: data))
      with (Sankey.pairs d ++ Sankey.occurrences data).
    rewrite app_assoc. apply IH. now apply visit_invariant.
Qed.

Lemma build_invariant (data : list Sankey.DataType) :
  Sankey.Invariant (build data) (Sankey.occurrences data).
Proof. apply (fold_invariant data Sankey.empty []), empty_invariant. Qed.
End BuilderInvariant.

(** ** Node indices *)

Section SetFacts.
Context {V : Type}.

Lemma set_get_same (k : string) (v : V) (m : list (string * V)) :
  D3.get string_dec k (D3.set string_dec k v m) = Some v.
Proof.
  induction m as [| [k' v'] rest IH]; simpl.
  - destruct (string_dec k k); congruence.
  - destruct (string_dec k k') as [<- | Hne]; simpl.
    + destruct (string_dec k k); congruence.
    + destruct (string_dec k k'); congruence.
Qed.

Lemma set_get_other (k k' : string) (v : V) (m : list (string * V)) :
  k <> k' -> D3.get string_dec k' (D3.set string_dec k v m) = D3.get string_dec k' m.
Proof.
  intros Hne. induction m as [| [k0 v0] rest IH]; simpl.
  - destruct (string_dec k' k); congruence.
  - destruct (string_dec k k0) as [<- | Hne0]; simpl.
    + destruct (string_dec k' k); congruence.
    + destruct (string_dec k' k0); congruence.
Qed.
End SetFacts.

Lemma names_of_nodes {extra : Type} (st : @Sankey.State extra) :
  map Sankey.name (Sankey.nodes st) = Sankey.nodesSet st.
Proof.
  unfold Sankey.nodes. rewrite map_map. simpl. apply map_id.
Qed.

Section NodeMapFacts.

Local Abbreviation register :=
  (fun (m : list (string * nat)) (entry : Sankey.Node * nat) =>
     D3.set string_dec (Sankey.name (fst entry)) (snd entry) m).

Lemma register_absent (x : string) (l : list Sankey.Node) (a : nat)
    (m0 : list (string * nat)) :
  ~ In x (map Sankey.name l) ->
  D3.get string_dec x (fold_left register (combine l (seq a (List.length l))) m0) =
  D3.get string_dec x m0.
Proof.
  revert a m0. induction l as [| nd l IH]; intros a m0 Hnot; simpl; [reflexivity |].
  rewrite IH.
  - apply set_get_other. intros E. apply Hnot. now left.
  - intros Hin. apply Hnot. now right.
Qed.

Lemma register_index (x : string) (l : list Sankey.Node) (a i : nat)
    (m0 : list (string * nat)) :
  NoDup (map Sankey.name l) ->
  nth_error (map Sankey.name l) i = Some x ->
  D3.get string_dec x (fold_left register (combine l (seq a (List.length l))) m0) =
  Some (a + i)%nat.
Proof.
  revert a i m0. induction l as [| nd l IH]; intros a i m0 Hnd Hnth.
  - destruct i; discriminate.
  - simpl in Hnd. inversion Hnd as [| ? ? Hnotin Hnd']; subst.
    destruct i as [| i]; simpl in *.
    + injection Hnth as <-. rewrite register_absent by exact Hnotin.
      rewrite set_get_same. f_equal. lia.
    + rewrite (IH (S a) i) by assumption. f_equal. lia.
Qed.

Lemma nodeMap_index (x : string) (l : list Sankey.Node) (i : nat) :
  NoDup (map Sankey.name l) ->
  (D3.get string_dec x (Sankey.nodeMap l) = Some i <->
   nth_error (map Sankey.name l) i = Some x).
Proof.
  intros Hnd. unfold Sankey.nodeMap. split.
  - intros Hget.
    destruct (in_dec string_dec x (map Sankey.name l)) as [Hin | Hnot].
    + apply In_nth_error in Hin as (j & Hj).
      rewrite (register_index x l 0 j [] Hnd Hj) in Hget.
      injection Hget as <-. exact Hj.
    + rewrite register_absent in Hget by exact Hnot. discriminate.
  - intros Hnth. now rewrite (register_index x l 0 i [] Hnd Hnth).
Qed.
End NodeMapFacts.

(** ** Weights per source node *)

Section WeightFacts.
Context {extra : Type} (passthrough : Sankey.DataType -> extra).

Local Abbreviation State := (@Sankey.State extra).
Local Abbreviation addLink := (Sankey.addLink passthrough).
Local Abbreviation visit := (Sankey.visit passthrough).
Local Abbreviation build := (Sankey.build passthrough).
Local Abbreviation plain := (fun o : string * string => Sankey.has_arrow (fst o) = false).

Lemma addLink_weight (d : Sankey.DataType) (st : State)
    (occs : list (string * string)) (s t n : string) :
  Sankey.Invariant st occs -> Forall plain occs -> Sankey.has_arrow s = false ->
  Sankey.weightFrom n (Sankey.linksMap (addLink d st s t)) =
  (Sankey.weightFrom n (Sankey.linksMap st) + if String.eqb s n then 1 else 0)%nat.
Proof.
  intros (_ & _ & _ & Hentries & _) Hplain Hs.
  unfold Sankey.addLink. cbn [Sankey.linksMap].
  unfold D3.has.
  destruct (D3.get string_dec (Sankey.linkKey s t) (Sankey.linksMap st)) as [e0 |] eqn:Hget.
  - rewrite (increment_weight _ _ e0) by exact Hget.
    destruct (Hentries _ _ (get_In string_dec _ _ _ Hget)) as (Hkey & Hocc & _).
    rewrite Forall_forall in Hplain. specialize (Hplain _ Hocc). simpl in Hplain.
    destruct (linkKey_inj _ _ _ _ Hs Hplain Hkey) as [-> _]. reflexivity.
  - rewrite append_weight. reflexivity.
Qed.

Lemma visit_weight (d : Sankey.DataType) (st : State)
    (occs : list (string * string)) (n : string) :
  Sankey.Invariant st occs -> Forall plain occs -> Sankey.arrow_free d = true ->
  Sankey.weightFrom n (Sankey.linksMap (visit st d)) =
  (Sankey.weightFrom n (Sankey.linksMap st) + Sankey.source_count n (Sankey.pairs d))%nat.
Proof.
  intros Hinv Hplain Hfree.
  assert (Hsrc : Forall plain (Sankey.pairs d)).
  { apply Forall_forall. intros o Ho. eapply source_arrow_free; eauto. }
  rewrite visit_links. rewrite pairs_unfold in Hsrc |- *.
  inversion Hsrc as [| o1 l1 H1 Hsrc1]; subst.
  inversion Hsrc1 as [| o2 l2 H2 Hsrc2]; subst.
  inversion Hsrc2 as [| o3 l3 H3 _]; subst.
  simpl in H1, H2, H3.
  set (a := Sankey.nodeName "EducationLevel" d) in *.
  set (b := Sankey.nodeName "PaymentHistory" d) in *.
  set (c := Sankey.nodeName "Income" d) in *.
  set (e := Sankey.nodeName "RiskRating" d) in *.
  assert (Hinv1 := addLink_invariant passthrough d st occs a b Hinv).
  assert (Hinv2 := addLink_invariant passthrough d _ _ b c Hinv1).
  assert (Hp1 : Forall plain (occs ++ [(a, b)]))
    by (apply Forall_app; split; [exact Hplain | now constructor]).
  assert (Hp2 : Forall plain ((occs ++ [(a, b)]) ++ [(b, c)]))
    by (apply Forall_app; split; [exact Hp1 | now constructor]).
  rewrite (addLink_weight d _ _ c e n Hinv2 Hp2 H3).
  rewrite (addLink_weight d _ _ b c n Hinv1 Hp1 H2).
  rewrite (addLink_weight d _ _ a b n Hinv Hplain H1).
  clearbody a b c e. unfold Sankey.source_count. simpl.
  destruct (String.eqb a n), (String.eqb b n), (String.eqb c n); simpl; lia.
Qed.

Lemma fold_weight (data : list Sankey.DataType) (st : State)
    (occs : list (string * string)) (n : string) :
  Sankey.Invariant st occs -> Forall plain occs ->
  forallb Sankey.arrow_free data = true ->
  Sankey.weightFrom n (Sankey.linksMap (fold_left visit data st)) =
  (Sankey.weightFrom n (Sankey.linksMap st) +
   Sankey.source_count n (Sankey.occurrences data))%nat.
Proof.
  revert st occs. induction data as [| d data IH]; intros st occs Hinv Hplain Hfree.
  - simpl. unfold Sankey.source_count. simpl. lia.
  - simpl in Hfree. apply andb_true_iff in Hfree as [Hd Hfree].
    change (Sankey.occurrences (d :: data))
      with (Sankey.pairs d ++ Sankey.occurrences data).
    rewrite source_count_app. simpl fold_left.
    rewrite (IH (visit st d) (occs ++ Sankey.pairs d)).
    + rewrite (visit_weight d st occs n Hinv Hplain Hd). lia.
    + now apply visit_invariant.
    + apply Forall_app. split; [exact Hplain |].
      apply Forall_forall. intros o Ho. eapply source_arrow_free; eauto.
    + exact Hfree.
Qed.

Lemma build_weight (data : list Sankey.DataType) (n : string) :
  forallb Sankey.arrow_free data = true ->
  Sankey.weightFrom n (Sankey.linksMap (build data)) =
  Sankey.source_count n (Sankey.occurrences data).
Proof.
  intros Hfree.
  apply (fold_weight data Sankey.empty [] n (empty_invariant) (Forall_nil _) Hfree).
Qed.

(** A row passes once through the node of its value in each dimension
    but the last. *)
Lemma through_count (dim v : string) (data : list Sankey.DataType) :
  In dim (removelast Sankey.dimensions) ->
  Sankey.source_count (dim ++ "_" ++ v) (Sankey.occurrences data) =
  Sankey.rowsThrough dim v data.
Proof.
  intros Hdim. induction data as [| d data IH]; [reflexivity |].
  change (Sankey.occurrences (d :: data))
    with (Sankey.pairs d ++ Sankey.occurrences data).
  rewrite source_count_app, IH.
  unfold Sankey.rowsThrough, Sankey.source_count. rewrite pairs_unfold.
  simpl in Hdim. destruct Hdim as [<- | [<- | [<- | []]]]; simpl;
    match goal with
    | |- context [String.eqb ?x v] => destruct (String.eqb x v); reflexivity
    end.
Qed.

Lemma outWeight_map (index : string -> option nat)
    (m : list (string * @Sankey.LinkEntry extra)) (i : nat) (n : string) :
  (forall s, match index s with
             | Some j => Nat.eqb j i
             | None => false
             end = String.eqb s n) ->
  Sankey.outWeight i
    (map (fun entry =>
            {| Sankey.sourceIndex := index (Sankey.source (snd entry));
               Sankey.targetIndex := index (Sankey.target (snd entry));
               Sankey.weight := Sankey.value (snd entry);
               Sankey.carried := Sankey.riskRating (snd entry) |}) m) =
  Sankey.weightFrom n m.
Proof.
  intros Hsame. unfold Sankey.outWeight, Sankey.weightFrom.
  induction m as [| [k e] rest IH]; [reflexivity |].
  simpl. rewrite Hsame.
  destruct (String.eqb (Sankey.source e) n); simpl; now rewrite IH.
Qed.

Lemma outWeight_by_name (st : State) (i : nat) (n : string) :
  NoDup (Sankey.nodesSet st) ->
  nth_error (Sankey.nodesSet st) i = Some n ->
  Sankey.outWeight i (Sankey.links st) = Sankey.weightFrom n (Sankey.linksMap st).
Proof.
  intros Hnd Hnth.
  assert (Hnames : NoDup (map Sankey.name (Sankey.nodes st)))
    by now rewrite names_of_nodes.
  apply (outWeight_map
           (fun s => D3.get string_dec s (Sankey.nodeMap (Sankey.nodes st)))).
  intros s.
  destruct (D3.get string_dec s (Sankey.nodeMap (Sankey.nodes st))) as [j |] eqn:Hget.
  - apply (nodeMap_index _ _ _ Hnames) in Hget. rewrite names_of_nodes in Hget.
    destruct (Nat.eqb_spec j i) as [-> | Hji].
    + symmetry. apply String.eqb_eq. congruence.
    + symmetry. apply String.eqb_neq. intros E. apply Hji.
      apply (proj1 (NoDup_nth_error _) Hnd).
      * apply nth_error_Some. congruence.
      * congruence.
  - symmetry. apply String.eqb_neq. intros E.
    rewrite <- E, <- names_of_nodes in Hnth.
    apply (nodeMap_index _ _ _ Hnames) in Hnth. congruence.
Qed.
End WeightFacts.

(** ** Identity of nodes and edges *)

Lemma occurrence_ends (data : list Sankey.DataType) (n : string) :
  (exists o, In o (Sankey.occurrences data) /\ (n = fst o \/ n = snd o)) <->
  (exists d dim, In d data /\ In dim Sankey.dimensions /\ n = Sankey.nodeName dim d).
Proof.
  unfold Sankey.occurrences. split.
  - intros (o & Ho & Hn). apply in_flat_map in Ho as (d & Hd & Ho).
    rewrite pairs_unfold in Ho. exists d.
    destruct Ho as [<- | [<- | [<- | []]]]; destruct Hn as [-> | ->]; simpl;
      match goal with
      | |- exists dim, _ /\ _ /\ Sankey.nodeName ?x d = _ =>
          exists x; split; [exact Hd | split; [simpl; tauto | reflexivity]]
      end.
  - intros (d & dim & Hd & Hdim & ->).
    simpl in Hdim. destruct Hdim as [<- | [<- | [<- | [<- | []]]]].
    + exists (Sankey.nodeName "EducationLevel" d, Sankey.nodeName "PaymentHistory" d).
      split; [apply in_flat_map; exists d; split; [exact Hd | simpl; tauto] | now left].
    + exists (Sankey.nodeName "EducationLevel" d, Sankey.nodeName "PaymentHistory" d).
      split; [apply in_flat_map; exists d; split; [exact Hd | simpl; tauto] | now right].
    + exists (Sankey.nodeName "Income" d, Sankey.nodeName "RiskRating" d).
      split; [apply in_flat_map; exists d; split; [exact Hd | simpl; tauto] | now left].
    + exists (Sankey.nodeName "Income" d, Sankey.nodeName "RiskRating" d).
      split; [apply in_flat_map; exists d; split; [exact Hd | simpl; tauto] | now right].
Qed.

Lemma key_count_pair (s t : string) (occs : list (string * string)) :
  Forall (fun o => Sankey.has_arrow (fst o) = false) occs ->
  Sankey.has_arrow s = false ->
  Sankey.key_count (Sankey.linkKey s t) occs = Sankey.pair_count s t occs.
Proof.
  intros Hplain Hs. unfold Sankey.key_count, Sankey.pair_count. f_equal.
  apply filter_ext_in. intros o Ho.
  rewrite Forall_forall in Hplain.
  apply linkKey_eqb; [now apply Hplain | exact Hs].
Qed.

Section GraphFacts.
Context {extra : Type} (passthrough : Sankey.DataType -> extra).

Local Abbreviation build := (Sankey.build passthrough).
Local Abbreviation plain := (fun o : string * string => Sankey.has_arrow (fst o) = false).

Lemma edges_identified (data : list Sankey.DataType) :
  forallb Sankey.arrow_free data = true -> Sankey.edges_by_pair passthrough data.
Proof.
  intros Hfree.
  pose proof (sources_arrow_free data Hfree) as Hplain.
  destruct (build_invariant passthrough data) as (_ & _ & Hkeys & Hentries & Hcover).
  unfold Sankey.edges_by_pair. cbv zeta.
  split; [| split].
  - apply (NoDup_map_inv (fun p => Sankey.linkKey (fst p) (snd p))).
    rewrite !map_map.
    erewrite map_ext_in; [exact Hkeys |].
    intros [k e] Hin. simpl. symmetry. now apply Hentries.
  - intros e He. apply in_map_iff in He as ([k e'] & <- & Hin). simpl.
    now apply (Hentries k e').
  - intros s t Hocc.
    pose proof (Hcover _ Hocc) as Hkey. simpl in Hkey.
    apply in_map_iff in Hkey as ([k e] & Hk & Hin). simpl in Hk. subst k.
    destruct (Hentries _ _ Hin) as (Hkey & Hocc' & Hval).
    rewrite Forall_forall in Hplain.
    pose proof (Hplain _ Hocc) as Hs. pose proof (Hplain _ Hocc') as Hs'. simpl in Hs, Hs'.
    destruct (linkKey_inj _ _ _ _ Hs Hs' Hkey) as [-> ->].
    exists e. split; [apply in_map_iff; now exists (Sankey.linkKey (Sankey.source e) (Sankey.target e), e) |].
    repeat split. rewrite Hval. apply key_count_pair; [| exact Hs].
    now apply Forall_forall.
Qed.

End GraphFacts.

(** C3 is not met when a category value contains ["->"].  The two rows
    of [Examples.colliding] run along two different pairs of nodes, once
    each, and the link keys of the two pairs are the same string.  The
    builder makes one link for both, from node 0 to node 1 with weight
    two, and no link leaves node 4, the source of the second pair: the
    edges are not identified by the ordered pair of node keys.  The
    Sankey plot builds its links in the same way. *)
Theorem colliding_keys_merge_edges :
  let occs := Sankey.occurrences Examples.colliding in
  let first := ("EducationLevel_x", "PaymentHistory_y->PaymentHistory_z") in
  let second := ("EducationLevel_x->PaymentHistory_y", "PaymentHistory_z") in
  Sankey.pair_count (fst first) (snd first) occs = 1%nat /\
  Sankey.pair_count (fst second) (snd second) occs = 1%nat /\
  Sankey.linkKey (fst first) (snd first) = Sankey.linkKey (fst second) (snd second) /\
  map Sankey.name (fst (Sankey.parallelGraph Examples.colliding)) =
    [ "EducationLevel_x"; "PaymentHistory_y->PaymentHistory_z"; "Income_< 20K";
      "RiskRating_Low"; "EducationLevel_x->PaymentHistory_y"; "PaymentHistory_z" ] /\
  map (fun l => (Sankey.sourceIndex l, Sankey.targetIndex l, Sankey.weight l))
      (snd (Sankey.parallelGraph Examples.colliding)) =
    [ (Some 0, Some 1, 2); (Some 1, Some 2, 1);
      (Some 2, Some 3, 2); (Some 5, Some 2, 1) ]%nat /\
  map (fun l => (Sankey.sourceIndex l, Sankey.targetIndex l, Sankey.weight l))
      (snd (Sankey.sankeyGraph "All" Examples.colliding)) =
    [ (Some 0, Some 1, 2); (Some 1, Some 2, 1);
      (Some 2, Some 3, 2); (Some 5, Some 2, 1) ]%nat /\
  ~ Sankey.edges_by_pair (fun _ => tt) Examples.colliding.
Proof.
  intros occs first second.
  do 6 (split; [vm_compute; reflexivity |]).
  intros (_ & _ & Hall).
  destruct (Hall "EducationLevel_x->PaymentHistory_y" "PaymentHistory_z")
    as (e & Hin & Hsource & _).
  - vm_compute. tauto.
  - vm_compute in Hin.
    destruct Hin as [<- | [<- | [<- | [<- | []]]]]; discriminate Hsource.
Qed.

(** X21: what the builder does fulfil of the identity of nodes and
    edges.  A node is identified by its key [dimension + "_" + value]:
    the node set has no duplicates, holds exactly the keys of the values
    of the rows, and a key determines its dimension and value.  The link
    map has one entry per link key, whose weight is the number of
    occurrences of the key.  When no education level, payment history
    or income value contains ["->"], there is exactly one edge per pair
    of node keys that occurs and its weight is the number of occurrences
    of the pair. *)
Theorem flow_graph_identity {extra : Type} (passthrough : Sankey.DataType -> extra)
    (data : list Sankey.DataType) :
  let st := Sankey.build passthrough data in
  (NoDup (Sankey.nodesSet st) /\
   map Sankey.name (fst (Sankey.graph passthrough data)) = Sankey.nodesSet st /\
   (forall n, In n (Sankey.nodesSet st) <->
      exists d dim, In d data /\ In dim Sankey.dimensions /\ n = Sankey.nodeName dim d) /\
   (forall dim dim' v v',
      In dim Sankey.dimensions -> In dim' Sankey.dimensions ->
      (dim ++ "_" ++ v)%string = (dim' ++ "_" ++ v')%string -> dim = dim' /\ v = v')) /\
  (NoDup (map fst (Sankey.linksMap st)) /\
   (forall k e, In (k, e) (Sankey.linksMap st) ->
      k = Sankey.linkKey (Sankey.source e) (Sankey.target e) /\
      In (Sankey.source e, Sankey.target e) (Sankey.occurrences data) /\
      Sankey.value e = Sankey.key_count k (Sankey.occurrences data)) /\
   (forall o, In o (Sankey.occurrences data) ->
      In (Sankey.linkKey (fst o) (snd o)) (map fst (Sankey.linksMap st)))) /\
  (forallb Sankey.arrow_free data = true -> Sankey.edges_by_pair passthrough data).
Proof.
  intros st.
  destruct (build_invariant passthrough data) as (Hnd & Hnodes & Hkeys & Hentries & Hcover).
  split; [| split].
  - split; [exact Hnd |].
    split; [apply names_of_nodes |].
    split; [| exact nodeKey_inj].
    intros n. unfold st. rewrite Hnodes. apply occurrence_ends.
  - split; [exact Hkeys |]. split; [exact Hentries | exact Hcover].
  - apply edges_identified.
Qed.

(** Ordinary rows: edges are identified by their node pairs. *)
Lemma flow_graph_identity_applicants :
  Sankey.edges_by_pair (fun _ => tt) Examples.applicants.
Proof.
  apply (proj2 (proj2 (flow_graph_identity (fun _ => tt) Examples.applicants))).
  reflexivity.
Defined.

(** C5 is not met on [Examples.colliding], by the defect shown for C3:
    one row passes through the node ["EducationLevel_x"], of index 0,
    but the weight of the links that leave it is two; one row passes
    through the node ["EducationLevel_x->PaymentHistory_y"], of index 4,
    and no link leaves it. *)
Theorem colliding_keys_shift_weight :
  let g := Sankey.parallelGraph Examples.colliding in
  option_map Sankey.name (nth_error (fst g) 0) = Some "EducationLevel_x" /\
  Sankey.outWeight 0 (snd g) = 2%nat /\
  Sankey.rowsThrough "EducationLevel" "x" Examples.colliding = 1%nat /\
  option_map Sankey.name (nth_error (fst g) 4)
    = Some "EducationLevel_x->PaymentHistory_y" /\
  Sankey.outWeight 4 (snd g) = 0%nat /\
  Sankey.rowsThrough "EducationLevel" "x->PaymentHistory_y" Examples.colliding = 1%nat /\
  ~ Sankey.source_weights_conserved (fun _ => tt) Examples.colliding.
Proof.
  intros g.
  do 6 (split; [vm_compute; reflexivity |]).
  intros Hall.
  specialize (Hall 0%nat
                {| Sankey.name := "EducationLevel_x";
                   Sankey.dimension := Some "EducationLevel";
                   Sankey.category := Some "x" |}
                "EducationLevel" "x" eq_refl (or_introl eq_refl) eq_refl).
  vm_compute in Hall. discriminate Hall.
Qed.

(** X22: when no education level, payment history or income value
    contains ["->"], the weights of the links that leave a node of any
    dimension but the last add up to the number of rows whose value in
    that dimension is the node's; this holds for the graph of all rows
    and for the graph of the rows kept by the risk filter. *)
Theorem source_weights_match_rows {extra : Type} (passthrough : Sankey.DataType -> extra)
    (data : list Sankey.DataType) :
  forallb Sankey.arrow_free data = true ->
  Sankey.source_weights_conserved passthrough data.
Proof.
  intros Hfree i node dim v Hnth Hdim Hname.
  unfold Sankey.graph in *. cbn [fst snd] in *.
  destruct (build_invariant passthrough data) as (Hnd & _).
  assert (Hnth' : nth_error (Sankey.nodesSet (Sankey.build passthrough data)) i
                  = Some (Sankey.name node)).
  { rewrite <- names_of_nodes. now apply map_nth_error. }
  rewrite (outWeight_by_name _ i (Sankey.name node) Hnd Hnth').
  rewrite (build_weight passthrough data _ Hfree), Hname.
  now apply through_count.
Qed.

(** Ordinary rows: the weights match the rows, with and without the
    risk filter. *)
Lemma source_weights_applicants :
  forallb Sankey.arrow_free Examples.applicants = true /\
  Sankey.outWeight 0 (snd (Sankey.graph (fun _ => tt) Examples.applicants)) = 2%nat /\
  Sankey.source_weights_conserved Sankey.RiskRating
    (Sankey.filteredData "Medium" Examples.applicants).
Proof.
  split; [reflexivity |]. split.
  - exact (source_weights_match_rows (fun _ => tt) Examples.applicants eq_refl 0%nat
             {| Sankey.name := "EducationLevel_PhD";
                Sankey.dimension := Some "EducationLevel";
                Sankey.category := Some "PhD" |}
             "EducationLevel" "PhD" eq_refl (or_introl eq_refl) eq_refl).
  - apply source_weights_match_rows. reflexivity.
Defined.

(** ** Empty input *)

(** C9: without rows the aggregate is the empty mapping, so are the bar
    charts' aggregate and mean table, and the graph of either flow plot
    has no node and no link, whatever the risk filter. *)
Theorem empty_input_empty_output :
  (forall (num : Type) (arith : JsArith num) (A K1 K2 : Type)
          (K1_dec : forall x y : K1, {x = y} + {x <> y})
          (K2_dec : forall x y : K2, {x = y} + {x <> y})
          (valueof : A -> num) (key1 : A -> K1) (key2 : A -> K2),
     Aggregator.aggregate K1_dec K2_dec [] valueof key1 key2 = []) /\
  (forall (num : Type) (arith : JsArith num),
     BarChartOverview.aggregatedData (num := num) [] = [] /\
     BarChartOverview.stackedData (num := num) [] = [] /\
     BarChartOverview2.aggregatedData (num := num) [] = [] /\
     BarChartOverview2.stackedData (num := num) [] = []) /\
  (forall (extra : Type) (passthrough : Sankey.DataType -> extra),
     Sankey.graph passthrough [] = ([], [])) /\
  Sankey.parallelGraph [] = ([], []) /\
  (forall filter, Sankey.sankeyGraph filter [] = ([], [])).
Proof.
  split; [reflexivity |].
  split; [intros num arith; repeat split |].
  split; [reflexivity |].
  split; [reflexivity |].
  intros filter. unfold Sankey.sankeyGraph, Sankey.filteredData.
  now destruct (String.eqb filter "All").
Qed.

(** * Further properties of the components *)

(** ** Loaded records *)

Lemma overview_age_in_universe (v : number) :
  In (BarChartOverview.categorizeAge v) BarChartOverview.ageCategories.
Proof.
  unfold BarChartOverview.categorizeAge.
  repeat match goal with
         | |- context [if ?c then _ else _] => destruct c
         end; simpl; tauto.
Qed.

Lemma income_in_universe (v : number) :
  In (Sankey.assignIncomeToRange v) Sankey.incomeRanges.
Proof.
  unfold Sankey.assignIncomeToRange.
  repeat match goal with
         | |- context [if ?c then _ else _] => destruct c
         end; simpl; tauto.
Qed.

(** X1: whatever the file holds, the age group of every loaded person is
    one of the six categories of the chart, so the categories kept for
    the x axis are exactly the age groups of the aggregate and of the
    mean table: every stacked bar has a band. *)
Theorem overview_axis_covers_bars (ToNumber : string -> number) (file : list Js.DSVRow) :
  let data := BarChartOverview.load ToNumber file in
  (forall d, In d data -> In (BarChartOverview.Age d) BarChartOverview.ageCategories) /\
  (forall age, In age (BarChartOverview.ageCategoriesInData data) <->
               In age (map fst (BarChartOverview.aggregatedData data))) /\
  (forall age, In age (map fst (BarChartOverview.stackedData data)) ->
               In age (BarChartOverview.ageCategoriesInData data)).
Proof.
  intros data.
  assert (Hload : forall d, In d data ->
                    In (BarChartOverview.Age d) BarChartOverview.ageCategories).
  { intros d Hd. apply csv_In in Hd as (raw & _ & Hrow).
    unfold BarChartOverview.row in Hrow. injection Hrow as <-. simpl.
    apply overview_age_in_universe. }
  assert (Haxis : forall age, In age (BarChartOverview.ageCategoriesInData data) <->
                              In age (map fst (BarChartOverview.aggregatedData data))).
  { intros age. unfold BarChartOverview.ageCategoriesInData. rewrite filter_In.
    unfold D3.has.
    destruct (D3.get string_dec age (BarChartOverview.aggregatedData data)) eqn:E.
    - apply get_In in E.
      assert (Hkey : In age (map fst (BarChartOverview.aggregatedData data)))
        by (change age with (fst (age, l)); now apply in_map).
      split; [intros _; exact Hkey | intros _; split; [| reflexivity]].
      apply (aggregate_keys string_dec BarChartOverview.risk_dec) in Hkey
        as (d & Hd & <-).
      now apply Hload.
    - apply (get_None string_dec) in E. split; [intros [_ Hf]; discriminate | contradiction]. }
  split; [exact Hload |]. split; [exact Haxis |].
  intros age Hin. apply Haxis. now rewrite <- stacked_keys.
Qed.

Lemma sankey_loaded_rows_labelled (ToNumber : string -> number) (file : list Js.DSVRow)
    (r : Sankey.DataType) :
  In r (Sankey.load ToNumber file) -> In (Sankey.Income r) Sankey.incomeRanges.
Proof.
  intros Hr. apply csv_In in Hr as (d & _ & Hrow).
  unfold Sankey.row in Hrow.
  match type of Hrow with
  | (if ?c then _ else _) = _ => destruct c; [| discriminate]
  end.
  destruct (Js.field d "Education Level"); [| discriminate].
  destruct (Js.field d "Payment History"); [| discriminate].
  destruct (Js.field d "Risk Rating"); [| discriminate].
  injection Hrow as <-. apply income_in_universe.
Qed.

(** X2: every record loaded for the flow plots has a non-empty
    education level, payment history and risk rating, and its income is
    one of the five range labels. *)
Theorem sankey_loaded_records (ToNumber : string -> number) (file : list Js.DSVRow) :
  Forall (fun r => Sankey.EducationLevel r <> "" /\
                   Sankey.PaymentHistory r <> "" /\
                   Sankey.RiskRating r <> "" /\
                   In (Sankey.Income r) Sankey.incomeRanges)
         (Sankey.load ToNumber file).
Proof.
  apply Forall_forall. intros r Hr.
  apply csv_In in Hr as (d & _ & Hrow).
  unfold Sankey.row in Hrow.
  destruct (Js.field d "Education Level") as [e |]; simpl in Hrow; [| discriminate].
  destruct (Js.field d "Payment History") as [p |]; simpl in Hrow;
    [| rewrite andb_false_r in Hrow; discriminate].
  destruct (Js.field d "Risk Rating") as [k |]; simpl in Hrow;
    [| rewrite !andb_false_r in Hrow; discriminate].
  destruct (String.eqb_spec e ""); simpl in Hrow; [discriminate |].
  destruct (String.eqb_spec p ""); simpl in Hrow; [discriminate |].
  destruct (String.eqb_spec k ""); simpl in Hrow;
    [rewrite andb_false_r in Hrow; discriminate |].
  rewrite andb_true_r in Hrow.
  match type of Hrow with
  | (if ?c then _ else _) = _ => destruct c; [| discriminate]
  end.
  injection Hrow as <-. simpl.
  repeat split; try assumption. apply income_in_universe.
Qed.

(** X3: every record loaded for the hexbin plot has a credit score
    within [600, 800], a positive income, no NaN among its four numbers
    and a non-empty risk rating. *)
Theorem hexbin_loaded_records (ToNumber : string -> number) (file : list Js.DSVRow) :
  Forall (fun r => (HexbinPlot.CreditScore r >= int 600)%js = true /\
                   (HexbinPlot.CreditScore r <= int 800)%js = true /\
                   (HexbinPlot.Income r > int 0)%js = true /\
                   isNaN (HexbinPlot.CreditScore r) = false /\
                   isNaN (HexbinPlot.Income r) = false /\
                   isNaN (HexbinPlot.DebtToIncomeRatio r) = false /\
                   isNaN (HexbinPlot.Age r) = false /\
                   HexbinPlot.RiskRating r <> "")
         (HexbinPlot.load ToNumber file).
Proof.
  apply Forall_forall. intros r Hr.
  apply csv_In in Hr as (d & _ & Hrow).
  assert (Hsome : HexbinPlot.row ToNumber d <> None) by congruence.
  apply hexbin_row_accepts in Hsome as (Hc & Hi & Hd & Ha & Hlo & Hhi & Hpos & Hrisk).
  unfold Loader.numeric, Loader.present in *.
  apply negb_true_iff in Hc, Hi, Hd, Ha.
  unfold HexbinPlot.row in Hrow.
  rewrite Hc, Hi, Hd, Ha, Hlo, Hhi, Hpos, Hrisk in Hrow. simpl in Hrow.
  destruct (Js.field d "Risk Rating") as [k |]; [| discriminate].
  injection Hrow as <-. simpl.
  repeat split; try assumption.
  simpl in Hrisk. intros ->. discriminate.
Qed.

(** ** The age window of the hexbin plot *)

Lemma leb_int_int (a b : Z) : leb (int a) (int b) = (a <=? b)%Z.
Proof.
  unfold leb, int. rewrite !this_int.
  destruct (Z.leb_spec a b) as [L | L].
  - apply Qle_bool_iff. now rewrite <- Zle_Qle.
  - destruct (Qle_bool (inject_Z a) (inject_Z b)) eqn:E; [| reflexivity].
    apply Qle_bool_iff in E. rewrite <- Zle_Qle in E. lia.
Qed.

(** X4: the age-group index advanced by the timer cycles through the
    five groups: after [n] ticks from the initial index 0 it is
    [n mod 5], it always selects a group of the table, so the window
    filter never reads an undefined group, and five ticks bring it back. *)
Theorem age_group_index_cycles (n : nat) :
  Nat.iter n HexbinPlot.nextAgeGroupIndex 0%nat = Nat.modulo n 5 /\
  (exists g, HexbinPlot.currentAgeGroup (Nat.iter n HexbinPlot.nextAgeGroupIndex 0%nat)
             = Some g) /\
  (forall data, HexbinPlot.filteredData
                  (Nat.iter n HexbinPlot.nextAgeGroupIndex 0%nat) data <> None) /\
  Nat.iter (n + 5) HexbinPlot.nextAgeGroupIndex 0%nat =
  Nat.iter n HexbinPlot.nextAgeGroupIndex 0%nat.
Proof.
  assert (Hiter : forall m, Nat.iter m HexbinPlot.nextAgeGroupIndex 0%nat = Nat.modulo m 5).
  { induction m as [| m IH]; [reflexivity |].
    simpl Nat.iter. rewrite IH. unfold HexbinPlot.nextAgeGroupIndex.
    change (List.length HexbinPlot.ageGroups) with 5%nat.
    rewrite Nat.Div0.add_mod_idemp_l. f_equal. lia. }
  assert (Hsome : exists g, HexbinPlot.currentAgeGroup
                              (Nat.iter n HexbinPlot.nextAgeGroupIndex 0%nat) = Some g).
  { rewrite Hiter. unfold HexbinPlot.currentAgeGroup.
    destruct (nth_error HexbinPlot.ageGroups (Nat.modulo n 5)) as [g |] eqn:E;
      [now exists g |].
    apply nth_error_None in E. change (List.length HexbinPlot.ageGroups) with 5%nat in E.
    pose proof (Nat.mod_upper_bound n 5). lia. }
  split; [apply Hiter |]. split; [exact Hsome |]. split.
  - intros data. unfold HexbinPlot.filteredData.
    destruct Hsome as (g & ->). discriminate.
  - rewrite !Hiter. rewrite <- (Nat.Div0.add_mod_idemp_r n 5 5).
    rewrite Nat.Div0.mod_same, Nat.add_0_r. reflexivity.
Qed.

(** Decides the comparisons of the goal one at a time and drops a
    combination as soon as it is contradictory. *)
Ltac order_step :=
  match goal with
  | |- context [Qle_bool ?a ?b] =>
      let E := fresh "E" in
      destruct (Qle_bool a b) eqn:E;
      [apply Qle_bool_iff in E | apply Qle_bool_false in E];
      unfold inject_Z in E; simpl in E; try (exfalso; lra)
  end.

Lemma window_count_le (v : number) :
  (List.length (filter (fun g => HexbinPlot.inAgeGroup g v) HexbinPlot.ageGroups) <= 1)%nat.
Proof.
  unfold HexbinPlot.ageGroups, HexbinPlot.inAgeGroup.
  cbn [filter HexbinPlot.min HexbinPlot.max].
  destruct v as [| | q |]; try (simpl; lia).
  unfold geb. rewrite ?leb_int_Fin, ?leb_Fin_int.
  repeat order_step; simpl; lia.
Qed.

Lemma window_nth_filter (i : nat) (g : HexbinPlot.AgeGroup) (v : number) :
  nth_error HexbinPlot.ageGroups i = Some g ->
  HexbinPlot.inAgeGroup g v = true ->
  filter (fun g => HexbinPlot.inAgeGroup g v) HexbinPlot.ageGroups = [g].
Proof.
  intros Hnth Hin.
  pose proof (window_count_le v) as Hle.
  assert (Hmem : In g (filter (fun g => HexbinPlot.inAgeGroup g v) HexbinPlot.ageGroups)).
  { apply filter_In. split; [eapply nth_error_In; eauto | exact Hin]. }
  destruct (filter (fun g => HexbinPlot.inAgeGroup g v) HexbinPlot.ageGroups)
    as [| g1 [| g2 rest]].
  - contradiction.
  - destruct Hmem as [-> | []]. reflexivity.
  - simpl in Hle. lia.
Qed.

(** X5: the five age windows are pairwise disjoint and cover the whole
    ages from 18 to 69: a record is shown in at most one window, in
    exactly one when its age is a whole number from 18 to 69, and in
    none when its age is below 18, above 69, NaN, or strictly between
    two windows (such as 27.5). *)
Theorem age_windows_partition :
  (forall v, (List.length (filter (fun g => HexbinPlot.inAgeGroup g v)
                                  HexbinPlot.ageGroups) <= 1)%nat) /\
  (forall z, (18 <= z <= 69)%Z ->
     List.length (filter (fun g => HexbinPlot.inAgeGroup g (int z))
                         HexbinPlot.ageGroups) = 1%nat) /\
  (forall v, (v >= int 18)%js && (v <= int 69)%js = false ->
     filter (fun g => HexbinPlot.inAgeGroup g v) HexbinPlot.ageGroups = []) /\
  (forall z, In z [27; 37; 47; 57]%Z ->
     forall q : Qc, (inject_Z z < q)%Q -> (q < inject_Z (z + 1))%Q ->
     filter (fun g => HexbinPlot.inAgeGroup g (Fin q)) HexbinPlot.ageGroups = []) /\
  (forall data i j shown shown' d,
     HexbinPlot.filteredData i data = Some shown ->
     HexbinPlot.filteredData j data = Some shown' ->
     In d shown -> In d shown' -> i = j).
Proof.
  split; [exact window_count_le |]. split; [| split; [| split]].
  - intros z Hz.
    unfold HexbinPlot.ageGroups, HexbinPlot.inAgeGroup.
    cbn [filter HexbinPlot.min HexbinPlot.max]. unfold geb.
    rewrite !leb_int_int.
    repeat match goal with
           | |- context [Z.leb ?a ?b] =>
               destruct (Z.leb_spec a b); try (exfalso; lia)
           end; reflexivity.
  - intros v Hout.
    unfold HexbinPlot.ageGroups, HexbinPlot.inAgeGroup.
    cbn [filter HexbinPlot.min HexbinPlot.max].
    destruct v as [| | q |]; try reflexivity.
    revert Hout. unfold geb. rewrite ?leb_int_Fin, ?leb_Fin_int.
    repeat order_step; simpl; intros Hout;
      first [reflexivity | discriminate Hout].
  - intros z Hz q Hlo Hhi.
    unfold HexbinPlot.ageGroups, HexbinPlot.inAgeGroup.
    cbn [filter HexbinPlot.min HexbinPlot.max]. unfold geb.
    rewrite ?leb_int_Fin, ?leb_Fin_int.
    simpl in Hz. destruct Hz as [<- | [<- | [<- | [<- | []]]]];
      unfold inject_Z in Hlo, Hhi; simpl in Hlo, Hhi;
      repeat order_step; reflexivity.
  - intros data i j shown shown' d Hi Hj Hd Hd'.
    unfold HexbinPlot.filteredData, HexbinPlot.currentAgeGroup in Hi, Hj.
    destruct (nth_error HexbinPlot.ageGroups i) as [g |] eqn:Ei; [| discriminate].
    destruct (nth_error HexbinPlot.ageGroups j) as [g' |] eqn:Ej; [| discriminate].
    injection Hi as <-. injection Hj as <-.
    apply filter_In in Hd as [_ Hd]. apply filter_In in Hd' as [_ Hd'].
    pose proof (window_nth_filter i g _ Ei Hd) as Hone.
    pose proof (window_nth_filter j g' _ Ej Hd') as Hone'.
    assert (g = g') by congruence. subst g'.
    assert (Hnd : NoDup HexbinPlot.ageGroups).
    { unfold HexbinPlot.ageGroups.
      repeat (constructor; [simpl; intros H;
                            repeat (destruct H as [H | H]; [discriminate H |]);
                            exact H |]).
      constructor. }
    apply (proj1 (NoDup_nth_error _) Hnd).
    + apply nth_error_Some. congruence.
    + congruence.
Qed.

(** ** Shape of the flow graph *)

Lemma occurrence_adjacent (data : list Sankey.DataType) (s t : string) :
  In (s, t) (Sankey.occurrences data) ->
  exists d p c, In d data /\ In (p, c) Sankey.adjacent /\
                s = Sankey.nodeName p d /\ t = Sankey.nodeName c d.
Proof.
  intros Hin. unfold Sankey.occurrences in Hin.
  apply in_flat_map in Hin as (d & Hd & Hpair).
  unfold Sankey.pairs in Hpair. apply in_map_iff in Hpair as ([p c] & E & Hpc).
  simpl in E. injection E as <- <-. now exists d, p, c.
Qed.

Lemma adjacent_dimensions (p c : string) :
  In (p, c) Sankey.adjacent ->
  In p Sankey.dimensions /\ In c Sankey.dimensions /\ p <> c /\
  In p (removelast Sankey.dimensions).
Proof.
  intros Hin. simpl in Hin.
  destruct Hin as [E | [E | [E | []]]]; injection E as <- <-;
    (split; [simpl; tauto |]); (split; [simpl; tauto |]);
    (split; [discriminate | simpl; tauto]).
Qed.

Lemma split_nonempty (c : ascii) (s : string) : Sankey.split c s <> [].
Proof.
  destruct s as [| a s]; simpl; [discriminate |].
  destruct (Ascii.eqb a c); [discriminate |].
  destruct (Sankey.split c s); discriminate.
Qed.

Lemma split_plain (c : ascii) (s : string) :
  Sankey.has_char c s = false -> Sankey.split c s = [s].
Proof.
  induction s as [| a s IH]; simpl; [reflexivity |].
  intros H. apply orb_false_iff in H as [Ha Hs].
  rewrite Ha, (IH Hs). reflexivity.
Qed.

Lemma split_nodeName (dim : string) (d : Sankey.DataType) :
  In dim Sankey.dimensions ->
  Sankey.split "_" (Sankey.nodeName dim d) =
  dim :: Sankey.split "_" (Sankey.spliced (Sankey.prop d dim)).
Proof.
  intros Hdim. simpl in Hdim.
  destruct Hdim as [<- | [<- | [<- | [<- | []]]]]; unfold Sankey.nodeName; simpl;
    match goal with
    | |- context [Sankey.split "_" ?v] =>
        pose proof (split_nonempty "_" v);
        destruct (Sankey.split "_" v); [congruence | reflexivity]
    end.
Qed.

Lemma prop_defined (d : Sankey.DataType) (dim : string) :
  In dim Sankey.dimensions -> exists value, Sankey.prop d dim = Some value.
Proof.
  intros Hdim. simpl in Hdim.
  destruct Hdim as [<- | [<- | [<- | [<- | []]]]]; eexists; reflexivity.
Qed.

Section GraphShape.
Context {extra : Type} (passthrough : Sankey.DataType -> extra).

Lemma node_of_name (data : list Sankey.DataType) (node : Sankey.Node) :
  In node (fst (Sankey.graph passthrough data)) ->
  exists d dim, In d data /\ In dim Sankey.dimensions /\
                Sankey.name node = Sankey.nodeName dim d /\
                Sankey.dimension node = Some dim /\
                Sankey.category node =
                  nth_error (Sankey.split "_" (Sankey.spliced (Sankey.prop d dim))) 0.
Proof.
  unfold Sankey.graph, Sankey.nodes. cbn [fst]. intros Hin.
  apply in_map_iff in Hin as (n & <- & Hn).
  destruct (build_invariant passthrough data) as (_ & Hnodes & _).
  apply Hnodes, occurrence_ends in Hn as (d & dim & Hd & Hdim & ->).
  exists d, dim. cbn [Sankey.name Sankey.dimension Sankey.category].
  rewrite (split_nodeName dim d Hdim). now repeat split.
Qed.

Lemma entry_ends (data : list Sankey.DataType) (k : string) (e : @Sankey.LinkEntry extra) :
  In (k, e) (Sankey.linksMap (Sankey.build passthrough data)) ->
  exists d p c, In d data /\ In (p, c) Sankey.adjacent /\
                Sankey.source e = Sankey.nodeName p d /\
                Sankey.target e = Sankey.nodeName c d.
Proof.
  intros Hin.
  destruct (build_invariant passthrough data) as (_ & _ & _ & Hentries & _).
  destruct (Hentries k e Hin) as (_ & Hocc & _).
  now apply occurrence_adjacent.
Qed.

Lemma node_index (data : list Sankey.DataType) (d : Sankey.DataType) (dim : string) :
  In d data -> In dim Sankey.dimensions ->
  exists i node,
    D3.get string_dec (Sankey.nodeName dim d)
           (Sankey.nodeMap (Sankey.nodes (Sankey.build passthrough data))) = Some i /\
    nth_error (Sankey.nodes (Sankey.build passthrough data)) i = Some node /\
    Sankey.name node = Sankey.nodeName dim d /\
    Sankey.dimension node = Some dim.
Proof.
  intros Hd Hdim.
  destruct (build_invariant passthrough data) as (Hnd & Hnodes & _).
  assert (Hin : In (Sankey.nodeName dim d) (Sankey.nodesSet (Sankey.build passthrough data))).
  { apply Hnodes, occurrence_ends. now exists d, dim. }
  apply In_nth_error in Hin as (i & Hi).
  assert (Hnames : NoDup (map Sankey.name (Sankey.nodes (Sankey.build passthrough data))))
    by now rewrite names_of_nodes.
  assert (Hget := proj2 (nodeMap_index (Sankey.nodeName dim d) _ i Hnames)).
  rewrite names_of_nodes in Hget. specialize (Hget Hi).
  unfold Sankey.nodes at 2.
  exists i. eexists. split; [exact Hget |].
  split; [apply map_nth_error; exact Hi |].
  cbn [Sankey.name Sankey.dimension]. split; [reflexivity |].
  now rewrite (split_nodeName dim d Hdim).
Qed.
End GraphShape.

(** X6: every link handed to the layout has both ends resolved to
    indices of existing nodes (the non-null assertions on
    [nodeMap.get] never meet [undefined]), and it leads from a node of
    one dimension to a node of the next dimension; in particular no
    link is a loop or leads backwards. *)
Theorem links_resolved_and_layered {extra : Type}
    (passthrough : Sankey.DataType -> extra) (data : list Sankey.DataType) :
  Forall (fun l =>
            exists i j ni nj p c,
              Sankey.sourceIndex l = Some i /\ Sankey.targetIndex l = Some j /\
              nth_error (fst (Sankey.graph passthrough data)) i = Some ni /\
              nth_error (fst (Sankey.graph passthrough data)) j = Some nj /\
              In (p, c) Sankey.adjacent /\
              Sankey.dimension ni = Some p /\ Sankey.dimension nj = Some c /\
              i <> j)
         (snd (Sankey.graph passthrough data)).
Proof.
  unfold Sankey.graph. cbn [fst snd]. unfold Sankey.links.
  apply Forall_map, Forall_forall. intros [k e] Hin.
  cbn [Sankey.sourceIndex Sankey.targetIndex snd].
  destruct (entry_ends passthrough data k e Hin) as (d & p & c & Hd & Hpc & -> & ->).
  destruct (adjacent_dimensions p c Hpc) as (Hp & Hc & Hne & _).
  destruct (node_index passthrough data d p Hd Hp) as (i & ni & Hgi & Hni & _ & Hdi).
  destruct (node_index passthrough data d c Hd Hc) as (j & nj & Hgj & Hnj & _ & Hdj).
  exists i, j, ni, nj, p, c. repeat split; try assumption.
  intros ->. rewrite Hni in Hnj. injection Hnj as <-. congruence.
Qed.

(** X7: every node of the graph is the key of a value of some row; its
    [dimension] field is the dimension of that value, and its
    [category] field, which labels the node, is the value cut at its
    first underscore: the whole value when it has no underscore. *)
Theorem node_fields {extra : Type}
    (passthrough : Sankey.DataType -> extra) (data : list Sankey.DataType) :
  Forall (fun node =>
            exists d dim value,
              In d data /\ In dim Sankey.dimensions /\
              Sankey.prop d dim = Some value /\
              Sankey.name node = (dim ++ "_" ++ value)%string /\
              Sankey.dimension node = Some dim /\
              Sankey.category node = nth_error (Sankey.split "_" value) 0 /\
              Sankey.category node <> None /\
              (Sankey.has_char "_" value = false -> Sankey.category node = Some value))
         (fst (Sankey.graph passthrough data)).
Proof.
  apply Forall_forall. intros node Hin.
  destruct (node_of_name passthrough data node Hin) as (d & dim & Hd & Hdim & Hname & Hdimf & Hcat).
  destruct (prop_defined d dim Hdim) as (value & Hprop).
  rewrite Hprop in Hcat. cbn [Sankey.spliced] in Hcat.
  exists d, dim, value. repeat split; try assumption.
  - rewrite Hname. unfold Sankey.nodeName. now rewrite Hprop.
  - rewrite Hcat. pose proof (split_nonempty "_" value).
    destruct (Sankey.split "_" value); [congruence | discriminate].
  - intros Hplain. now rewrite Hcat, (split_plain _ _ Hplain).
Qed.

Lemma length_le_sum {X : Type} (f : X -> nat) (l : list X) :
  Forall (fun x => (1 <= f x)%nat) l -> (List.length l <= list_sum (map f l))%nat.
Proof. induction 1 as [| x l Hx _ IH]; simpl; lia. Qed.

Lemma filter_none {X : Type} (f : X -> bool) (l : list X) :
  (forall x, In x l -> f x = false) -> filter f l = [].
Proof.
  induction l as [| x l IH]; intros Hall; simpl; [reflexivity |].
  rewrite (Hall x) by now left. apply IH. intros y Hy. apply Hall. now right.
Qed.

Section TotalWeight.
Context {extra : Type} (passthrough : Sankey.DataType -> extra).

Local Abbreviation total :=
  (fun m : list (string * @Sankey.LinkEntry extra) =>
     list_sum (map (fun e => Sankey.value (snd e)) m)).

Lemma increment_total (k : string) (e0 : @Sankey.LinkEntry extra)
    (m : list (string * @Sankey.LinkEntry extra)) :
  D3.get string_dec k m = Some e0 ->
  total (Sankey.increment k m) = (total m + 1)%nat.
Proof.
  induction m as [| [k' e] rest IH]; simpl; [discriminate |].
  destruct (string_dec k k') as [<- | Hne].
  - intros _. simpl. lia.
  - intros Hget. simpl. rewrite (IH Hget). lia.
Qed.

Lemma addLink_total (d : Sankey.DataType) (st : @Sankey.State extra) (s t : string) :
  total (Sankey.linksMap (Sankey.addLink passthrough d st s t)) =
  (total (Sankey.linksMap st) + 1)%nat.
Proof.
  unfold Sankey.addLink. cbn [Sankey.linksMap]. unfold D3.has.
  destruct (D3.get string_dec (Sankey.linkKey s t) (Sankey.linksMap st)) as [e0 |] eqn:E.
  - now apply (increment_total _ e0).
  - rewrite map_app, list_sum_app. simpl. lia.
Qed.

Lemma fold_total (data : list Sankey.DataType) (st : @Sankey.State extra) :
  total (Sankey.linksMap (fold_left (Sankey.visit passthrough) data st)) =
  (total (Sankey.linksMap st) + 3 * List.length data)%nat.
Proof.
  revert st. induction data as [| d data IH]; intros st; simpl fold_left.
  - simpl. lia.
  - rewrite IH, visit_links, !addLink_total. simpl List.length. lia.
Qed.

Lemma key_count_positive (s t : string) (occs : list (string * string)) :
  In (s, t) occs -> (1 <= Sankey.key_count (Sankey.linkKey s t) occs)%nat.
Proof.
  intros Hin. unfold Sankey.key_count.
  assert (Hf : In (s, t) (filter (fun o => String.eqb (Sankey.linkKey (fst o) (snd o))
                                                     (Sankey.linkKey s t)) occs)).
  { apply filter_In. split; [exact Hin | apply String.eqb_refl]. }
  destruct (filter _ occs); [contradiction | simpl; lia].
Qed.
End TotalWeight.

(** X8: every row adds exactly three units of weight, whatever its
    values: the weights of all links add up to three times the number of
    rows, and no link has weight zero. *)
Theorem total_weight_is_three_per_row {extra : Type}
    (passthrough : Sankey.DataType -> extra) (data : list Sankey.DataType) :
  Sankey.totalWeight (snd (Sankey.graph passthrough data)) = (3 * List.length data)%nat /\
  Forall (fun l => (1 <= Sankey.weight l)%nat) (snd (Sankey.graph passthrough data)) /\
  (List.length (snd (Sankey.graph passthrough data)) <= 3 * List.length data)%nat.
Proof.
  unfold Sankey.graph. cbn [snd].
  assert (Htotal : Sankey.totalWeight (Sankey.links (Sankey.build passthrough data))
                   = (3 * List.length data)%nat).
  { unfold Sankey.totalWeight, Sankey.links. rewrite map_map. cbn [Sankey.weight].
    unfold Sankey.build. rewrite (fold_total passthrough data Sankey.empty). reflexivity. }
  assert (Hpos : Forall (fun l => (1 <= Sankey.weight l)%nat)
                        (Sankey.links (Sankey.build passthrough data))).
  { unfold Sankey.links. apply Forall_map, Forall_forall. intros [k e] Hin.
    cbn [Sankey.weight snd].
    destruct (build_invariant passthrough data) as (_ & _ & _ & Hentries & _).
    destruct (Hentries k e Hin) as (-> & Hocc & ->).
    now apply key_count_positive. }
  split; [exact Htotal |]. split; [exact Hpos |].
  rewrite <- Htotal. unfold Sankey.totalWeight.
  now apply length_le_sum.
Qed.

(** X9: the graph has a node, and a link, exactly when there is a row;
    so a risk filter that no row matches leaves the Sankey plot with an
    empty graph, and the filter ["All"] keeps every row. *)
Theorem graph_empty_iff_no_rows {extra : Type}
    (passthrough : Sankey.DataType -> extra) (data : list Sankey.DataType) :
  (fst (Sankey.graph passthrough data) = [] <-> data = []) /\
  (snd (Sankey.graph passthrough data) = [] <-> data = []) /\
  (forall filter, filter <> "All" ->
     (forall d, In d data -> Sankey.RiskRating d <> filter) ->
     Sankey.sankeyGraph filter data = ([], [])) /\
  Sankey.filteredData "All" data = data.
Proof.
  destruct (build_invariant passthrough data) as (_ & Hnodes & _ & _ & Hcover).
  split; [| split; [| split]].
  - split; [| now intros ->].
    destruct data as [| d data]; [reflexivity |]. intros Hempty. exfalso.
    assert (Hin : In (Sankey.nodeName "EducationLevel" d)
                     (Sankey.nodesSet (Sankey.build passthrough (d :: data)))).
    { apply Hnodes, occurrence_ends. exists d, "EducationLevel".
      split; [now left | split; [simpl; tauto | reflexivity]]. }
    unfold Sankey.graph, Sankey.nodes in Hempty. cbn [fst] in Hempty.
    apply map_eq_nil in Hempty. now rewrite Hempty in Hin.
  - split; [| now intros ->].
    destruct data as [| d data]; [reflexivity |]. intros Hempty. exfalso.
    unfold Sankey.graph, Sankey.links in Hempty. cbn [snd] in Hempty.
    apply map_eq_nil in Hempty.
    specialize (Hcover (Sankey.nodeName "EducationLevel" d, Sankey.nodeName "PaymentHistory" d)).
    rewrite Hempty in Hcover. apply Hcover.
    change (Sankey.occurrences (d :: data))
      with (Sankey.pairs d ++ Sankey.occurrences data).
    apply in_or_app. left. rewrite pairs_unfold. now left.
  - intros filter Hfilter Hnone.
    unfold Sankey.sankeyGraph, Sankey.filteredData.
    destruct (String.eqb_spec filter "All"); [contradiction |].
    replace (List.filter (fun d => String.eqb (Sankey.RiskRating d) filter) data)
      with (@nil Sankey.DataType); [reflexivity |].
    symmetry. apply filter_none. intros d Hd.
    apply String.eqb_neq. now apply Hnone.
  - reflexivity.
Qed.

(** ** The risk filter and the attribute carried by a link *)

Section Carried.
Context {extra : Type} (passthrough : Sankey.DataType -> extra).

Local Abbreviation made_by :=
  (fun (seen : list Sankey.DataType) (e : @Sankey.LinkEntry extra) =>
     exists d, In d seen /\ In (Sankey.source e, Sankey.target e) (Sankey.pairs d) /\
               Sankey.riskRating e = passthrough d).

Lemma increment_same_ends (k k' : string) (e' : @Sankey.LinkEntry extra)
    (m : list (string * @Sankey.LinkEntry extra)) :
  In (k', e') (Sankey.increment k m) ->
  exists e0, In (k', e0) m /\ Sankey.source e' = Sankey.source e0 /\
             Sankey.target e' = Sankey.target e0 /\
             Sankey.riskRating e' = Sankey.riskRating e0.
Proof.
  induction m as [| [k0 e0] rest IH]; simpl; [tauto |].
  destruct (string_dec k k0) as [<- | Hne]; intros [E | Hin].
  - injection E as <- <-. exists e0. simpl. auto.
  - exists e'. auto.
  - injection E as <- <-. exists e0. auto.
  - destruct (IH Hin) as (e1 & Hin1 & Hrest). exists e1. auto.
Qed.

Lemma addLink_made_by (seen : list Sankey.DataType) (d : Sankey.DataType)
    (st : @Sankey.State extra) (s t : string) :
  In d seen -> In (s, t) (Sankey.pairs d) ->
  (forall k e, In (k, e) (Sankey.linksMap st) -> made_by seen e) ->
  forall k e, In (k, e) (Sankey.linksMap (Sankey.addLink passthrough d st s t)) ->
              made_by seen e.
Proof.
  intros Hd Hpair Hold k e. unfold Sankey.addLink. cbn [Sankey.linksMap].
  destruct (D3.has string_dec (Sankey.linkKey s t) (Sankey.linksMap st)).
  - intros Hin. apply increment_same_ends in Hin as (e0 & Hin & Hs & Ht & Hr).
    destruct (Hold _ _ Hin) as (d0 & Hd0 & Hp0 & Hr0).
    exists d0. rewrite Hs, Ht, Hr. auto.
  - intros Hin. apply in_app_or in Hin as [Hin | [E | []]]; [now apply (Hold k) |].
    injection E as <- <-. exists d. simpl. auto.
Qed.

Lemma fold_made_by (data seen : list Sankey.DataType) (st : @Sankey.State extra) :
  (forall k e, In (k, e) (Sankey.linksMap st) -> made_by seen e) ->
  forall k e, In (k, e) (Sankey.linksMap (fold_left (Sankey.visit passthrough) data st)) ->
              made_by (seen ++ data) e.
Proof.
  revert seen st. induction data as [| d data IH]; intros seen st Hold k e; simpl fold_left.
  - rewrite app_nil_r. apply Hold.
  - change (seen ++ d :: data) with (seen ++ [d] ++ data). rewrite app_assoc.
    apply IH. clear k e. intros k e. rewrite visit_links.
    assert (Hd : In d (seen ++ [d])) by (apply in_or_app; right; now left).
    assert (Hwiden : forall k e, In (k, e) (Sankey.linksMap st) -> made_by (seen ++ [d]) e).
    { intros k0 e0 Hin. destruct (Hold _ _ Hin) as (d0 & Hd0 & Hrest).
      exists d0. split; [apply in_or_app; now left | exact Hrest]. }
    apply (addLink_made_by _ d); [exact Hd | rewrite pairs_unfold; simpl; tauto |].
    apply (addLink_made_by _ d); [exact Hd | rewrite pairs_unfold; simpl; tauto |].
    apply (addLink_made_by _ d); [exact Hd | rewrite pairs_unfold; simpl; tauto |].
    exact Hwiden.
Qed.

Lemma build_made_by (data : list Sankey.DataType) (k : string)
    (e : @Sankey.LinkEntry extra) :
  In (k, e) (Sankey.linksMap (Sankey.build passthrough data)) -> made_by data e.
Proof.
  apply (fold_made_by data [] Sankey.empty). intros k0 e0 [].
Qed.
End Carried.

Lemma filteredData_In (filter : string) (data : list Sankey.DataType) (d : Sankey.DataType) :
  In d (Sankey.filteredData filter data) <->
  In d data /\ (filter = "All" \/ Sankey.RiskRating d = filter).
Proof.
  unfold Sankey.filteredData. destruct (String.eqb_spec filter "All") as [-> | Hne].
  - tauto.
  - rewrite filter_In, String.eqb_eq. tauto.
Qed.

(** X10: in the Sankey plot every link carries the risk rating of one
    of the displayed rows that runs along it: the link leads from the
    node of that row's value in one dimension to the node of its value
    in the next dimension.  Under a risk filter other than ["All"] every
    link therefore carries the selected rating, and every node of the
    filtered graph is a node of the unfiltered graph. *)
Theorem filtered_graph (filter : string) (data : list Sankey.DataType) :
  Forall (fun l =>
            exists d p c i j ni nj,
              In d data /\
              (filter = "All" \/ Sankey.RiskRating d = filter) /\
              In (p, c) Sankey.adjacent /\
              Sankey.sourceIndex l = Some i /\ Sankey.targetIndex l = Some j /\
              nth_error (fst (Sankey.sankeyGraph filter data)) i = Some ni /\
              nth_error (fst (Sankey.sankeyGraph filter data)) j = Some nj /\
              Sankey.name ni = Sankey.nodeName p d /\
              Sankey.name nj = Sankey.nodeName c d /\
              Sankey.carried l = Sankey.RiskRating d)
         (snd (Sankey.sankeyGraph filter data)) /\
  (filter <> "All" ->
   Forall (fun l => Sankey.carried l = filter) (snd (Sankey.sankeyGraph filter data))) /\
  (forall node, In node (fst (Sankey.sankeyGraph filter data)) ->
                In node (fst (Sankey.sankeyGraph "All" data))).
Proof.
  assert (Hcarried :
    Forall (fun l =>
              exists d p c i j ni nj,
                In d data /\
                (filter = "All" \/ Sankey.RiskRating d = filter) /\
                In (p, c) Sankey.adjacent /\
                Sankey.sourceIndex l = Some i /\ Sankey.targetIndex l = Some j /\
                nth_error (fst (Sankey.sankeyGraph filter data)) i = Some ni /\
                nth_error (fst (Sankey.sankeyGraph filter data)) j = Some nj /\
                Sankey.name ni = Sankey.nodeName p d /\
                Sankey.name nj = Sankey.nodeName c d /\
                Sankey.carried l = Sankey.RiskRating d)
           (snd (Sankey.sankeyGraph filter data))).
  { unfold Sankey.sankeyGraph, Sankey.graph, Sankey.links. cbn [fst snd].
    apply Forall_map, Forall_forall. intros [k e] Hin.
    cbn [Sankey.carried Sankey.sourceIndex Sankey.targetIndex snd].
    apply build_made_by in Hin as (d & Hd & Hpair & Hr).
    unfold Sankey.pairs in Hpair.
    apply in_map_iff in Hpair as ([p c] & Hends & Hpc). cbn [fst snd] in Hends.
    injection Hends as Hs Ht.
    destruct (adjacent_dimensions p c Hpc) as (Hp & Hc & _).
    destruct (node_index Sankey.RiskRating _ d p Hd Hp) as (i & ni & Hgi & Hni & Hnamei & _).
    destruct (node_index Sankey.RiskRating _ d c Hd Hc) as (j & nj & Hgj & Hnj & Hnamej & _).
    apply filteredData_In in Hd as [Hd Hf].
    exists d, p, c, i, j, ni, nj. rewrite <- Hs, <- Ht.
    repeat split; assumption. }
  split; [exact Hcarried |]. split.
  - intros Hfilter. eapply Forall_impl; [| exact Hcarried].
    intros l (d & p & c & i & j & ni & nj & _ & [E | E] & _ & _ & _ & _ & _ & _ & _ & Hc);
      [contradiction | congruence].
  - intros node. unfold Sankey.sankeyGraph, Sankey.graph, Sankey.nodes. cbn [fst].
    rewrite !in_map_iff. intros (n & Hnode & Hn). exists n. split; [exact Hnode |].
    destruct (build_invariant Sankey.RiskRating (Sankey.filteredData filter data))
      as (_ & Hnodes & _).
    destruct (build_invariant Sankey.RiskRating (Sankey.filteredData "All" data))
      as (_ & Hnodes' & _).
    apply Hnodes, occurrence_ends in Hn as (d & dim & Hd & Hdim & ->).
    apply Hnodes', occurrence_ends. exists d, dim.
    apply filteredData_In in Hd as [Hd _]. now repeat split.
Qed.

(** ** From the file to the graph *)

Lemma weights_of_plain_rows {extra : Type} (passthrough : Sankey.DataType -> extra)
    (data : list Sankey.DataType) :
  forallb Sankey.arrow_free data = true ->
  Sankey.source_weights_conserved passthrough data.
Proof.
  intros Hfree i node dim v Hnth Hdim Hname.
  unfold Sankey.graph in *. cbn [fst snd] in *.
  destruct (build_invariant passthrough data) as (Hnd & _).
  assert (Hnth' : nth_error (Sankey.nodesSet (Sankey.build passthrough data)) i
                  = Some (Sankey.name node)).
  { rewrite <- names_of_nodes. now apply map_nth_error. }
  rewrite (outWeight_by_name _ i (Sankey.name node) Hnd Hnth').
  rewrite (build_weight passthrough data _ Hfree), Hname.
  now apply through_count.
Qed.

Lemma range_labels_plain (label : string) :
  In label Sankey.incomeRanges -> Sankey.has_arrow label = false.
Proof.
  intros Hin. simpl in Hin.
  destruct Hin as [<- | [<- | [<- | [<- | [<- | []]]]]]; reflexivity.
Qed.

(** X12: the income labels written by the loader never contain ["->"],
    so for loaded records only the education level and the payment
    history matter: when neither contains ["->"] in any loaded record,
    the graph has one edge per pair of node keys, weighted by the
    occurrences of the pair, and its weights per source node match the
    rows. *)
Theorem loaded_graph_conforms {extra : Type} (passthrough : Sankey.DataType -> extra)
    (ToNumber : string -> number) (file : list Js.DSVRow) :
  (forall r, In r (Sankey.load ToNumber file) ->
             Sankey.has_arrow (Sankey.EducationLevel r) = false /\
             Sankey.has_arrow (Sankey.PaymentHistory r) = false) ->
  Sankey.edges_by_pair passthrough (Sankey.load ToNumber file) /\
  Sankey.source_weights_conserved passthrough (Sankey.load ToNumber file).
Proof.
  intros Hplain.
  assert (Hfree : forallb Sankey.arrow_free (Sankey.load ToNumber file) = true).
  { apply forallb_forall. intros r Hr.
    destruct (Hplain r Hr) as [He Hp].
    pose proof (sankey_loaded_rows_labelled ToNumber file r Hr) as Hi.
    unfold Sankey.arrow_free. now rewrite He, Hp, (range_labels_plain _ Hi). }
  split; [now apply edges_identified | now apply weights_of_plain_rows].
Qed.

(** A file of two complete rows and one row without payment history. *)
Lemma loaded_graph_conforms_sample :
  List.length (Sankey.load Js.StringToNumber
                 [Examples.complete; Examples.gaps; Examples.complete]) = 2%nat /\
  Sankey.source_weights_conserved (fun _ => tt)
    (Sankey.load Js.StringToNumber [Examples.complete; Examples.gaps; Examples.complete]).
Proof.
  split; [reflexivity |].
  apply (loaded_graph_conforms (fun _ => tt) Js.StringToNumber
           [Examples.complete; Examples.gaps; Examples.complete]).
  intros r Hr. vm_compute in Hr.
  destruct Hr as [<- | [<- | []]]; split; reflexivity.
Defined.

(** ** Contents and order of the aggregate *)

(** X13: the cell of a pair of keys is the reduction of exactly the rows
    that have both keys, taken in input order: its count is their number
    and its sum is [d3.sum] of their measures; a pair that no row has
    gets no cell. *)
Theorem cell_reduces_matching_rows {num : Type} `{JsArith num} {A K1 K2 : Type}
    (K1_dec : forall x y : K1, {x = y} + {x <> y})
    (K2_dec : forall x y : K2, {x = y} + {x <> y})
    (rows : list A) (valueof : A -> num) (key1 : A -> K1) (key2 : A -> K2)
    (k1 : K1) (k2 : K2) :
  let matching := filter (fun r => (if K1_dec (key1 r) k1 then true else false) &&
                                   (if K2_dec (key2 r) k2 then true else false)) rows in
  Aggregator.cell K1_dec K2_dec
    (Aggregator.aggregate K1_dec K2_dec rows valueof key1 key2) k1 k2 =
  match matching with
  | [] => None
  | _ => Some {| Aggregator.totalIncome := D3.sum matching valueof;
                 Aggregator.count := List.length matching |}
  end.
Proof.
  intros matching. rewrite cell_rows.
  assert (E : D3.members K2_dec key2 k2 (D3.members K1_dec key1 k1 rows) = matching).
  { unfold matching, D3.members. clear matching.
    induction rows as [| r rows IH]; simpl; [reflexivity |].
    destruct (K1_dec (key1 r) k1); simpl; [| exact IH].
    destruct (K2_dec (key2 r) k2); [now rewrite IH | exact IH]. }
  rewrite E. now destruct matching.
Qed.

Section KeyOrder.
Context {A K : Type} (K_dec : forall x y : K, {x = y} + {x <> y}).
Variable keyof : A -> K.

Lemma push_key_order (k : K) (v : A) (g : list (K * list A)) :
  map fst (D3.push K_dec k v g) =
  if in_dec K_dec k (map fst g) then map fst g else map fst g ++ [k].
Proof.
  induction g as [| [k0 vs] rest IH]; [reflexivity |].
  cbn [D3.push]. destruct (K_dec k k0) as [E | Hne].
  - subst k0. cbn [map fst].
    destruct (in_dec K_dec k (k :: map fst rest)) as [_ | Hn]; [reflexivity |].
    exfalso. apply Hn. now left.
  - cbn [map fst]. rewrite IH.
    destruct (in_dec K_dec k (map fst rest)) as [Hin | Hnot];
      destruct (in_dec K_dec k (k0 :: map fst rest)) as [Hin' | Hnot'];
      try reflexivity.
    + exfalso. apply Hnot'. now right.
    + destruct Hin' as [E | Hin']; [congruence | contradiction].
Qed.

Lemma group_key_order (values : list A) :
  map fst (D3.group K_dec keyof values) =
  rev (nodup K_dec (rev (map keyof values))).
Proof.
  induction values as [| v values IH] using rev_ind; [reflexivity |].
  unfold D3.group in *. rewrite fold_left_app. simpl fold_left.
  rewrite step_push, push_key_order, IH.
  rewrite map_app, rev_app_distr. simpl.
  destruct (in_dec K_dec (keyof v) (rev (map keyof values))) as [Hin | Hnot];
    destruct (in_dec K_dec (keyof v) (rev (nodup K_dec (rev (map keyof values)))))
      as [Hin' | Hnot'];
    try reflexivity.
  - exfalso. apply Hnot'. rewrite <- in_rev. now apply nodup_In.
  - exfalso. apply Hnot. rewrite <- in_rev in Hin'. now apply nodup_In in Hin'.
Qed.
End KeyOrder.

(** X14: the keys of the aggregate are the keys of the rows without
    repetition and in order of first appearance; so the x axis of the
    bar chart that takes its domain from the mean table lists the age
    groups in the order in which they first occur in the data. *)
Theorem aggregate_keys_first_seen {num : Type} `{JsArith num} {A K1 K2 : Type}
    (K1_dec : forall x y : K1, {x = y} + {x <> y})
    (K2_dec : forall x y : K2, {x = y} + {x <> y})
    (rows : list A) (valueof : A -> num) (key1 : A -> K1) (key2 : A -> K2) :
  map fst (Aggregator.aggregate K1_dec K2_dec rows valueof key1 key2) =
    rev (nodup K1_dec (rev (map key1 rows))) /\
  NoDup (map fst (Aggregator.aggregate K1_dec K2_dec rows valueof key1 key2)) /\
  (forall k1 inner,
     In (k1, inner) (Aggregator.aggregate K1_dec K2_dec rows valueof key1 key2) ->
     map fst inner =
       rev (nodup K2_dec (rev (map key2 (D3.members K1_dec key1 k1 rows))))) /\
  (forall data : list (BarChartOverview2.DataType num),
     BarChartOverview2.xDomain data =
       rev (nodup string_dec (rev (map BarChartOverview2.Age data)))).
Proof.
  assert (Houter : forall (B : Type) (rows : list B) (v : B -> num)
                          (f : B -> K1) (g : B -> K2),
             map fst (Aggregator.aggregate K1_dec K2_dec rows v f g) =
             rev (nodup K1_dec (rev (map f rows)))).
  { intros B rs v f g. rewrite rollup_unfold.
    rewrite (keys_map (fun vs => map (fun e2 => (fst e2, Aggregator.sumCount v (snd e2)))
                                     (D3.group K2_dec g vs))).
    apply group_key_order. }
  split; [apply Houter |]. split; [apply aggregate_NoDup |]. split.
  - intros k1 inner Hin. rewrite rollup_unfold in Hin.
    apply in_map_iff in Hin as ([k vs] & E & Hgroup). simpl in E.
    injection E as Ek Einner. subst k inner.
    rewrite (keys_map (Aggregator.sumCount valueof)), group_key_order.
    assert (Hget := In_get K1_dec k1 vs _ (group_NoDup K1_dec key1 rows) Hgroup).
    rewrite group_get in Hget.
    destruct (D3.members K1_dec key1 k1 rows); [discriminate | now injection Hget as <-].
  - intros data. unfold BarChartOverview2.xDomain, BarChartOverview2.stackedData.
    rewrite map_map.
    transitivity (map fst (BarChartOverview2.aggregatedData data)).
    + apply map_ext. now intros [age riskData].
    + unfold BarChartOverview2.aggregatedData.
      rewrite (rollup_unfold string_dec BarChartOverview2.risk_dec).
      rewrite (keys_map (fun vs => map (fun e2 => (fst e2, Aggregator.sumCount
                                                     BarChartOverview2.Income (snd e2)))
                                       (D3.group BarChartOverview2.risk_dec
                                                 BarChartOverview2.RiskRating vs))).
      apply group_key_order.
Qed.

Lemma sum_of_truthy {num : Type} `{JsArith num} {A : Type}
    (valueof : A -> num) (rows : list A) (s : num) :
  fold_left (fun sum v =>
               let value := valueof v in
               if num_truthy value then num_add sum value else sum) rows s =
  fold_left num_add (filter num_truthy (map valueof rows)) s.
Proof.
  revert s. induction rows as [| r rows IH]; intros s; simpl; [reflexivity |].
  destruct (num_truthy (valueof r)); simpl; apply IH.
Qed.

Lemma members_both {A K1 K2 : Type}
    (K1_dec : forall x y : K1, {x = y} + {x <> y})
    (K2_dec : forall x y : K2, {x = y} + {x <> y})
    (key1 : A -> K1) (key2 : A -> K2) (k1 : K1) (k2 : K2) (rows : list A) :
  D3.members K2_dec key2 k2 (D3.members K1_dec key1 k1 rows) =
  filter (fun r => (if K1_dec (key1 r) k1 then true else false) &&
                   (if K2_dec (key2 r) k2 then true else false)) rows.
Proof.
  unfold D3.members.
  induction rows as [| r rows IH]; simpl; [reflexivity |].
  destruct (K1_dec (key1 r) k1); simpl; [| exact IH].
  destruct (K2_dec (key2 r) k2); [now rewrite IH | exact IH].
Qed.

(** X15: the mean that the bar chart shows for an age group and a risk
    category that some row has is the sum of the truthy incomes of the
    matching rows, added from [0] in input order, divided by the number
    of all matching rows.  A person whose income is zero or NaN, as an
    unparseable income field is loaded, is counted in the divisor and
    adds nothing to the sum. *)
Theorem mean_divides_by_all_rows {num : Type} `{JsArith num}
    (data : list (BarChartOverview.DataType num)) (age risk : string) :
  let matching :=
    filter (fun d =>
              (if string_dec (BarChartOverview.Age d) age then true else false) &&
              (if BarChartOverview.risk_dec (BarChartOverview.RiskRating d) (Some risk)
               then true else false)) data in
  let incomes := map BarChartOverview.Income matching in
  In risk BarChartOverview.riskCategories ->
  matching <> [] ->
  D3.sum matching BarChartOverview.Income =
    fold_left num_add (filter num_truthy incomes) num_zero /\
  exists means,
    In (age, means) (BarChartOverview.stackedData data) /\
    In (risk,
        num_div (fold_left num_add (filter num_truthy incomes) num_zero)
                (num_of_nat (List.length incomes)))
       means.
Proof.
  intros matching incomes Hrisk Hsome.
  split; [apply sum_of_truthy |].
  assert (Hcell : Aggregator.cell string_dec BarChartOverview.risk_dec
                    (BarChartOverview.aggregatedData data) age (Some risk) =
                  Some (Aggregator.sumCount BarChartOverview.Income matching)).
  { unfold BarChartOverview.aggregatedData.
    rewrite cell_rows, members_both. fold matching.
    now destruct matching. }
  unfold Aggregator.cell in Hcell.
  destruct (D3.get string_dec age (BarChartOverview.aggregatedData data))
    as [riskData |] eqn:Hage; [| discriminate].
  apply (get_In string_dec) in Hage.
  exists (snd (BarChartOverview.stackedRow (age, riskData))). split.
  - unfold BarChartOverview.stackedData. apply in_map_iff.
    exists (age, riskData). split; [reflexivity | exact Hage].
  - cbn [BarChartOverview.stackedRow snd].
    apply in_map_iff. exists risk. split; [| exact Hrisk].
    rewrite Hcell. cbn [Aggregator.sumCount Aggregator.totalIncome Aggregator.count].
    unfold incomes. rewrite length_map. f_equal. f_equal.
    apply sum_of_truthy.
Qed.

(** Of two people aged 28 to 37 with a low risk rating, one has the
    income [100] and the income of the other is NaN: the bar shows the
    mean [50]. *)
Lemma mean_divides_by_all_rows_sample :
  exists means,
    In ("28-37", means) (BarChartOverview.stackedData Examples.unparsed) /\
    In ("Low", 50%float) means.
Proof.
  destruct (mean_divides_by_all_rows Examples.unparsed "28-37" "Low")
    as (_ & means & Hrow & Hmean).
  - now left.
  - discriminate.
  - exists means. split; [exact Hrow | exact Hmean].
Defined.

(** ** Order of the income ranges *)

(** X16: income bucketing preserves order: a larger income never gets
    an earlier range of [incomeRanges] than a smaller one. *)
Theorem income_ranges_monotone (a b : number) :
  (a <= b)%js = true ->
  (Sankey.rangeRank (Sankey.assignIncomeToRange a) <=
   Sankey.rangeRank (Sankey.assignIncomeToRange b))%nat.
Proof.
  destruct a as [| | p |], b as [| | q |]; try discriminate; intros Hle.
  - vm_compute. lia.
  - change (Sankey.rangeRank (Sankey.assignIncomeToRange NegInf)) with 0%nat. lia.
  - vm_compute. lia.
  - revert Hle. unfold Sankey.assignIncomeToRange, geb.
    rewrite ?leb_int_Fin, ?ltb_Fin_int. unfold leb.
    intros Hle. apply Qle_bool_iff in Hle.
    repeat order_step; vm_compute; lia.
  - change (Sankey.assignIncomeToRange PosInf) with "> 200K".
    unfold Sankey.assignIncomeToRange.
    repeat match goal with
           | |- context [if ?c then _ else _] => destruct c
           end; vm_compute; lia.
  - vm_compute. lia.
Qed.

Lemma income_ranges_monotone_sample :
  (Sankey.rangeRank (Sankey.assignIncomeToRange (int 49999)) <=
   Sankey.rangeRank (Sankey.assignIncomeToRange (int 50000)))%nat.
Proof.
  apply income_ranges_monotone. reflexivity.
Defined.

(** ** Looking up a node *)

(** X17: [nodeMap] is the inverse of the node list: the name of the
    node at index [i] is mapped to [i], a name mapped to [i] is the name
    of the node at index [i], and a string that is no node name is not
    in the map. *)
Theorem nodeMap_round_trip {extra : Type} (passthrough : Sankey.DataType -> extra)
    (data : list Sankey.DataType) :
  let nodes := fst (Sankey.graph passthrough data) in
  (forall i node, nth_error nodes i = Some node ->
     D3.get string_dec (Sankey.name node) (Sankey.nodeMap nodes) = Some i) /\
  (forall n i, D3.get string_dec n (Sankey.nodeMap nodes) = Some i ->
     exists node, nth_error nodes i = Some node /\ Sankey.name node = n) /\
  (forall n, D3.get string_dec n (Sankey.nodeMap nodes) = None <->
     ~ In n (map Sankey.name nodes)).
Proof.
  intros nodes. unfold Sankey.graph in nodes. cbn [fst] in nodes.
  destruct (build_invariant passthrough data) as (Hnd & _).
  assert (Hnames : NoDup (map Sankey.name nodes))
    by (unfold nodes; now rewrite names_of_nodes).
  split; [| split].
  - intros i node Hnth. apply (nodeMap_index _ _ _ Hnames).
    now apply map_nth_error.
  - intros n i Hget. apply (nodeMap_index _ _ _ Hnames) in Hget.
    rewrite nth_error_map in Hget.
    destruct (nth_error nodes i) as [node |]; [| discriminate].
    exists node. simpl in Hget. split; [reflexivity | congruence].
  - intros n. split.
    + intros Hnone Hin. apply In_nth_error in Hin as (i & Hi).
      apply (nodeMap_index _ _ _ Hnames) in Hi. congruence.
    + intros Hnot.
      destruct (D3.get string_dec n (Sankey.nodeMap nodes)) as [i |] eqn:E; [| reflexivity].
      apply (nodeMap_index _ _ _ Hnames) in E. apply nth_error_In in E. contradiction.
Qed.

(** ** The axes of the two bar charts *)

(** X18: the x axis of the bar chart with the fixed category list does
    not depend on the order of the rows. *)
Theorem overview_axis_ignores_row_order {num : Type} `{JsArith num}
    (data data' : list (BarChartOverview.DataType num)) :
  Permutation data data' ->
  BarChartOverview.ageCategoriesInData data = BarChartOverview.ageCategoriesInData data'.
Proof.
  intros Hperm. unfold BarChartOverview.ageCategoriesInData.
  apply filter_ext. intros age. unfold D3.has.
  destruct (D3.get string_dec age (BarChartOverview.aggregatedData data)) eqn:E;
    destruct (D3.get string_dec age (BarChartOverview.aggregatedData data')) eqn:E';
    try reflexivity; exfalso.
  - apply get_In in E. apply (get_None string_dec) in E'. apply E'.
    assert (Hkey : In age (map fst (BarChartOverview.aggregatedData data)))
      by (change age with (fst (age, l)); now apply in_map).
    apply (aggregate_keys string_dec BarChartOverview.risk_dec) in Hkey as (d & Hd & Hage).
    apply (aggregate_keys string_dec BarChartOverview.risk_dec).
    exists d. split; [now apply (Permutation_in _ Hperm) | exact Hage].
  - apply get_In in E'. apply (get_None string_dec) in E. apply E.
    assert (Hkey : In age (map fst (BarChartOverview.aggregatedData data')))
      by (change age with (fst (age, l)); now apply in_map).
    apply (aggregate_keys string_dec BarChartOverview.risk_dec) in Hkey as (d & Hd & Hage).
    apply (aggregate_keys string_dec BarChartOverview.risk_dec).
    exists d. split; [now apply (Permutation_in _ (Permutation_sym Hperm)) | exact Hage].
Qed.

(** The scenario of the specification and its shuffle have the same
    axis, although their mean tables list the age groups in different
    orders. *)
Lemma overview_axis_ignores_row_order_scenario :
  BarChartOverview.ageCategoriesInData Examples.scenario =
  BarChartOverview.ageCategoriesInData Examples.scenario_shuffled /\
  map fst (BarChartOverview.stackedData Examples.scenario) <>
  map fst (BarChartOverview.stackedData Examples.scenario_shuffled).
Proof.
  split.
  - apply overview_axis_ignores_row_order.
    unfold Examples.scenario, Examples.scenario_shuffled.
    eapply perm_trans; [apply perm_skip, perm_swap |].
    eapply perm_trans; [apply perm_swap |].
    apply perm_skip, perm_swap.
  - vm_compute. discriminate.
Defined.

(** X19: on whole ages neither age table has a gap: an age that is a
    whole number is ["Unknown"] exactly when it is below 18 or above 69,
    in both bar charts. *)
Theorem whole_ages_have_a_group (z : Z) :
  (BarChartOverview.categorizeAge (int z) = "Unknown" <-> (z < 18 \/ 69 < z)%Z) /\
  (BarChartOverview2.categorizeAge (int z) = "Unknown" <-> (z < 18 \/ 69 < z)%Z).
Proof.
  split.
  - unfold BarChartOverview.categorizeAge, geb. rewrite !leb_int_int.
    repeat match goal with
           | |- context [Z.leb ?a ?b] => destruct (Z.leb_spec a b); cbn [andb]
           end; split; intros; try discriminate; try reflexivity; lia.
  - unfold BarChartOverview2.categorizeAge, geb. rewrite !leb_int_int.
    repeat match goal with
           | |- context [Z.leb ?a ?b] => destruct (Z.leb_spec a b); cbn [andb]
           end; split; intros; try discriminate; try reflexivity; lia.
Qed.

(** X20: the income label of a loaded record is the range of the
    number its income field converts to, which is never NaN; so the
    fallback range ["> 200K"] is only given to an income of at least
    200000. *)
Theorem loaded_income_label (ToNumber : string -> number) (d : Js.DSVRow)
    (r : Sankey.DataType) :
  Sankey.row ToNumber d = Some r ->
  exists s, Js.field d "Income" = Some s /\
            isNaN (ToNumber s) = false /\
            Sankey.Income r = Sankey.assignIncomeToRange (ToNumber s) /\
            (Sankey.Income r = "> 200K" <-> (ToNumber s >= int 200000)%js = true).
Proof.
  intros Hrow.
  assert (Hsome : Sankey.row ToNumber d <> None) by congruence.
  apply sankey_row_accepts in Hsome as (_ & _ & _ & Hi & Hb & Hn).
  unfold Loader.present, Loader.nonblank, Loader.numeric, Js.plus in *.
  unfold Sankey.row in Hrow.
  destruct (Js.field d "Income") as [s |]; [| discriminate].
  simpl in Hi. rewrite Hi, Hb in Hrow. cbn [andb] in Hrow.
  apply negb_true_iff in Hn.
  exists s. split; [reflexivity |]. split; [exact Hn |].
  assert (Hlabel : Sankey.Income r = Sankey.assignIncomeToRange (ToNumber s)).
  { match type of Hrow with
    | (if ?c then _ else _) = _ => destruct c; [| discriminate]
    end.
    destruct (Js.field d "Education Level"); [| discriminate].
    destruct (Js.field d "Payment History"); [| discriminate].
    destruct (Js.field d "Risk Rating"); [| discriminate].
    now injection Hrow as <-. }
  split; [exact Hlabel |]. rewrite Hlabel.
  unfold Sankey.assignIncomeToRange.
  destruct (ToNumber s) as [| | q |]; try discriminate Hn.
  - simpl. split; discriminate.
  - unfold geb. rewrite ?leb_int_Fin, ?ltb_Fin_int.
    repeat order_step; simpl; split; intros;
      first [discriminate | reflexivity].
  - simpl. split; reflexivity.
Qed.

Lemma loaded_income_label_sample :
  exists s, Js.field Examples.complete "Income" = Some s /\
            isNaN (Js.StringToNumber s) = false.
Proof.
  destruct (loaded_income_label Js.StringToNumber Examples.complete
              {| Sankey.EducationLevel := "PhD"; Sankey.PaymentHistory := "Good";
                 Sankey.Income := "50K - 100K"; Sankey.RiskRating := "Low" |} eq_refl)
    as (s & Hs & Hn & _).
  exists s. now split.
Defined.
